(** * Voxeldoro: the voxel simulation and assembly engine

    A shallow embedding of [VoxelEngine] (services/VoxelEngine.ts) and of
    [normalizeVoxels] (App.tsx), with the properties of the assignment
    algorithm, the unlock schedule and the three-state lifecycle.

    Conventions of the embedding:
    - a JavaScript [number] is an exact rational ([Q]); floating-point
      rounding is not modelled, except in the timer of the application,
      where it decides when zero and progress 1 are reached: there every
      operation rounds its exact result to the nearest double
      ([binary64]).  Comparisons are the boolean tests of the source
      ([<], [>=], [>]) on rationals;
    - [Date.now()] is an input of every operation that reads the clock
      (an integer number of milliseconds);
    - arrays are lists, read with [!!] and written with [<[i:=x]>];
    - [CONFIG.FLOOR_Y] (utils/voxelConstants.ts) is a parameter;
    - the camera, the scene graph and the renderer are left out: they are
      never read back by the simulation;
    - [dismantle] draws random impulses along a normalised vector (a square
      root): [Math.random] and [Vector3.normalize] are parameters of its
      model;
    - [JSON.stringify] and [JSON.parse] are taken to give back the numbers
      and strings they were given; of the blueprint only the colour
      strings are modelled. *)

From Stdlib Require Import ZArith QArith Qabs Qround Qminmax Qpower Lqa Lia.
From Stdlib Require Import String Ascii.
From stdpp Require Import base list.

Local Open Scope Q_scope.

(** ** Numbers *)

(** [a < b] of the source, as a boolean. *)
Definition Qltb (a b : Q) : bool := negb (Qle_bool b a).

(** [a >= b] of the source, as a boolean. *)
Definition Qgeb (a b : Q) : bool := Qle_bool b a.

(** [Math.round]: the nearest integer, halves rounded towards +infinity. *)
Definition Math_round (q : Q) : Q := inject_Z (Qfloor (q + (1 # 2))).

(** [a / b] where both are array indices or lengths. *)
Definition ratio (a b : nat) : Q :=
  inject_Z (Z.of_nat a) / inject_Z (Z.of_nat b).

(** ** Data model (types.ts) *)

(** [THREE.Color]: three channels in [0,1]; [setHex] decodes a 24-bit RGB
    integer ([(hex >> 16 & 255) / 255] and so on).  The conversion to the
    working colour space that recent three.js applies afterwards maps
    [0,1] onto [0,1] and is not modelled. *)
Module Color.
Record t : Type := mk { r : Q; g : Q; b : Q }.

Definition channel (hex : Z) (shift : Z) : Q :=
  inject_Z (Z.land (Z.shiftr hex shift) 255) / 255.

Definition setHex (hex : Z) : t :=
  {| r := channel hex 16; g := channel hex 8; b := channel hex 0 |}.

(** The invariant of a colour that was built from a hex value. *)
Definition valid (c : t) : Prop :=
  0 <= r c /\ r c <= 1.
End Color.

Module VoxelData.
Record t : Type := mk { x : Q; y : Q; z : Q; color : Z }.
End VoxelData.

Module SimulationVoxel.
Record t : Type := mk {
  id : nat;
  x : Q; y : Q; z : Q;
  color : Color.t;
  vx : Q; vy : Q; vz : Q;
  rx : Q; ry : Q; rz : Q;
  rvx : Q; rvy : Q; rvz : Q
}.

Definition with_color (c : Color.t) (v : t) : t :=
  mk (id v) (x v) (y v) (z v) c (vx v) (vy v) (vz v)
     (rx v) (ry v) (rz v) (rvx v) (rvy v) (rvz v).

Definition with_y (y' : Q) (v : t) : t :=
  mk (id v) (x v) y' (z v) (color v) (vx v) (vy v) (vz v)
     (rx v) (ry v) (rz v) (rvx v) (rvy v) (rvz v).
End SimulationVoxel.

(** [isRubble] is an optional field: absent ([None]) in the targets that
    [loadInitialModel] and the matching loop write. *)
Module RebuildTarget.
Record t : Type := mk {
  x : Q; y : Q; z : Q;
  delay : Q;
  isRubble : option bool
}.

(** Truthiness of [t.isRubble]. *)
Definition rubble (t : t) : bool :=
  match isRubble t with
  | Some true => true
  | _ => false
  end.
End RebuildTarget.

Inductive AppState : Type := STABLE | DISMANTLING | REBUILDING.

Global Instance AppState_eq_dec : EqDecision AppState.
Proof. solve_decision. Defined.

(** ** The Normalizer (App.tsx, [normalizeVoxels]) *)

Record Box : Type := mkBox {
  minX : Q; maxX : Q;
  minY : Q; maxY : Q;
  minZ : Q; maxZ : Q
}.

(** One iteration of the [forEach] that accumulates the bounds. *)
Definition expand (bx : Box) (v : VoxelData.t) : Box :=
  {| minX := Qmin (minX bx) (VoxelData.x v);
     maxX := Qmax (maxX bx) (VoxelData.x v);
     minY := Qmin (minY bx) (VoxelData.y v);
     maxY := Qmax (maxY bx) (VoxelData.y v);
     minZ := Qmin (minZ bx) (VoxelData.z v);
     maxZ := Qmax (maxZ bx) (VoxelData.z v) |}.

(** The bounds after the first voxel: [Math.min(Infinity, a) = a] and
    [Math.max(-Infinity, a) = a]. *)
Definition box_of (v : VoxelData.t) : Box :=
  {| minX := VoxelData.x v; maxX := VoxelData.x v;
     minY := VoxelData.y v; maxY := VoxelData.y v;
     minZ := VoxelData.z v; maxZ := VoxelData.z v |}.

(** The bounds of the non-empty list [v0 :: rest]. *)
Definition boundingBox (v0 : VoxelData.t) (rest : list VoxelData.t) : Box :=
  foldl expand (box_of v0) rest.

Definition shift (offsetX offsetY offsetZ : Q) (v : VoxelData.t)
  : VoxelData.t :=
  {| VoxelData.x := Math_round (VoxelData.x v + offsetX);
     VoxelData.y := Math_round (VoxelData.y v + offsetY);
     VoxelData.z := Math_round (VoxelData.z v + offsetZ);
     VoxelData.color := VoxelData.color v |}.

Definition normalizeVoxels (voxels : list VoxelData.t) : list VoxelData.t :=
  match voxels with
  | [] => voxels
  | v0 :: rest =>
      let bx := boundingBox v0 rest in
      let offsetX := - (minX bx + maxX bx) / 2 in
      let offsetY := - minY bx in
      let offsetZ := - (minZ bx + maxZ bx) / 2 in
      map (shift offsetX offsetY offsetZ) voxels
  end.

(** ** Engine state (services/VoxelEngine.ts) *)

(** One slot of the instanced mesh, as [draw] writes it with [setMatrixAt]
    and [setColorAt]: uniform scale, position, rotation and colour. *)
Record Instance : Type := mkInstance {
  scale : Q;
  px : Q; py : Q; pz : Q;
  irx : Q; iry : Q; irz : Q;
  icolor : Color.t
}.

(** Calls of the two callbacks [onStateChange] and [onCountChange]. *)
Inductive Event : Type :=
  | StateChange (s : AppState)
  | CountChange (active total : nat).

(** The fields of [VoxelEngine] that the simulation reads and writes.
    [events] is the trace of callback calls, oldest first.  The mesh is
    [None] until [createVoxels] allocates it; it always has one slot per
    voxel, and [draw] rewrites every slot. *)
Record VoxelEngine : Type := mkEngine {
  instanceMesh : option (list Instance);
  voxels : list SimulationVoxel.t;
  rebuildTargets : list RebuildTarget.t;
  rebuildStartTime : Z;
  state : AppState;
  isProgressive : bool;
  manualProgress : Q;
  events : list Event
}.

Definition set_instanceMesh (m : option (list Instance)) (e : VoxelEngine) :=
  mkEngine m (voxels e) (rebuildTargets e) (rebuildStartTime e) (state e)
           (isProgressive e) (manualProgress e) (events e).
Definition set_voxels (vs : list SimulationVoxel.t) (e : VoxelEngine) :=
  mkEngine (instanceMesh e) vs (rebuildTargets e) (rebuildStartTime e)
           (state e) (isProgressive e) (manualProgress e) (events e).
Definition set_rebuildTargets (ts : list RebuildTarget.t) (e : VoxelEngine) :=
  mkEngine (instanceMesh e) (voxels e) ts (rebuildStartTime e) (state e)
           (isProgressive e) (manualProgress e) (events e).
Definition set_rebuildStartTime (now : Z) (e : VoxelEngine) :=
  mkEngine (instanceMesh e) (voxels e) (rebuildTargets e) now (state e)
           (isProgressive e) (manualProgress e) (events e).
Definition set_state (s : AppState) (e : VoxelEngine) :=
  mkEngine (instanceMesh e) (voxels e) (rebuildTargets e)
           (rebuildStartTime e) s (isProgressive e) (manualProgress e)
           (events e).
Definition set_isProgressive (p : bool) (e : VoxelEngine) :=
  mkEngine (instanceMesh e) (voxels e) (rebuildTargets e)
           (rebuildStartTime e) (state e) p (manualProgress e) (events e).
Definition set_manualProgress (p : Q) (e : VoxelEngine) :=
  mkEngine (instanceMesh e) (voxels e) (rebuildTargets e)
           (rebuildStartTime e) (state e) (isProgressive e) p (events e).
Definition emit (ev : Event) (e : VoxelEngine) :=
  mkEngine (instanceMesh e) (voxels e) (rebuildTargets e)
           (rebuildStartTime e) (state e) (isProgressive e)
           (manualProgress e) (events e ++ [ev]).

(** The engine as its field initialisers leave it. *)
Definition initial : VoxelEngine :=
  mkEngine None [] [] 0%Z STABLE false 0 [].

(** Seconds since the last [rebuild]: [(now - rebuildStartTime) / 1000]. *)
Definition elapsed (now : Z) (e : VoxelEngine) : Q :=
  inject_Z (now - rebuildStartTime e) / 1000.

(** [isProgressive ? manualProgress >= t.delay : elapsed > t.delay * 2] *)
Definition isUnlocked (now : Z) (e : VoxelEngine) (t : RebuildTarget.t)
  : bool :=
  if isProgressive e
  then Qgeb (manualProgress e) (RebuildTarget.delay t)
  else Qltb (RebuildTarget.delay t * 2) (elapsed now e).

(** ** Sorting the targets

    [[...targetModel].sort((a, b) => a.y - b.y)]: [Array.prototype.sort] is
    stable, so the result is the stable ascending arrangement by [y];
    insertion from the right computes it. *)
Fixpoint insert_by_y (a : VoxelData.t) (l : list VoxelData.t)
  : list VoxelData.t :=
  match l with
  | [] => [a]
  | b :: l' =>
      if Qle_bool (VoxelData.y a) (VoxelData.y b)
      then a :: b :: l'
      else b :: insert_by_y a l'
  end.

Fixpoint sort_by_y (l : list VoxelData.t) : list VoxelData.t :=
  match l with
  | [] => []
  | a :: l' => insert_by_y a (sort_by_y l')
  end.

(** ** The matching loop of [rebuild] *)

(** An entry of [available].  Its [color] field is a reference to the
    colour object of voxel [index], so it is read from the voxel store. *)
Record Avail : Type := mkAvail { index : nat; taken : bool }.

(** The store, the claims and the mappings while the targets are matched;
    a [null] entry of [mappings] is [None]. *)
Record Matching : Type := mkMatching {
  m_voxels : list SimulationVoxel.t;
  available : list Avail;
  mappings : list (option RebuildTarget.t)
}.

(** The inner [for] loop from position [i] on; [bestIdx = -1] is [None].
    [available[i]] and voxel [i] are walked together. *)
Fixpoint findBest (targetR : Q) (avail : list Avail)
    (vs : list SimulationVoxel.t) (i : nat) (bestDist : Q)
    (bestIdx : option nat) : option nat :=
  match avail, vs with
  | a :: avail', v :: vs' =>
      if taken a then findBest targetR avail' vs' (S i) bestDist bestIdx
      else
        let d := Qabs (Color.r (SimulationVoxel.color v) - targetR) in
        if Qltb d bestDist then
          if Qltb d (1 # 100) then Some i
          else findBest targetR avail' vs' (S i) d (Some i)
        else findBest targetR avail' vs' (S i) bestDist bestIdx
  | _, _ => bestIdx
  end.

(** The target record written for the voxel matched at rank [targetIdx]. *)
Definition mapping_of (total targetIdx : nat) (target : VoxelData.t)
  : RebuildTarget.t :=
  {| RebuildTarget.x := VoxelData.x target;
     RebuildTarget.y := VoxelData.y target;
     RebuildTarget.z := VoxelData.z target;
     RebuildTarget.delay := ratio targetIdx total;
     RebuildTarget.isRubble := None |}.

(** The body of [sortedTargets.forEach((target, targetIdx) => ...)]. *)
Definition assignTarget (total : nat) (st : Matching) (targetIdx : nat)
    (target : VoxelData.t) : Matching :=
  let targetR := Color.r (Color.setHex (VoxelData.color target)) in
  match findBest targetR (available st) (m_voxels st) 0 9999 None with
  | None => st
  | Some bestIdx =>
      match available st !! bestIdx with
      | None => st
      | Some a =>
          let vIdx := index a in
          {| m_voxels :=
               alter (SimulationVoxel.with_color
                        (Color.setHex (VoxelData.color target)))
                     vIdx (m_voxels st);
             available := <[bestIdx := mkAvail (index a) true]> (available st);
             mappings :=
               <[vIdx := Some (mapping_of total targetIdx target)]>
                 (mappings st) |}
      end
  end.

(** [forEach] with the element's index, from index [i] on. *)
Fixpoint forEach_from {A St : Type} (f : St -> nat -> A -> St) (i : nat)
    (l : list A) (s : St) : St :=
  match l with
  | [] => s
  | a :: l' => forEach_from f (S i) l' (f s i a)
  end.

Definition assignAll (sortedTargets : list VoxelData.t) (st : Matching)
  : Matching :=
  forEach_from (assignTarget (length sortedTargets)) 0 sortedTargets st.

Definition startMatching (vs : list SimulationVoxel.t) : Matching :=
  {| m_voxels := vs;
     available := imap (fun i _ => mkAvail i false) vs;
     mappings := replicate (length vs) None |}.

(** ** Operations of the engine *)

Section Operations.

(** [CONFIG.FLOOR_Y] *)
Variable FLOOR_Y : Q.

(** *** Render bridge: [draw] *)

(** The scale of slot [i] and whether the voxel is counted as active. *)
Definition slotScale (now : Z) (e : VoxelEngine) (i : nat)
    (v : SimulationVoxel.t) : Q * bool :=
  match state e with
  | STABLE => (1, true)
  | REBUILDING =>
      match rebuildTargets e !! i with
      | None => (1 # 10000, false)
      | Some t =>
          if RebuildTarget.rubble t then (1 # 10000, false)
          else if isUnlocked now e t then (1, true)
          else if Qltb (SimulationVoxel.y v) (FLOOR_Y - 5)
               then (1 # 10000, false)
               else (1, false)
      end
  | DISMANTLING => (1, false)
  end.

Definition slotInstance (s : Q) (v : SimulationVoxel.t) : Instance :=
  {| scale := s;
     px := SimulationVoxel.x v; py := SimulationVoxel.y v;
     pz := SimulationVoxel.z v;
     irx := SimulationVoxel.rx v; iry := SimulationVoxel.ry v;
     irz := SimulationVoxel.rz v;
     icolor := SimulationVoxel.color v |}.

Definition activeCount (now : Z) (e : VoxelEngine) : nat :=
  length (filter (fun b : bool => Is_true b)
                 (imap (fun i v => snd (slotScale now e i v)) (voxels e))).

Definition draw (now : Z) (e : VoxelEngine) : VoxelEngine :=
  match instanceMesh e with
  | None => e
  | Some _ =>
      let slots :=
        imap (fun i v => slotInstance (fst (slotScale now e i v)) v)
             (voxels e) in
      emit (CountChange (activeCount now e) (length (voxels e)))
           (set_instanceMesh (Some slots) e)
  end.

(** *** [createVoxels] and [loadInitialModel] *)

Definition newVoxel (i : nat) (v : VoxelData.t) : SimulationVoxel.t :=
  {| SimulationVoxel.id := i;
     SimulationVoxel.x := VoxelData.x v;
     SimulationVoxel.y := VoxelData.y v;
     SimulationVoxel.z := VoxelData.z v;
     SimulationVoxel.color := Color.setHex (VoxelData.color v);
     SimulationVoxel.vx := 0; SimulationVoxel.vy := 0;
     SimulationVoxel.vz := 0;
     SimulationVoxel.rx := 0; SimulationVoxel.ry := 0;
     SimulationVoxel.rz := 0;
     SimulationVoxel.rvx := 0; SimulationVoxel.rvy := 0;
     SimulationVoxel.rvz := 0 |}.

Definition createVoxels (now : Z) (data : list VoxelData.t)
    (e : VoxelEngine) : VoxelEngine :=
  draw now (set_instanceMesh (Some [])
              (set_voxels (imap newVoxel data) e)).

Definition initialTarget (v : VoxelData.t) : RebuildTarget.t :=
  {| RebuildTarget.x := VoxelData.x v;
     RebuildTarget.y := VoxelData.y v;
     RebuildTarget.z := VoxelData.z v;
     RebuildTarget.delay := 0;
     RebuildTarget.isRubble := None |}.

Definition loadInitialModel (now : Z) (data : list VoxelData.t)
    (e : VoxelEngine) : VoxelEngine :=
  let e1 := emit (StateChange STABLE) (set_state STABLE e) in
  let e2 := set_manualProgress 0 e1 in
  let e3 := set_rebuildTargets (map initialTarget data) e2 in
  let e4 := createVoxels now data e3 in
  emit (CountChange (length data) (length data)) e4.

(** *** [finishRebuild] and [setProgress] *)

Definition rubbleY : Q := FLOOR_Y - 300.

(** The body of the [forEach] of [finishRebuild] for voxel [i]. *)
Definition snapVoxel (targets : list RebuildTarget.t) (i : nat)
    (v : SimulationVoxel.t) : SimulationVoxel.t :=
  match targets !! i with
  | None => v
  | Some t =>
      if RebuildTarget.rubble t
      then SimulationVoxel.with_y rubbleY v
      else
        {| SimulationVoxel.id := SimulationVoxel.id v;
           SimulationVoxel.x := RebuildTarget.x t;
           SimulationVoxel.y := RebuildTarget.y t;
           SimulationVoxel.z := RebuildTarget.z t;
           SimulationVoxel.color := SimulationVoxel.color v;
           SimulationVoxel.vx := 0; SimulationVoxel.vy := 0;
           SimulationVoxel.vz := 0;
           SimulationVoxel.rx := 0; SimulationVoxel.ry := 0;
           SimulationVoxel.rz := 0;
           SimulationVoxel.rvx := SimulationVoxel.rvx v;
           SimulationVoxel.rvy := SimulationVoxel.rvy v;
           SimulationVoxel.rvz := SimulationVoxel.rvz v |}
  end.

Definition finishRebuild (now : Z) (e : VoxelEngine) : VoxelEngine :=
  let e1 := set_manualProgress 1 e in
  let e2 := emit (StateChange STABLE) (set_state STABLE e1) in
  let e3 := set_voxels (imap (snapVoxel (rebuildTargets e2)) (voxels e2))
                       e2 in
  draw now e3.

Definition setProgress (now : Z) (p : Q) (e : VoxelEngine) : VoxelEngine :=
  let e1 := set_manualProgress p e in
  if Qgeb p 1 && bool_decide (state e1 = REBUILDING)
  then finishRebuild now e1
  else e1.

(** *** [rebuild] *)

(** The temporary targets written before the store is reallocated. *)
Definition temporaryTarget (v : VoxelData.t) : RebuildTarget.t :=
  {| RebuildTarget.x := VoxelData.x v;
     RebuildTarget.y := VoxelData.y v;
     RebuildTarget.z := VoxelData.z v;
     RebuildTarget.delay := 2;
     RebuildTarget.isRubble := Some false |}.

Definition rubbleTarget : RebuildTarget.t :=
  {| RebuildTarget.x := 0;
     RebuildTarget.y := rubbleY;
     RebuildTarget.z := 0;
     RebuildTarget.delay := 2;
     RebuildTarget.isRubble := Some true |}.

(** [if (!mappings[i]) mappings[i] = { ..., isRubble: true, delay: 2 }] *)
Definition fillRubble (m : option RebuildTarget.t) : RebuildTarget.t :=
  match m with
  | Some t => t
  | None => rubbleTarget
  end.

Definition rebuild (now : Z) (targetModel : list VoxelData.t)
    (progressive : bool) (e : VoxelEngine) : VoxelEngine :=
  let e1 := emit (StateChange REBUILDING) (set_state REBUILDING e) in
  let e2 := set_isProgressive progressive e1 in
  let e3 :=
    if (length (voxels e2) <? length targetModel)%nat
    then createVoxels now targetModel
           (set_rebuildTargets (map temporaryTarget targetModel) e2)
    else e2 in
  let sortedTargets := sort_by_y targetModel in
  let st := assignAll sortedTargets (startMatching (voxels e3)) in
  let e4 := set_voxels (m_voxels st) e3 in
  let e5 := set_rebuildTargets (map fillRubble (mappings st)) e4 in
  set_rebuildStartTime now e5.

(** *** The integrator: one tick of [animate] *)

(** Free fall with horizontal drag. *)
Definition fall (v : SimulationVoxel.t) : SimulationVoxel.t :=
  let vy' := SimulationVoxel.vy v - (6 # 1000) in
  {| SimulationVoxel.id := SimulationVoxel.id v;
     SimulationVoxel.x := SimulationVoxel.x v + SimulationVoxel.vx v;
     SimulationVoxel.y := SimulationVoxel.y v + vy';
     SimulationVoxel.z := SimulationVoxel.z v + SimulationVoxel.vz v;
     SimulationVoxel.color := SimulationVoxel.color v;
     SimulationVoxel.vx := SimulationVoxel.vx v * (98 # 100);
     SimulationVoxel.vy := vy';
     SimulationVoxel.vz := SimulationVoxel.vz v * (98 # 100);
     SimulationVoxel.rx := SimulationVoxel.rx v + SimulationVoxel.rvx v;
     SimulationVoxel.ry := SimulationVoxel.ry v + SimulationVoxel.rvy v;
     SimulationVoxel.rz := SimulationVoxel.rz v + SimulationVoxel.rvz v;
     SimulationVoxel.rvx := SimulationVoxel.rvx v;
     SimulationVoxel.rvy := SimulationVoxel.rvy v;
     SimulationVoxel.rvz := SimulationVoxel.rvz v |}.

Definition lerpSpeed : Q := 15 # 100.

(** Exponential approach of an unlocked voxel to its target. *)
Definition approach (t : RebuildTarget.t) (v : SimulationVoxel.t)
  : SimulationVoxel.t :=
  {| SimulationVoxel.id := SimulationVoxel.id v;
     SimulationVoxel.x :=
       SimulationVoxel.x v
       + (RebuildTarget.x t - SimulationVoxel.x v) * lerpSpeed;
     SimulationVoxel.y :=
       SimulationVoxel.y v
       + (RebuildTarget.y t - SimulationVoxel.y v) * lerpSpeed;
     SimulationVoxel.z :=
       SimulationVoxel.z v
       + (RebuildTarget.z t - SimulationVoxel.z v) * lerpSpeed;
     SimulationVoxel.color := SimulationVoxel.color v;
     SimulationVoxel.vx := 0; SimulationVoxel.vy := 0;
     SimulationVoxel.vz := 0;
     SimulationVoxel.rx :=
       SimulationVoxel.rx v + (0 - SimulationVoxel.rx v) * lerpSpeed;
     SimulationVoxel.ry :=
       SimulationVoxel.ry v + (0 - SimulationVoxel.ry v) * lerpSpeed;
     SimulationVoxel.rz :=
       SimulationVoxel.rz v + (0 - SimulationVoxel.rz v) * lerpSpeed;
     SimulationVoxel.rvx := SimulationVoxel.rvx v;
     SimulationVoxel.rvy := SimulationVoxel.rvy v;
     SimulationVoxel.rvz := SimulationVoxel.rvz v |}.

(** A locked voxel that has sunk below the floor is parked there. *)
Definition park (v : SimulationVoxel.t) : SimulationVoxel.t :=
  {| SimulationVoxel.id := SimulationVoxel.id v;
     SimulationVoxel.x := SimulationVoxel.x v;
     SimulationVoxel.y :=
       SimulationVoxel.y v
       + ((FLOOR_Y - 10) - SimulationVoxel.y v) * (1 # 10);
     SimulationVoxel.z := SimulationVoxel.z v;
     SimulationVoxel.color := SimulationVoxel.color v;
     SimulationVoxel.vx := 0; SimulationVoxel.vy := 0;
     SimulationVoxel.vz := 0;
     SimulationVoxel.rx := SimulationVoxel.rx v;
     SimulationVoxel.ry := SimulationVoxel.ry v;
     SimulationVoxel.rz := SimulationVoxel.rz v;
     SimulationVoxel.rvx := SimulationVoxel.rvx v;
     SimulationVoxel.rvy := SimulationVoxel.rvy v;
     SimulationVoxel.rvz := SimulationVoxel.rvz v |}.

(** The body of the [forEach] of the REBUILDING branch for voxel [i]. *)
Definition rebuildStep (now : Z) (e : VoxelEngine) (i : nat)
    (v : SimulationVoxel.t) : SimulationVoxel.t :=
  match rebuildTargets e !! i with
  | None => v
  | Some t =>
      if RebuildTarget.rubble t then v
      else if isUnlocked now e t then approach t v
      else if Qltb (FLOOR_Y - 5) (SimulationVoxel.y v) then fall v
      else park v
  end.

Definition animate (now : Z) (e : VoxelEngine) : VoxelEngine :=
  let e1 :=
    match state e with
    | DISMANTLING => set_voxels (map fall (voxels e)) e
    | REBUILDING => set_voxels (imap (rebuildStep now e) (voxels e)) e
    | STABLE => e
    end in
  draw now e1.

(** [n] ticks, one per clock reading. *)
Definition ticks (clock : list Z) (e : VoxelEngine) : VoxelEngine :=
  foldl (fun e now => animate now e) e clock.

End Operations.

(** ** The earlier revision of the integrator

    An earlier revision of VoxelEngine.ts, kept beside AI_AND_JSON.md, has
    the tick in [updatePhysics].  Its REBUILDING branch watches for
    convergence ([allDone]); the current [animate] has no such check. *)
Module Legacy.
Section LegacyOperations.
Variable FLOOR_Y : Q.

(** The body of the [forEach] for voxel [i]: the voxel after the step and
    whether it leaves [allDone] as it was. *)
Definition rebuildStep (now : Z) (e : VoxelEngine) (i : nat)
    (v : SimulationVoxel.t) : SimulationVoxel.t * bool :=
  match rebuildTargets e !! i with
  | None => (v, true)
  | Some t =>
      if RebuildTarget.rubble t
      then (SimulationVoxel.with_y (FLOOR_Y - 20) v, true)
      else
        let targetY :=
          if isUnlocked now e t then RebuildTarget.y t else FLOOR_Y - 15 in
        let lerpSpeed : Q := if isProgressive e then 4 # 10 else 15 # 100 in
        let v' :=
          {| SimulationVoxel.id := SimulationVoxel.id v;
             SimulationVoxel.x :=
               SimulationVoxel.x v
               + (RebuildTarget.x t - SimulationVoxel.x v) * lerpSpeed;
             SimulationVoxel.y :=
               SimulationVoxel.y v
               + (targetY - SimulationVoxel.y v) * lerpSpeed;
             SimulationVoxel.z :=
               SimulationVoxel.z v
               + (RebuildTarget.z t - SimulationVoxel.z v) * lerpSpeed;
             SimulationVoxel.color := SimulationVoxel.color v;
             SimulationVoxel.vx := SimulationVoxel.vx v;
             SimulationVoxel.vy := SimulationVoxel.vy v;
             SimulationVoxel.vz := SimulationVoxel.vz v;
             SimulationVoxel.rx :=
               SimulationVoxel.rx v + (0 - SimulationVoxel.rx v) * lerpSpeed;
             SimulationVoxel.ry :=
               SimulationVoxel.ry v + (0 - SimulationVoxel.ry v) * lerpSpeed;
             SimulationVoxel.rz :=
               SimulationVoxel.rz v + (0 - SimulationVoxel.rz v) * lerpSpeed;
             SimulationVoxel.rvx := SimulationVoxel.rvx v;
             SimulationVoxel.rvy := SimulationVoxel.rvy v;
             SimulationVoxel.rvz := SimulationVoxel.rvz v |} in
        (v', negb (Qltb (5 # 100) (Qabs (targetY - SimulationVoxel.y v'))))
  end.

Definition drift (v : SimulationVoxel.t) : SimulationVoxel.t :=
  SimulationVoxel.with_y (SimulationVoxel.y v + SimulationVoxel.vy v) v.

Definition updatePhysics (now : Z) (e : VoxelEngine) : VoxelEngine :=
  match state e with
  | DISMANTLING => set_voxels (map drift (voxels e)) e
  | REBUILDING =>
      let steps := imap (rebuildStep now e) (voxels e) in
      let allDone := forallb snd steps in
      let e1 := set_voxels (map fst steps) e in
      if allDone && negb (isProgressive e)
      then emit (StateChange STABLE) (set_state STABLE e1)
      else e1
  | STABLE => e
  end.

End LegacyOperations.
End Legacy.

(** ** Export, [dismantle] and the session (services/VoxelEngine.ts, App.tsx) *)

(** [MathUtils.clamp(value, min, max)]:
    [Math.max(min, Math.min(max, value))]. *)
Definition clamp (value lo hi : Q) : Q := Qmax lo (Qmin hi value).

(** [Math.round] as an integer. *)
Definition Math_round_Z (q : Q) : Z := Qfloor (q + (1 # 2)).

(** [THREE.Color.getHex]: each channel scaled to 0..255, clamped, rounded
    and packed. *)
Definition getHex (c : Color.t) : Z :=
  (Math_round_Z (clamp (Color.r c * 255) 0 255) * 65536
   + Math_round_Z (clamp (Color.g c * 255) 0 255) * 256
   + Math_round_Z (clamp (Color.b c * 255) 0 255))%Z.

(** [getActiveModelData]: the store as a voxel list. *)
Definition exportVoxel (v : SimulationVoxel.t) : VoxelData.t :=
  {| VoxelData.x := SimulationVoxel.x v;
     VoxelData.y := SimulationVoxel.y v;
     VoxelData.z := SimulationVoxel.z v;
     VoxelData.color := getHex (SimulationVoxel.color v) |}.

Definition getActiveModelData (e : VoxelEngine) : list VoxelData.t :=
  map exportVoxel (voxels e).

Section Dismantle.

(** [THREE.Vector3.normalize], whatever rational components the
    floating-point square root yields. *)
Variable normalize : Q * Q * Q -> Q * Q * Q.

(** The [k]-th value that [Math.random()] returns during the call. *)
Variable random : nat -> Q.

(** The sum that the first [forEach] accumulates in [center]. *)
Definition sumPositions (vs : list SimulationVoxel.t) : Q * Q * Q :=
  foldl (fun c v =>
           (c.1.1 + SimulationVoxel.x v,
            c.1.2 + SimulationVoxel.y v,
            c.2 + SimulationVoxel.z v))
        (0, 0, 0) vs.

(** [center.divideScalar(this.voxels.length)] *)
Definition centerOf (vs : list SimulationVoxel.t) : Q * Q * Q :=
  let s := sumPositions vs in
  let n := inject_Z (Z.of_nat (length vs)) in
  (s.1.1 / n, s.1.2 / n, s.2 / n).

(** The body of the second [forEach] for voxel [i]; it draws five random
    numbers, in this order: force, [vy], [rvx], [rvy], [rvz]. *)
Definition kick (center : Q * Q * Q) (i : nat) (v : SimulationVoxel.t)
  : SimulationVoxel.t :=
  let dir :=
    normalize (SimulationVoxel.x v - center.1.1,
               (SimulationVoxel.y v - center.1.2) * (1 # 10),
               SimulationVoxel.z v - center.2) in
  let force := (1 # 10) + random (5 * i) * (15 # 100) in
  {| SimulationVoxel.id := SimulationVoxel.id v;
     SimulationVoxel.x := SimulationVoxel.x v;
     SimulationVoxel.y := SimulationVoxel.y v;
     SimulationVoxel.z := SimulationVoxel.z v;
     SimulationVoxel.color := SimulationVoxel.color v;
     SimulationVoxel.vx := dir.1.1 * force;
     SimulationVoxel.vy := random (5 * i + 1) * (15 # 100) + (1 # 10);
     SimulationVoxel.vz := dir.2 * force;
     SimulationVoxel.rx := SimulationVoxel.rx v;
     SimulationVoxel.ry := SimulationVoxel.ry v;
     SimulationVoxel.rz := SimulationVoxel.rz v;
     SimulationVoxel.rvx := (random (5 * i + 2) - (1 # 2)) * (1 # 10);
     SimulationVoxel.rvy := (random (5 * i + 3) - (1 # 2)) * (1 # 10);
     SimulationVoxel.rvz := (random (5 * i + 4) - (1 # 2)) * (1 # 10) |}.

Definition dismantle (e : VoxelEngine) : VoxelEngine :=
  let e1 := emit (StateChange DISMANTLING) (set_state DISMANTLING e) in
  set_voxels (imap (kick (centerOf (voxels e1))) (voxels e1)) e1.

End Dismantle.

(** ** The timer of the application (App.tsx) *)

Definition POMODORO_WORK_TIME : Q := 25 * 60.
Definition POMODORO_BREAK_TIME : Q := 5 * 60.

(** [isWorkMode ? POMODORO_WORK_TIME : POMODORO_BREAK_TIME] *)
Definition totalTime (isWorkMode : bool) : Q :=
  if isWorkMode then POMODORO_WORK_TIME else POMODORO_BREAK_TIME.

(** *** The doubles of the timer *)

(** The time left is a double that the interval lowers by a tenth of the
    speed; whether it, or the progress, reaches its end at a given tick
    depends on the rounding of these operations, so each of them rounds
    its exact result to the nearest double. *)

(** [2^k] for an integer exponent. *)
Definition pow2 (k : Z) : Q := Qpower 2 k.

(** The nearest integer, ties to the even one. *)
Definition roundHalfEven (x : Q) : Z :=
  let k := Qfloor x in
  match Qcompare (x - inject_Z k) (1 # 2) with
  | Lt => k
  | Gt => (k + 1)%Z
  | Eq => if Z.even k then k else (k + 1)%Z
  end.

(** The exponent [e] of a positive number: [2^e <= q < 2^(e+1)]. *)
Definition binade (q : Q) : Z :=
  let e0 := (Z.log2 (Qnum q) - Z.log2 (Zpos (Qden q)))%Z in
  if Qle_bool (pow2 e0) q then e0 else (e0 - 1)%Z.

(** The exponent in use, not below -1022, and the unit in the last of
    the 53 places. *)
Definition exponent (q : Q) : Z := Z.max (binade q) (-1022).

Definition ulp (q : Q) : Q := pow2 (exponent q - 52).

(** The double nearest to a positive number. *)
Definition nearestDouble (q : Q) : Q :=
  inject_Z (roundHalfEven (q / ulp q)) * ulp q.

(** The rounding of IEEE 754 binary64, to nearest with ties to even, on
    the finite numbers: overflow, NaN and the sign of zero are not
    modelled. *)
Definition binary64 (q : Q) : Q :=
  match Qcompare q 0 with
  | Eq => 0
  | Gt => nearestDouble q
  | Lt => - nearestDouble (- q)
  end.

(** A bound of the error of a rounding up to 2048 in magnitude:
    2^-42. *)
Definition eps64 : Q := 1 # 4398046511104.

(** *** The timer *)

(** The literal [0.1]. *)
Definition tenth : Q := binary64 (1 # 10).

(** The memoised [manualProgress]:
    [Math.min(1, Math.max(0, (total - timeLeft) / total))]. *)
Definition manualProgressOf (isWorkMode : bool) (timeLeft : Q) : Q :=
  let total := totalTime isWorkMode in
  Qmin 1 (Qmax 0 (binary64 (binary64 (total - timeLeft) / total))).

(** What [onSetManualProgress(p)] stores in [timeLeft]:
    [total * (1 - p)]. *)
Definition timeForProgress (isWorkMode : bool) (p : Q) : Q :=
  binary64 (totalTime isWorkMode * binary64 (1 - p)).

(** The update of [timeLeft] every 100 ms while the timer runs:
    [step = speedMultiplier * 0.1; next = prev - step;
     next <= 0 ? 0 : next]. *)
Definition timerTick (speedMultiplier : Q) (prev : Q) : Q :=
  let step := binary64 (speedMultiplier * tenth) in
  let next := binary64 (prev - step) in
  if Qle_bool next 0 then 0 else next.

(** The effect that forwards the progress to the engine:
    [if (engineRef.current && sessionStarted) setProgress(manualProgress)]. *)
Definition syncProgress (FLOOR_Y : Q) (now : Z)
    (sessionStarted isWorkMode : bool) (timeLeft : Q) (e : VoxelEngine)
  : VoxelEngine :=
  if sessionStarted
  then setProgress FLOOR_Y now (manualProgressOf isWorkMode timeLeft) e
  else e.

(** [handleStartPomodoro], the calls on the engine:
    [dismantle(); rebuild(targetData, true); setProgress(0)]. *)
Definition startSession (FLOOR_Y : Q) (normalize : Q * Q * Q -> Q * Q * Q)
    (random : nat -> Q) (now : Z) (targetData : list VoxelData.t)
    (e : VoxelEngine) : VoxelEngine :=
  setProgress FLOOR_Y now 0
    (rebuild FLOOR_Y now targetData true (dismantle normalize random e)).

(** ** The calls that change the engine *)

(** A call of a method of [VoxelEngine] that writes to the simulation;
    [animate] is the call of a frame. *)
Inductive Call : Type :=
| CallLoadInitialModel (now : Z) (data : list VoxelData.t)
| CallDismantle (normalize : Q * Q * Q -> Q * Q * Q) (random : nat -> Q)
| CallSetProgress (now : Z) (p : Q)
| CallFinishRebuild (now : Z)
| CallRebuild (now : Z) (targetModel : list VoxelData.t) (progressive : bool)
| CallAnimate (now : Z).

Definition perform (FLOOR_Y : Q) (c : Call) (e : VoxelEngine) : VoxelEngine :=
  match c with
  | CallLoadInitialModel now data => loadInitialModel FLOOR_Y now data e
  | CallDismantle normalize random => dismantle normalize random e
  | CallSetProgress now p => setProgress FLOOR_Y now p e
  | CallFinishRebuild now => finishRebuild FLOOR_Y now e
  | CallRebuild now targetModel progressive =>
      rebuild FLOOR_Y now targetModel progressive e
  | CallAnimate now => animate FLOOR_Y now e
  end.

(** The calls of a list, one after the other. *)
Definition run (FLOOR_Y : Q) (calls : list Call) (e : VoxelEngine)
  : VoxelEngine :=
  foldl (fun e c => perform FLOOR_Y c e) e calls.

(** ** The scrub slider of the overlay (components/UIOverlay.tsx) *)

(** [progressPercent] of the overlay: [((totalTime - timeLeft) / totalTime) * 100]. *)
Definition progressPercent (isWorkMode : bool) (timeLeft : Q) : Q :=
  (totalTime isWorkMode - timeLeft) / totalTime isWorkMode * 100.

(** [handleScrubChange]: the time that the overlay stores for a slider
    value: [Math.round(totalTime - (percent / 100) * totalTime)]. *)
Definition handleScrubChange (isWorkMode : bool) (percent : Q) : Q :=
  Math_round (totalTime isWorkMode - percent / 100 * totalTime isWorkMode).

(** ** The colour strings of the JSON blueprint *)

(** The digit that [Number.prototype.toString(16)] writes for [d]. *)
Definition hexDigit (d : Z) : ascii :=
  match d with
  | 0 => "0" | 1 => "1" | 2 => "2" | 3 => "3" | 4 => "4" | 5 => "5"
  | 6 => "6" | 7 => "7" | 8 => "8" | 9 => "9" | 10 => "a" | 11 => "b"
  | 12 => "c" | 13 => "d" | 14 => "e" | _ => "f"
  end%Z%char.

(** The digits of a positive [n], most significant first, before [acc]. *)
Fixpoint toHex (fuel : nat) (n : Z) (acc : string) : string :=
  match fuel with
  | O => acc
  | S fuel' =>
      if (n =? 0)%Z then acc
      else toHex fuel' (n / 16) (String (hexDigit (n mod 16)) acc)
  end.

(** [n.toString(16)] for an integer [n]. *)
Definition toString16 (n : Z) : string :=
  if (n =? 0)%Z then "0"%string
  else if (n <? 0)%Z
       then String "-"%char
              (toHex (S (Z.to_nat (Z.log2 (- n)))) (- n) EmptyString)
       else toHex (S (Z.to_nat (Z.log2 n))) n EmptyString.

Fixpoint repeatChar (k : nat) (c : ascii) : string :=
  match k with
  | O => EmptyString
  | S k' => String c (repeatChar k' c)
  end.

(** [s.padStart(targetLength, c)] with a one-character filler. *)
Definition padStart (targetLength : nat) (c : ascii) (s : string) : string :=
  (repeatChar (targetLength - String.length s) c ++ s)%string.

(** ['#' + v.color.toString(16).padStart(6, '0')], the [c] field that
    [getJsonData] writes. *)
Definition colorString (color : Z) : string :=
  String "#"%char (padStart 6 "0"%char (toString16 color)).

(** [s.replace(c, '')]: the first occurrence of [c] is dropped. *)
Fixpoint removeFirst (c : ascii) (s : string) : string :=
  match s with
  | EmptyString => EmptyString
  | String a s' => if Ascii.eqb a c then s' else String a (removeFirst c s')
  end.

(** White space that [parseInt] skips (the code units below 256). *)
Definition isWhiteSpace (c : ascii) : bool :=
  let n := nat_of_ascii c in
  ((9 <=? n) && (n <=? 13) || (n =? 32) || (n =? 160))%nat.

Fixpoint trimStart (s : string) : string :=
  match s with
  | EmptyString => EmptyString
  | String a s' => if isWhiteSpace a then trimStart s' else s
  end.

(** The value of a digit of radix 16, in either case. *)
Definition digitValue (c : ascii) : option Z :=
  let n := Z.of_nat (nat_of_ascii c) in
  if ((48 <=? n) && (n <=? 57))%Z then Some (n - 48)%Z
  else if ((97 <=? n) && (n <=? 102))%Z then Some (n - 87)%Z
  else if ((65 <=? n) && (n <=? 70))%Z then Some (n - 55)%Z
  else None.

(** The longest prefix of digits, read from the left; [None] while no
    digit was read. *)
Fixpoint parseDigits (s : string) (acc : option Z) : option Z :=
  match s with
  | EmptyString => acc
  | String a s' =>
      match digitValue a with
      | Some d => parseDigits s' (Some (16 * default 0%Z acc + d)%Z)
      | None => acc
      end
  end.

(** [parseInt(s, 16)]; [NaN] is [None].  White space, a sign and a
    [0x] prefix are skipped. *)
Definition parseInt16 (s : string) : option Z :=
  let s1 := trimStart s in
  let '(sign, s2) :=
    match s1 with
    | String "-"%char r => ((-1)%Z, r)
    | String "+"%char r => (1%Z, r)
    | _ => (1%Z, s1)
    end in
  let s3 :=
    match s2 with
    | String "0"%char (String "x"%char r) => r
    | String "0"%char (String "X"%char r) => r
    | _ => s2
    end in
  option_map (Z.mul sign) (parseDigits s3 None).

(** [parseInt(v.c.replace('#', ''), 16)], the colour that the import
    reads back. *)
Definition importColor (c : string) : option Z :=
  parseInt16 (removeFirst "#"%char c).

(** ** The next preset (App.tsx, [queueNextRandomModel]) *)

(** [===] and [!==] on strings. *)
Global Instance string_eq_decision : EqDecision string := string_dec.

Definition PRESET_KEYS : list string :=
  ["Eagle"; "Cat"; "Rabbit"; "Twins"]%string.

(** [others[Math.floor(Math.random() * others.length)]] with
    [others = PRESET_KEYS.filter(k => k !== currentBaseModel)]; [random]
    is the value of [Math.random()] and [undefined] is [None]. *)
Definition queueNextRandomModel (random : Q) (currentBaseModel : string)
  : option string :=
  let others := filter (fun k => k <> currentBaseModel) PRESET_KEYS in
  others
    !! Z.to_nat (Qfloor (random * inject_Z (Z.of_nat (length others)))).

(** * Vocabulary of the statements *)

(** ** Normalizer *)

(** [r] is an integer nearest to [q]. *)
Definition nearest (q r : Q) : Prop :=
  (exists n : Z, r = inject_Z n) /\ q - (1 # 2) < r /\ r <= q + (1 # 2).


(** A bound of the box is the coordinate of one of the voxels. *)
Definition attained (f : VoxelData.t -> Q) (l : list VoxelData.t) (q : Q)
  : Prop :=
  exists v : VoxelData.t, v ∈ l /\ q == f v.

(** How a pair of monotone maps on each axis commutes with [expand]. *)
Definition box_image (fx fy fz : Q -> Q) (bx bx' : Box) : Prop :=
  (minX bx' == fx (minX bx) /\ maxX bx' == fx (maxX bx)) /\
  (minY bx' == fy (minY bx) /\ maxY bx' == fy (maxY bx)) /\
  (minZ bx' == fz (minZ bx) /\ maxZ bx' == fz (maxZ bx)).

Definition monotone (f : Q -> Q) : Prop :=
  forall a b, a <= b -> f a <= f b.

(** ** Assignment *)

(** Ascending in [y], read by positions. *)
Definition ascending (l : list VoxelData.t) : Prop :=
  forall (i j : nat) (a b : VoxelData.t),
    (i < j)%nat -> l !! i = Some a -> l !! j = Some b ->
    VoxelData.y a <= VoxelData.y b.

Definition freeCount (ms : list (option RebuildTarget.t)) : nat :=
  length (filter (fun m => m = None) ms).

Definition rubbleCount (ts : list RebuildTarget.t) : nat :=
  length (filter (fun t => RebuildTarget.rubble t = true) ts).

Definition matchedCount (ts : list RebuildTarget.t) : nat :=
  length (filter (fun t => RebuildTarget.rubble t = false) ts).

(** Every colour of the store is one that [THREE.Color] can hold. *)
Definition colorsValid (e : VoxelEngine) : Prop :=
  Forall (fun v => Color.valid (SimulationVoxel.color v)) (voxels e).

(** The state after the targets of rank below [k] were processed. *)
Record matching_inv (sorted : list VoxelData.t) (n k : nat) (st : Matching)
  : Prop := {
  inv_len_voxels : length (m_voxels st) = n;
  inv_len_available : length (available st) = n;
  inv_len_mappings : length (mappings st) = n;
  inv_index : forall (i : nat) (a : Avail),
    available st !! i = Some a -> index a = i;
  inv_free : forall (i : nat) (a : Avail),
    available st !! i = Some a -> taken a = false ->
    mappings st !! i = Some None;
  inv_taken : forall (i : nat) (a : Avail),
    available st !! i = Some a -> taken a = true ->
    exists t : RebuildTarget.t, mappings st !! i = Some (Some t);
  inv_claimed : forall (i : nat) (t : RebuildTarget.t),
    mappings st !! i = Some (Some t) ->
    exists (j : nat) (target : VoxelData.t) (v : SimulationVoxel.t),
      (j < k)%nat /\ sorted !! j = Some target /\
      t = mapping_of (length sorted) j target /\
      m_voxels st !! i = Some v /\
      SimulationVoxel.color v = Color.setHex (VoxelData.color target);
  inv_distinct : forall (i i' : nat) (t t' : RebuildTarget.t),
    mappings st !! i = Some (Some t) ->
    mappings st !! i' = Some (Some t') ->
    RebuildTarget.delay t == RebuildTarget.delay t' -> i = i'
}.

(** What holds besides when colours are in range and the store is at
    least as long as the target list: every rank so far found a voxel. *)
Record matching_full (sorted : list VoxelData.t) (n k : nat) (st : Matching)
  : Prop := {
  full_valid :
    Forall (fun v => Color.valid (SimulationVoxel.color v)) (m_voxels st);
  full_count : (freeCount (mappings st) + k = n)%nat;
  full_ranks : forall (j : nat) (target : VoxelData.t),
    (j < k)%nat -> sorted !! j = Some target ->
    exists i : nat,
      mappings st !! i = Some (Some (mapping_of (length sorted) j target))
}.

(** *** The store that the matching loop of [rebuild] starts from *)

Definition storeBefore (targetModel : list VoxelData.t) (e : VoxelEngine)
  : list SimulationVoxel.t :=
  if (length (voxels e) <? length targetModel)%nat
  then imap newVoxel targetModel
  else voxels e.

Definition matchingOf (targetModel : list VoxelData.t) (e : VoxelEngine)
  : Matching :=
  assignAll (sort_by_y targetModel) (startMatching (storeBefore targetModel e)).

(** Voxel [i] holds the target of rank [k] of the sorted list: its
    target is the record the loop writes at rank [k]. *)
Definition assignedSlot (targetModel : list VoxelData.t)
    (e' : VoxelEngine) (i k : nat) : Prop :=
  exists target : VoxelData.t,
    sort_by_y targetModel !! k = Some target /\
    rebuildTargets e' !! i
    = Some (mapping_of (length (sort_by_y targetModel)) k target).

(** ** Convergence *)

(** Voxel [v] sits on target [t]. *)
Definition onTarget (v : SimulationVoxel.t) (t : RebuildTarget.t) : Prop :=
  SimulationVoxel.x v == RebuildTarget.x t /\
  SimulationVoxel.y v == RebuildTarget.y t /\
  SimulationVoxel.z v == RebuildTarget.z t.

(** ** Further vocabulary *)

(** Entry [j] of the scan is a free voxel at colour distance [d] from the
    target's red channel. *)
Definition candidate (targetR : Q) (avail : list Avail)
    (vs : list SimulationVoxel.t) (j : nat) (d : Q) : Prop :=
  exists (a : Avail) (v : SimulationVoxel.t),
    avail !! j = Some a /\ taken a = false /\ vs !! j = Some v /\
    d = Qabs (Color.r (SimulationVoxel.color v) - targetR).

(** [v'] is [v] with, at most, another colour. *)
Definition recolored (v v' : SimulationVoxel.t) : Prop :=
  v' = SimulationVoxel.with_color (SimulationVoxel.color v') v.

(** [q] to the power [n]. *)
Fixpoint Qpow (q : Q) (n : nat) : Q :=
  match n with
  | O => 1
  | S n' => q * Qpow q n'
  end.

(** The number of ticks as a rational. *)
Definition ofNat (n : nat) : Q := inject_Z (Z.of_nat n).

(** Every value of the random source is in [0,1), as [Math.random]
    promises. *)
Definition unitRandom (random : nat -> Q) : Prop :=
  forall k : nat, 0 <= random k /\ random k < 1.

(** The voxel moved by [(dx, dy, dz)]. *)
Definition translate (dx dy dz : Q) (v : VoxelData.t) : VoxelData.t :=
  {| VoxelData.x := VoxelData.x v + dx;
     VoxelData.y := VoxelData.y v + dy;
     VoxelData.z := VoxelData.z v + dz;
     VoxelData.color := VoxelData.color v |}.

(** The voxel lies on the integer grid. *)
Definition onGrid (v : VoxelData.t) : Prop :=
  (exists n : Z, VoxelData.x v == inject_Z n) /\
  (exists n : Z, VoxelData.y v == inject_Z n) /\
  (exists n : Z, VoxelData.z v == inject_Z n).

(** A colour as a 24-bit RGB integer. *)
Definition rgb24 (color : Z) : Prop := (0 <= color < 16777216)%Z.

(** A default voxel, for total lookups. *)
Global Instance VoxelData_inhabited : Inhabited VoxelData.t :=
  populate (VoxelData.mk 0 0 0 0).

(** The targets and the mesh have one entry per voxel. *)
Definition aligned (e : VoxelEngine) : Prop :=
  length (rebuildTargets e) = length (voxels e) /\
  match instanceMesh e with
  | Some mesh => length mesh = length (voxels e)
  | None => True
  end.

(** Every character is a digit that [toString(16)] writes. *)
Fixpoint lowerHex (s : string) : Prop :=
  match s with
  | EmptyString => True
  | String a s' =>
      (exists d : Z, (0 <= d < 16)%Z /\ a = hexDigit d) /\ lowerHex s'
  end.

(** The call is [finishRebuild], [setProgress(p)] with [p >= 1], or
    [loadInitialModel]. *)
Definition finishes (c : Call) : Prop :=
  match c with
  | CallFinishRebuild _ => True
  | CallLoadInitialModel _ _ => True
  | CallSetProgress _ p => 1 <= p
  | _ => False
  end.

(** Every matched voxel is unlocked and within 0.05 of its target
    height. *)
Definition allClose (now : Z) (e : VoxelEngine) : Prop :=
  forall (i : nat) (v : SimulationVoxel.t) (t : RebuildTarget.t),
    voxels e !! i = Some v -> rebuildTargets e !! i = Some t ->
    RebuildTarget.rubble t = false ->
    isUnlocked now e t = true /\
    Qabs (RebuildTarget.y t - SimulationVoxel.y v) <= 5 # 100.

(** The exact tick: a tenth of the speed off, not below zero. *)
Definition exactTick (speedMultiplier prev : Q) : Q :=
  Qmax 0 (prev - speedMultiplier * (1 # 10)).

(** ** Inputs of the worked examples *)

(** A floor height for the examples. *)
Definition floorY : Q := -12.

Definition red : Z := 0xff0000.
Definition green : Z := 0x00ff00.
Definition blue : Z := 0x0000ff.

Definition voxelAt (x y z : Q) (color : Z) : VoxelData.t :=
  VoxelData.mk x y z color.

(** One red voxel at the origin, loaded. *)
Definition single : VoxelEngine :=
  loadInitialModel floorY 0 [voxelAt 0 0 0 red] initial.

(** A red and a blue voxel, loaded. *)
Definition pair : VoxelEngine :=
  loadInitialModel floorY 0 [voxelAt 0 0 0 red; voxelAt 1 1 0 blue] initial.

(** The pair, rebuilding towards two other places, under external control. *)
Definition swapped : list VoxelData.t :=
  [voxelAt 0 2 0 blue; voxelAt 0 0 0 red].

Definition pairRebuilding : VoxelEngine := rebuild floorY 5 swapped true pair.

(** Three voxels rebuilt into one: two of them become rubble. *)
Definition triple : VoxelEngine :=
  loadInitialModel floorY 0
    [voxelAt 0 0 0 red; voxelAt 1 0 0 blue; voxelAt 2 0 0 green] initial.

Definition shrunk : VoxelEngine :=
  rebuild floorY 5 [voxelAt 0 0 0 blue] true triple.

(** The single voxel in an autonomous rebuild towards the place where it
    already is. *)
Definition settled : VoxelEngine :=
  rebuild floorY 0 [voxelAt 0 0 0 red] false single.

(** A random source that always answers 1/2. *)
Definition evenRandom : nat -> Q := fun _ => 1 # 2.

(** A direction that is always the x axis. *)
Definition alongX : Q * Q * Q -> Q * Q * Q := fun _ => (1, 0, 0).

(** The pair, dismantled. *)
Definition pairDismantled : VoxelEngine := dismantle alongX evenRandom pair.

(** The first voxel of the pair, before and after the kick. *)
Definition firstLoaded : SimulationVoxel.t := newVoxel 0 (voxelAt 0 0 0 red).

Definition firstKicked : SimulationVoxel.t :=
  kick alongX evenRandom (centerOf (voxels pair)) 0 firstLoaded.

(** The rebuilding pair at half of the session. *)
Definition pairHalfway : VoxelEngine :=
  setProgress floorY 7 (1 # 2) pairRebuilding.

(** A pair whose blue voxel lies far below the floor, rebuilding. *)
Definition sunken : VoxelEngine :=
  rebuild floorY 5 swapped true
    (loadInitialModel floorY 0
       [voxelAt 0 0 0 red; voxelAt 1 (-20) 0 blue] initial).

(** A store whose only voxel has a red channel out of range. *)
Definition glowing : list SimulationVoxel.t :=
  [SimulationVoxel.with_color (Color.mk 10000 0 0) firstLoaded].

(** * Properties *)

(** ** Rounding and the bounding box *)

Lemma Math_round_bounds (q : Q) :
  q - (1 # 2) < Math_round q /\ Math_round q <= q + (1 # 2).
Proof.
  unfold Math_round. split.
  - pose proof (Qlt_floor (q + (1 # 2))) as H.
    rewrite inject_Z_plus in H. change (inject_Z 1) with 1 in H. lra.
  - apply Qfloor_le.
Qed.

Lemma Math_round_mono (a b : Q) : a <= b -> Math_round a <= Math_round b.
Proof.
  intros H. unfold Math_round. rewrite <- Zle_Qle.
  apply Qfloor_resp_le. lra.
Qed.

Lemma Math_round_Qeq (a b : Q) : a == b -> Math_round a == Math_round b.
Proof.
  intros H. apply Qle_antisym; apply Math_round_mono; lra.
Qed.

Lemma Math_round_0 (q : Q) : q == 0 -> Math_round q == 0.
Proof.
  intros H. rewrite (Math_round_Qeq q 0 H). reflexivity.
Qed.

Lemma Math_round_opposite (h : Q) :
  Math_round (- h) + Math_round h == 0 \/
  Math_round (- h) + Math_round h == 1.
Proof.
  destruct (Math_round_bounds h) as [H1 H2].
  destruct (Math_round_bounds (- h)) as [H3 H4].
  unfold Math_round in *.
  set (n := Qfloor (h + (1 # 2))) in *.
  set (m := Qfloor (- h + (1 # 2))) in *.
  rewrite <- inject_Z_plus.
  assert (Hlo : inject_Z (-1) < inject_Z (m + n)).
  { rewrite inject_Z_plus. change (inject_Z (-1)) with (-1 # 1). lra. }
  assert (Hhi : inject_Z (m + n) <= inject_Z 1).
  { rewrite inject_Z_plus. change (inject_Z 1) with 1. lra. }
  rewrite <- Zlt_Qlt in Hlo. rewrite <- Zle_Qle in Hhi.
  assert (Hc : (m + n = 0 \/ m + n = 1)%Z) by lia.
  destruct Hc as [-> | ->]; [left | right]; reflexivity.
Qed.

Section BoundingBox.
Import VoxelData.

(** The accumulated box only widens. *)
Lemma foldl_expand_widen (l : list VoxelData.t) (bx : Box) :
  let bx' := foldl expand bx l in
  (minX bx' <= minX bx /\ maxX bx <= maxX bx') /\
  (minY bx' <= minY bx /\ maxY bx <= maxY bx') /\
  (minZ bx' <= minZ bx /\ maxZ bx <= maxZ bx').
Proof.
  revert bx. induction l as [|v l IH]; intros bx; simpl.
  - repeat split; apply Qle_refl.
  - specialize (IH (expand bx v)). simpl in IH.
    destruct IH as [[? ?] [[? ?] [? ?]]].
    pose proof (Q.le_min_l (minX bx) (x v)).
    pose proof (Q.le_max_l (maxX bx) (x v)).
    pose proof (Q.le_min_l (minY bx) (y v)).
    pose proof (Q.le_max_l (maxY bx) (y v)).
    pose proof (Q.le_min_l (minZ bx) (z v)).
    pose proof (Q.le_max_l (maxZ bx) (z v)).
    repeat split; lra.
Qed.

(** Every voxel that was folded in lies inside the box. *)
Lemma foldl_expand_inside (l : list VoxelData.t) (bx : Box) (v : VoxelData.t) :
  v ∈ l ->
  let bx' := foldl expand bx l in
  (minX bx' <= x v /\ x v <= maxX bx') /\
  (minY bx' <= y v /\ y v <= maxY bx') /\
  (minZ bx' <= z v /\ z v <= maxZ bx').
Proof.
  revert bx. induction l as [|w l IH]; intros bx Hin; simpl.
  - by apply elem_of_nil in Hin.
  - apply elem_of_cons in Hin. destruct Hin as [-> | Hin].
    + pose proof (foldl_expand_widen l (expand bx w)) as Hw. simpl in Hw.
      destruct Hw as [[? ?] [[? ?] [? ?]]].
      pose proof (Q.le_min_r (minX bx) (x w)).
      pose proof (Q.le_max_r (maxX bx) (x w)).
      pose proof (Q.le_min_r (minY bx) (y w)).
      pose proof (Q.le_max_r (maxY bx) (y w)).
      pose proof (Q.le_min_r (minZ bx) (z w)).
      pose proof (Q.le_max_r (maxZ bx) (z w)).
      repeat split; lra.
    + apply IH. exact Hin.
Qed.

Lemma boundingBox_inside (v0 : VoxelData.t) (rest : list VoxelData.t)
    (v : VoxelData.t) :
  v ∈ v0 :: rest ->
  let bx := boundingBox v0 rest in
  (minX bx <= x v /\ x v <= maxX bx) /\
  (minY bx <= y v /\ y v <= maxY bx) /\
  (minZ bx <= z v /\ z v <= maxZ bx).
Proof.
  intros Hin. apply elem_of_cons in Hin. destruct Hin as [-> | Hin].
  - pose proof (foldl_expand_widen rest (box_of v0)) as Hw. simpl in Hw.
    unfold boundingBox. simpl. exact Hw.
  - by apply foldl_expand_inside.
Qed.

Lemma monotone_Qeq (f : Q -> Q) (a b : Q) :
  monotone f -> a == b -> f a == f b.
Proof. intros Hf H. apply Qle_antisym; apply Hf; lra. Qed.

Lemma Qmin_monotone (f : Q -> Q) (a a' b : Q) :
  monotone f -> a' == f a -> Qmin a' (f b) == f (Qmin a b).
Proof.
  intros Hf Ha. destruct (Qlt_le_dec b a) as [Hlt | Hle].
  - assert (Hba : b <= a) by lra.
    rewrite (monotone_Qeq f _ _ Hf (Q.min_r a b Hba)).
    apply Q.min_r. rewrite Ha. by apply Hf.
  - rewrite (monotone_Qeq f _ _ Hf (Q.min_l a b Hle)).
    rewrite <- Ha. apply Q.min_l. rewrite Ha. by apply Hf.
Qed.

Lemma Qmax_monotone (f : Q -> Q) (a a' b : Q) :
  monotone f -> a' == f a -> Qmax a' (f b) == f (Qmax a b).
Proof.
  intros Hf Ha. destruct (Qlt_le_dec b a) as [Hlt | Hle].
  - assert (Hba : b <= a) by lra.
    rewrite (monotone_Qeq f _ _ Hf (Q.max_l a b Hba)).
    rewrite <- Ha. apply Q.max_l. rewrite Ha. by apply Hf.
  - rewrite (monotone_Qeq f _ _ Hf (Q.max_r a b Hle)).
    apply Q.max_r. rewrite Ha. by apply Hf.
Qed.

Lemma foldl_expand_image (fx fy fz : Q -> Q) (g : VoxelData.t -> VoxelData.t)
    (l : list VoxelData.t) (bx bx' : Box) :
  monotone fx -> monotone fy -> monotone fz ->
  (forall v, x (g v) = fx (x v) /\ y (g v) = fy (y v) /\ z (g v) = fz (z v)) ->
  box_image fx fy fz bx bx' ->
  box_image fx fy fz (foldl expand bx l) (foldl expand bx' (map g l)).
Proof.
  intros Hx Hy Hz Hg. revert bx bx'.
  induction l as [|v l IH]; intros bx bx' Hb; simpl; [exact Hb|].
  apply IH. destruct Hb as [[? ?] [[? ?] [? ?]]].
  destruct (Hg v) as (Ex & Ey & Ez).
  unfold box_image, expand; simpl. rewrite Ex, Ey, Ez.
  repeat split;
    first [ by apply Qmin_monotone | by apply Qmax_monotone ].
Qed.
End BoundingBox.

Lemma attained_cons (f : VoxelData.t -> Q) (l : list VoxelData.t)
    (w : VoxelData.t) (q : Q) :
  attained f l q -> attained f (w :: l) q.
Proof. intros (v & Hv & E). exists v. split; [by apply list_elem_of_further | done]. Qed.

Lemma foldl_expand_attained (l : list VoxelData.t) (bx : Box) (seen : list VoxelData.t) :
  (attained VoxelData.x seen (minX bx) /\ attained VoxelData.x seen (maxX bx)) /\
  (attained VoxelData.y seen (minY bx) /\ attained VoxelData.y seen (maxY bx)) /\
  (attained VoxelData.z seen (minZ bx) /\ attained VoxelData.z seen (maxZ bx)) ->
  let bx' := foldl expand bx l in
  let all := reverse l ++ seen in
  (attained VoxelData.x all (minX bx') /\ attained VoxelData.x all (maxX bx')) /\
  (attained VoxelData.y all (minY bx') /\ attained VoxelData.y all (maxY bx')) /\
  (attained VoxelData.z all (minZ bx') /\ attained VoxelData.z all (maxZ bx')).
Proof.
  revert bx seen. induction l as [|w l IH]; intros bx seen H; [exact H|].
  cbn [foldl]. rewrite reverse_cons, <- app_assoc. cbn [app].
  apply IH. destruct H as [[? ?] [[? ?] [? ?]]].
  assert (Hw : forall f, attained f (w :: seen) (f w)).
  { intros f. exists w. split; [by apply list_elem_of_here | reflexivity]. }
  assert (Hmin : forall f q, attained f seen q ->
    attained f (w :: seen) (Qmin q (f w))).
  { intros f q Hq. destruct (Q.min_spec q (f w)) as [[_ E] | [_ E]].
    - destruct (attained_cons f seen w q Hq) as (v & Hv & E').
      exists v. split; [done|]. by rewrite E.
    - exists w. split; [by apply list_elem_of_here | done]. }
  assert (Hmax : forall f q, attained f seen q ->
    attained f (w :: seen) (Qmax q (f w))).
  { intros f q Hq. destruct (Q.max_spec q (f w)) as [[_ E] | [_ E]].
    - exists w. split; [by apply list_elem_of_here | done].
    - destruct (attained_cons f seen w q Hq) as (v & Hv & E').
      exists v. split; [done|]. by rewrite E. }
  unfold expand; cbn [minX maxX minY maxY minZ maxZ].
  repeat split; auto.
Qed.

Lemma boundingBox_attained (v0 : VoxelData.t) (rest : list VoxelData.t) :
  let bx := boundingBox v0 rest in
  (attained VoxelData.x (v0 :: rest) (minX bx) /\
   attained VoxelData.x (v0 :: rest) (maxX bx)) /\
  (attained VoxelData.y (v0 :: rest) (minY bx) /\
   attained VoxelData.y (v0 :: rest) (maxY bx)) /\
  (attained VoxelData.z (v0 :: rest) (minZ bx) /\
   attained VoxelData.z (v0 :: rest) (maxZ bx)).
Proof.
  assert (H0 : forall f, attained f [v0] (f v0)).
  { intros f. exists v0. split; [by apply list_elem_of_here | reflexivity]. }
  pose proof (foldl_expand_attained rest (box_of v0) [v0]) as H.
  cbv zeta in H.
  assert (Hperm : forall f q,
    attained f (reverse rest ++ [v0]) q -> attained f (v0 :: rest) q).
  { intros f q (v & Hv & E). exists v. split; [|done].
    apply elem_of_app in Hv. destruct Hv as [Hv | Hv].
    - apply list_elem_of_further. by apply elem_of_reverse.
    - apply list_elem_of_singleton in Hv. subst. apply list_elem_of_here. }
  destruct H as [[? ?] [[? ?] [? ?]]].
  { cbn [box_of minX maxX minY maxY minZ maxZ]. repeat split; apply H0. }
  unfold boundingBox. repeat split; by apply Hperm.
Qed.

Lemma Math_round_nearest (q : Q) : nearest q (Math_round q).
Proof.
  split; [by exists (Qfloor (q + (1 # 2)))|]. apply Math_round_bounds.
Qed.

Lemma monotone_round_shift (o : Q) : monotone (fun q => Math_round (q + o)).
Proof. intros a b H. apply Math_round_mono. lra. Qed.

Lemma nearest_Qeq (q q' r : Q) : q == q' -> nearest q r -> nearest q' r.
Proof. intros H (Hn & H1 & H2). split; [exact Hn|]. lra. Qed.


Lemma half_sum_opposite (lo hi : Q) :
  lo + - (lo + hi) / 2 == - ((hi - lo) / 2) /\
  hi + - (lo + hi) / 2 == (hi - lo) / 2.
Proof. unfold Qdiv; change (/ 2) with (1 # 2); split; lra. Qed.


(** ** Boolean comparisons *)

Lemma Qltb_true (a b : Q) : Qltb a b = true <-> a < b.
Proof.
  unfold Qltb. rewrite negb_true_iff. split.
  - intros H. apply Qnot_le_lt. intros Hle.
    apply Qle_bool_iff in Hle. congruence.
  - intros H. destruct (Qle_bool b a) eqn:E; [|reflexivity].
    apply Qle_bool_iff in E. lra.
Qed.

Lemma Qltb_false (a b : Q) : Qltb a b = false <-> b <= a.
Proof.
  unfold Qltb. rewrite negb_false_iff. apply Qle_bool_iff.
Qed.

Lemma Qgeb_true (a b : Q) : Qgeb a b = true <-> b <= a.
Proof. apply Qle_bool_iff. Qed.

Lemma Qgeb_false (a b : Q) : Qgeb a b = false <-> a < b.
Proof.
  unfold Qgeb. split.
  - intros H. apply Qnot_le_lt. intros Hle.
    apply Qle_bool_iff in Hle. congruence.
  - intros H. destruct (Qle_bool b a) eqn:E; [|reflexivity].
    apply Qle_bool_iff in E. lra.
Qed.

(** ** Delays *)

Lemma ratio_lt (a b n : nat) : (a < b)%nat -> (0 < n)%nat -> ratio a n < ratio b n.
Proof.
  intros Hab Hn. unfold ratio, Qdiv.
  apply Qmult_lt_compat_r.
  - apply Qinv_lt_0_compat. change 0 with (inject_Z 0). rewrite <- Zlt_Qlt. lia.
  - rewrite <- Zlt_Qlt. lia.
Qed.

Lemma ratio_nonneg (a n : nat) : 0 <= ratio a n.
Proof.
  unfold ratio, Qdiv. apply Qmult_le_0_compat.
  - change 0 with (inject_Z 0). rewrite <- Zle_Qle. lia.
  - apply Qinv_le_0_compat. change 0 with (inject_Z 0). rewrite <- Zle_Qle. lia.
Qed.

Lemma ratio_lt_1 (a n : nat) : (a < n)%nat -> ratio a n < 1.
Proof.
  intros H. assert (Hn : (0 < n)%nat) by lia.
  pose proof (ratio_lt a n n H Hn) as Hlt.
  assert (E : ratio n n == 1).
  { unfold ratio. apply Qmult_inv_r. intros E0.
    change 0 with (inject_Z 0) in E0. rewrite inject_Z_injective in E0. lia. }
  lra.
Qed.

Lemma ratio_inj (a b n : nat) :
  (0 < n)%nat -> ratio a n == ratio b n -> a = b.
Proof.
  intros Hn E. destruct (lt_eq_lt_dec a b) as [[H | H] | H]; [|exact H|].
  - pose proof (ratio_lt a b n H Hn). lra.
  - pose proof (ratio_lt b a n H Hn). lra.
Qed.

(** ** Colours *)

Lemma channel_range (hex shift : Z) :
  0 <= Color.channel hex shift /\ Color.channel hex shift <= 1.
Proof.
  unfold Color.channel.
  assert (H : (0 <= Z.land (Z.shiftr hex shift) (Z.ones 8) < 2 ^ 8)%Z).
  { rewrite Z.land_ones by lia. apply Z.mod_pos_bound. lia. }
  change (Z.ones 8) with 255%Z in H. change (2 ^ 8)%Z with 256%Z in H.
  set (c := Z.land (Z.shiftr hex shift) 255) in *.
  unfold Qdiv. change (/ 255) with (1 # 255).
  assert (0 <= inject_Z c) by (change 0 with (inject_Z 0); rewrite <- Zle_Qle; lia).
  assert (inject_Z c <= 255)
    by (change 255 with (inject_Z 255); rewrite <- Zle_Qle; lia).
  split; lra.
Qed.

Lemma setHex_valid (hex : Z) : Color.valid (Color.setHex hex).
Proof. apply channel_range. Qed.

Lemma distance_small (c : Color.t) (targetR : Q) :
  Color.valid c -> 0 <= targetR <= 1 ->
  Qltb (Qabs (Color.r c - targetR)) 9999 = true.
Proof.
  intros [H1 H2] [H3 H4].
  apply Qltb_true. apply Qle_lt_trans with 1; [|reflexivity].
  apply Qabs_Qle_condition. split; lra.
Qed.

(** ** The inner scan *)

(** A scan that already holds a candidate returns one. *)
Lemma findBest_keeps (targetR : Q) (avail : list Avail)
    (vs : list SimulationVoxel.t) (i : nat) (bestDist : Q) (b : nat) :
  is_Some (findBest targetR avail vs i bestDist (Some b)).
Proof.
  revert vs i bestDist b.
  induction avail as [|a avail IH]; intros vs i bestDist b; simpl; [by eexists|].
  destruct vs as [|v vs]; [by eexists|].
  destruct (taken a); [apply IH|].
  destruct (Qltb _ bestDist); [|apply IH].
  destruct (Qltb _ (1 # 100)); [by eexists | apply IH].
Qed.

(** The scan only ever answers with its initial candidate or with the
    position of an entry that is not taken. *)
Lemma findBest_free (targetR : Q) (avail : list Avail)
    (vs : list SimulationVoxel.t) (i : nat) (bestDist : Q)
    (bestIdx : option nat) (b : nat) :
  findBest targetR avail vs i bestDist bestIdx = Some b ->
  bestIdx = Some b \/
  exists (j : nat) (a : Avail),
    b = (i + j)%nat /\ avail !! j = Some a /\ taken a = false.
Proof.
  revert vs i bestDist bestIdx.
  induction avail as [|a avail IH]; intros vs i bestDist bestIdx; simpl;
    [by left|].
  destruct vs as [|v vs]; [by left|].
  assert (Hshift : forall bd bi,
    findBest targetR avail vs (S i) bd bi = Some b ->
    bi = Some b \/
    exists (j : nat) (a' : Avail),
      b = (i + j)%nat /\ (a :: avail) !! j = Some a' /\ taken a' = false).
  { intros bd bi H. destruct (IH _ _ _ _ H) as [? | (j & a' & -> & Hj & Ht)];
      [by left|].
    right. exists (S j), a'. split; [lia|]. by split. }
  destruct (taken a) eqn:Ht; [apply Hshift|].
  destruct (Qltb _ bestDist); [|apply Hshift].
  assert (Hhere : exists (j : nat) (a' : Avail),
    i = (i + j)%nat /\ (a :: avail) !! j = Some a' /\ taken a' = false).
  { exists 0%nat, a. split; [lia|]. by split. }
  destruct (Qltb _ (1 # 100)).
  - intros [= <-]. by right.
  - intros H. destruct (Hshift _ _ H) as [[= <-] | ?]; by right.
Qed.

Lemma findBest_from_scratch (targetR : Q) (avail : list Avail)
    (vs : list SimulationVoxel.t) (b : nat) :
  findBest targetR avail vs 0 9999 None = Some b ->
  exists a : Avail, avail !! b = Some a /\ taken a = false.
Proof.
  intros H. destruct (findBest_free _ _ _ _ _ _ _ H) as [? | (j & a & -> & ? & ?)];
    [done|]. by exists a.
Qed.

(** With colours in range, the scan finds a voxel as soon as one is free. *)
Lemma findBest_finds (targetR : Q) (avail : list Avail)
    (vs : list SimulationVoxel.t) (i : nat) :
  0 <= targetR <= 1 ->
  length avail = length vs ->
  Forall (fun v => Color.valid (SimulationVoxel.color v)) vs ->
  (exists (j : nat) (a : Avail), avail !! j = Some a /\ taken a = false) ->
  is_Some (findBest targetR avail vs i 9999 None).
Proof.
  intros Hr. revert vs i.
  induction avail as [|a avail IH]; intros vs i Hlen Hval Hfree.
  - destruct Hfree as (j & a & Hj & _). by rewrite lookup_nil in Hj.
  - destruct vs as [|v vs]; [done|]. cbn [findBest].
    apply Forall_cons in Hval. destruct Hval as [Hv Hval].
    destruct (taken a) eqn:Ht.
    + apply IH; [by injection Hlen | done |].
      destruct Hfree as ([|j] & a' & Hj & Ha').
      * simpl in Hj. injection Hj as <-. congruence.
      * by exists j, a'.
    + rewrite distance_small by done.
      destruct (Qltb _ (1 # 100)); [by eexists | apply findBest_keeps].
Qed.

(** ** Sorting *)

Lemma insert_by_y_Permutation (a : VoxelData.t) (l : list VoxelData.t) :
  insert_by_y a l ≡ₚ a :: l.
Proof.
  induction l as [|b l IH]; simpl; [done|].
  destruct (Qle_bool _ _); [done|].
  rewrite IH. apply Permutation_swap.
Qed.

Lemma sort_by_y_Permutation (l : list VoxelData.t) : sort_by_y l ≡ₚ l.
Proof.
  induction l as [|a l IH]; simpl; [done|].
  by rewrite insert_by_y_Permutation, IH.
Qed.

Lemma sort_by_y_length (l : list VoxelData.t) :
  length (sort_by_y l) = length l.
Proof. apply Permutation_length, sort_by_y_Permutation. Qed.

Lemma ascending_cons (a : VoxelData.t) (l : list VoxelData.t) :
  ascending (a :: l) <->
  Forall (fun b => VoxelData.y a <= VoxelData.y b) l /\ ascending l.
Proof.
  split.
  - intros H. split.
    + apply Forall_lookup. intros j b Hj.
      apply (H 0%nat (S j)); [lia | done | done].
    + intros i j b c Hij Hi Hj. apply (H (S i) (S j)); [lia | done | done].
  - intros [Hall Hl] i j b c Hij Hi Hj.
    destruct j as [|j]; [lia|]. simpl in Hj.
    destruct i as [|i]; simpl in Hi.
    + injection Hi as <-. by apply (proj1 (Forall_lookup _ _) Hall j).
    + apply (Hl i j); [lia | done | done].
Qed.

Lemma insert_by_y_ascending (a : VoxelData.t) (l : list VoxelData.t) :
  ascending l -> ascending (insert_by_y a l).
Proof.
  induction l as [|b l IH]; intros Hl; simpl.
  - apply ascending_cons. split; [constructor|]. intros i j ? ? ? Hi. by destruct i.
  - apply ascending_cons in Hl. destruct Hl as [Hall Hl].
    destruct (Qle_bool (VoxelData.y a) (VoxelData.y b)) eqn:E.
    + apply Qle_bool_iff in E. apply ascending_cons. split.
      * constructor; [done|].
        eapply Forall_impl; [exact Hall|]. simpl. intros c Hc. lra.
      * by apply ascending_cons.
    + assert (Hba : VoxelData.y b <= VoxelData.y a).
      { destruct (Qlt_le_dec (VoxelData.y b) (VoxelData.y a)) as [?|Hle]; [lra|].
        apply Qle_bool_iff in Hle. congruence. }
      apply ascending_cons. split; [|by apply IH].
      rewrite insert_by_y_Permutation. by constructor.
Qed.

Lemma sort_by_y_ascending (l : list VoxelData.t) : ascending (sort_by_y l).
Proof.
  induction l as [|a l IH]; simpl.
  - intros i j ? ? ? Hi. by destruct i.
  - by apply insert_by_y_ascending.
Qed.

(** ** Counting *)

Lemma freeCount_replicate (n : nat) : freeCount (replicate n None) = n.
Proof.
  unfold freeCount. induction n as [|n IH]; [done|].
  cbn [replicate]. rewrite filter_cons_True by done.
  cbn [length]. by rewrite IH.
Qed.

Lemma freeCount_insert (ms : list (option RebuildTarget.t)) (b : nat)
    (t : RebuildTarget.t) :
  ms !! b = Some None ->
  S (freeCount (<[b := Some t]> ms)) = freeCount ms.
Proof.
  unfold freeCount. revert b.
  induction ms as [|m ms IH]; intros b Hb; [by rewrite lookup_nil in Hb|].
  destruct b as [|b]; cbn [lookup list_lookup] in Hb;
    cbn [insert list_insert].
  - injection Hb as ->. rewrite filter_cons_False by done.
    by rewrite filter_cons_True by done.
  - destruct (decide (m = None)) as [E | E].
    + rewrite !filter_cons_True by done. cbn [length]. by rewrite IH.
    + rewrite !filter_cons_False by done. by apply IH.
Qed.

Lemma freeCount_pos (ms : list (option RebuildTarget.t)) :
  (0 < freeCount ms)%nat -> exists i : nat, ms !! i = Some None.
Proof.
  unfold freeCount. induction ms as [|m ms IH]; [simpl; lia|].
  destruct (decide (m = None)) as [-> | E].
  - intros _. by exists 0%nat.
  - rewrite filter_cons_False by done. intros H.
    destruct (IH H) as [i Hi]. by exists (S i).
Qed.

Lemma matched_plus_rubble (ts : list RebuildTarget.t) :
  (matchedCount ts + rubbleCount ts = length ts)%nat.
Proof.
  unfold matchedCount, rubbleCount. induction ts as [|t ts IH]; [done|].
  destruct (RebuildTarget.rubble t) eqn:E.
  - rewrite filter_cons_False by congruence.
    rewrite filter_cons_True by done. cbn [length]. lia.
  - rewrite filter_cons_True by done.
    rewrite filter_cons_False by congruence. cbn [length]. lia.
Qed.

(** ** The invariant of the matching loop *)

Section MatchingInvariant.
Variable sorted : list VoxelData.t.
Variable n : nat.

Lemma matching_inv_start (vs : list SimulationVoxel.t) :
  length vs = n -> matching_inv sorted n 0 (startMatching vs).
Proof.
  intros Hn. split; simpl.
  - done.
  - by rewrite length_imap.
  - by rewrite length_replicate.
  - intros i a. rewrite list_lookup_imap.
    destruct (vs !! i); simpl; [|done]. by intros [= <-].
  - intros i a Hi _. apply lookup_replicate_2.
    apply lookup_lt_Some in Hi. by rewrite length_imap in Hi.
  - intros i a. rewrite list_lookup_imap.
    destruct (vs !! i); simpl; [|done]. by intros [= <-].
  - intros i t Hi. apply lookup_replicate in Hi. by destruct Hi.
  - intros i i' t t' Hi. apply lookup_replicate in Hi. by destruct Hi.
Qed.

Lemma matching_inv_weaken (k : nat) (st : Matching) :
  matching_inv sorted n k st -> matching_inv sorted n (S k) st.
Proof.
  intros [H1 H2 H3 H4 H5 H6 H7 H8]. split; try done.
  intros i t Hi. destruct (H7 i t Hi) as (j & target & v & ? & ?).
  exists j, target, v. split; [lia | done].
Qed.

Lemma matching_inv_step (k : nat) (st : Matching) (target : VoxelData.t) :
  sorted !! k = Some target ->
  matching_inv sorted n k st ->
  matching_inv sorted n (S k) (assignTarget (length sorted) st k target).
Proof.
  intros Hk Hinv. unfold assignTarget.
  destruct (findBest _ _ _ _ _ _) as [b|] eqn:Hfind;
    [|by apply matching_inv_weaken].
  destruct (findBest_from_scratch _ _ _ _ Hfind) as (a & Ha & Hfree).
  rewrite Ha.
  pose proof (matching_inv_weaken _ _ Hinv) as Hweak.
  destruct Hinv as [H1 H2 H3 H4 H5 H6 H7 H8].
  assert (Hab : index a = b) by by apply H4.
  rewrite Hab.
  assert (Hb : (b < n)%nat) by (rewrite <- H2; by eapply lookup_lt_Some).
  assert (Htotal : (0 < length sorted)%nat)
    by (apply lookup_lt_Some in Hk; lia).
  assert (Hold : forall (i : nat) (t : RebuildTarget.t),
    mappings st !! i = Some (Some t) ->
    ~ RebuildTarget.delay t == ratio k (length sorted)).
  { intros i t Hi E. destruct (H7 i t Hi) as (j & tg & v & Hj & _ & -> & _).
    simpl in E. apply ratio_inj in E; [lia | done]. }
  split; simpl.
  - by rewrite length_alter.
  - by rewrite length_insert.
  - by rewrite length_insert.
  - intros i a'. destruct (decide (b = i)) as [<- | Hne].
    + rewrite list_lookup_insert_eq by lia. by intros [= <-].
    + rewrite list_lookup_insert_ne by done. apply H4.
  - intros i a'. destruct (decide (b = i)) as [<- | Hne].
    + rewrite list_lookup_insert_eq by lia. by intros [= <-].
    + rewrite !list_lookup_insert_ne by done. apply H5.
  - intros i a'. destruct (decide (b = i)) as [<- | Hne].
    + rewrite !list_lookup_insert_eq by lia. by eexists.
    + rewrite !list_lookup_insert_ne by done. apply H6.
  - intros i t. destruct (decide (b = i)) as [<- | Hne].
    + rewrite list_lookup_insert_eq by lia. intros [= <-].
      destruct (lookup_lt_is_Some_2 (m_voxels st) b) as [v Hv]; [lia|].
      exists k, target, (SimulationVoxel.with_color
                           (Color.setHex (VoxelData.color target)) v).
      split; [lia|]. split; [done|]. split; [done|].
      split; [|done]. by rewrite list_lookup_alter_eq, Hv.
    + rewrite list_lookup_insert_ne by done.
      rewrite list_lookup_alter_ne by done.
      apply (inv_claimed _ _ _ _ Hweak).
  - intros i i' t t'.
    destruct (decide (b = i)) as [<- | Hne];
      destruct (decide (b = i')) as [<- | Hne']; [done| | |].
    + rewrite list_lookup_insert_eq by lia.
      rewrite list_lookup_insert_ne by done.
      intros [= <-] Hi' E. simpl in E. symmetry in E.
      by destruct (Hold _ _ Hi' E).
    + rewrite list_lookup_insert_ne by done.
      rewrite list_lookup_insert_eq by lia.
      intros Hi [= <-] E. simpl in E.
      by destruct (Hold _ _ Hi E).
    + rewrite !list_lookup_insert_ne by done. apply H8.
Qed.

Lemma matching_full_start (vs : list SimulationVoxel.t) :
  length vs = n ->
  Forall (fun v => Color.valid (SimulationVoxel.color v)) vs ->
  matching_full sorted n 0 (startMatching vs).
Proof.
  intros Hn Hval. split; simpl.
  - done.
  - rewrite freeCount_replicate. lia.
  - intros j target Hj. lia.
Qed.

Lemma matching_full_step (k : nat) (st : Matching) (target : VoxelData.t) :
  sorted !! k = Some target ->
  (k < n)%nat ->
  matching_inv sorted n k st ->
  matching_full sorted n k st ->
  matching_full sorted n (S k) (assignTarget (length sorted) st k target).
Proof.
  intros Hk Hkn Hinv [Hval Hcount Hranks].
  destruct (freeCount_pos (mappings st)) as [i0 Hi0]; [lia|].
  assert (Hfree : exists (j : nat) (a : Avail),
    available st !! j = Some a /\ taken a = false).
  { destruct (lookup_lt_is_Some_2 (available st) i0) as [a Ha].
    - rewrite (inv_len_available _ _ _ _ Hinv).
      rewrite <- (inv_len_mappings _ _ _ _ Hinv). by eapply lookup_lt_Some.
    - exists i0, a. split; [done|].
      destruct (taken a) eqn:Ht; [|done].
      destruct (inv_taken _ _ _ _ Hinv _ _ Ha Ht) as [t Ht']. congruence. }
  unfold assignTarget.
  destruct (findBest_finds
              (Color.r (Color.setHex (VoxelData.color target)))
              (available st) (m_voxels st) 0) as [b Hfind].
  { apply setHex_valid. }
  { by rewrite (inv_len_available _ _ _ _ Hinv), (inv_len_voxels _ _ _ _ Hinv). }
  { done. }
  { done. }
  rewrite Hfind.
  destruct (findBest_from_scratch _ _ _ _ Hfind) as (a & Ha & Hta).
  rewrite Ha.
  assert (Hab : index a = b) by by eapply inv_index.
  rewrite Hab.
  assert (Hmb : mappings st !! b = Some None) by by eapply inv_free.
  split; simpl.
  - apply Forall_alter; [done|]. intros v _ _. apply setHex_valid.
  - pose proof (freeCount_insert (mappings st) b
                  (mapping_of (length sorted) k target) Hmb). lia.
  - intros j tg Hj Hsj. destruct (decide (j = k)) as [-> | Hne].
    + exists b. rewrite Hk in Hsj. injection Hsj as <-.
      apply list_lookup_insert_eq. by eapply lookup_lt_Some.
    + destruct (Hranks j tg) as [i Hi]; [lia | done |].
      exists i. rewrite list_lookup_insert_ne; [done|].
      intros <-. congruence.
Qed.

(** The loop, from rank [k] on. *)
Lemma forEach_matching_inv (l : list VoxelData.t) (k : nat) (st : Matching) :
  drop k sorted = l ->
  matching_inv sorted n k st ->
  matching_inv sorted n (k + length l)
    (forEach_from (assignTarget (length sorted)) k l st).
Proof.
  revert k st. induction l as [|a l IH]; intros k st Hdrop Hinv; simpl.
  - by rewrite Nat.add_0_r.
  - assert (Hk : sorted !! k = Some a).
    { pose proof (lookup_drop sorted k 0) as H.
      rewrite Hdrop, Nat.add_0_r in H. by symmetry. }
    replace (k + S (length l))%nat with (S k + length l)%nat by lia.
    apply IH.
    + rewrite (drop_S _ _ _ Hk) in Hdrop. by injection Hdrop.
    + by apply matching_inv_step.
Qed.

Lemma forEach_matching_full (l : list VoxelData.t) (k : nat) (st : Matching) :
  drop k sorted = l ->
  (length sorted <= n)%nat ->
  matching_inv sorted n k st ->
  matching_full sorted n k st ->
  matching_full sorted n (k + length l)
    (forEach_from (assignTarget (length sorted)) k l st).
Proof.
  revert k st. induction l as [|a l IH]; intros k st Hdrop Hn Hinv Hfull; simpl.
  - by rewrite Nat.add_0_r.
  - assert (Hk : sorted !! k = Some a).
    { pose proof (lookup_drop sorted k 0) as H.
      rewrite Hdrop, Nat.add_0_r in H. by symmetry. }
    replace (k + S (length l))%nat with (S k + length l)%nat by lia.
    apply IH.
    + rewrite (drop_S _ _ _ Hk) in Hdrop. by injection Hdrop.
    + done.
    + by apply matching_inv_step.
    + apply matching_full_step; [done | | done | done].
      apply lookup_lt_Some in Hk. lia.
Qed.

Lemma assignAll_inv (vs : list SimulationVoxel.t) :
  length vs = n ->
  matching_inv sorted n (length sorted) (assignAll sorted (startMatching vs)).
Proof.
  intros Hn. unfold assignAll.
  apply (forEach_matching_inv sorted 0); [done|].
  by apply matching_inv_start.
Qed.

Lemma assignAll_full (vs : list SimulationVoxel.t) :
  length vs = n ->
  (length sorted <= n)%nat ->
  Forall (fun v => Color.valid (SimulationVoxel.color v)) vs ->
  matching_full sorted n (length sorted) (assignAll sorted (startMatching vs)).
Proof.
  intros Hn Hle Hval. unfold assignAll.
  apply (forEach_matching_full sorted 0); [done | done | |].
  - by apply matching_inv_start.
  - by apply matching_full_start.
Qed.
End MatchingInvariant.

(** ** The engine *)

Section Properties.
Variable FLOOR_Y : Q.

(** *** What [draw] leaves alone *)

Lemma draw_frame (now : Z) (e : VoxelEngine) :
  voxels (draw FLOOR_Y now e) = voxels e /\
  rebuildTargets (draw FLOOR_Y now e) = rebuildTargets e /\
  rebuildStartTime (draw FLOOR_Y now e) = rebuildStartTime e /\
  state (draw FLOOR_Y now e) = state e /\
  isProgressive (draw FLOOR_Y now e) = isProgressive e /\
  manualProgress (draw FLOOR_Y now e) = manualProgress e.
Proof. unfold draw. by destruct (instanceMesh e). Qed.

Lemma storeBefore_length (targetModel : list VoxelData.t) (e : VoxelEngine) :
  length (storeBefore targetModel e)
  = Nat.max (length (voxels e)) (length targetModel).
Proof.
  unfold storeBefore.
  destruct (Nat.ltb_spec (length (voxels e)) (length targetModel)).
  - rewrite length_imap. lia.
  - lia.
Qed.

Lemma storeBefore_valid (targetModel : list VoxelData.t) (e : VoxelEngine) :
  colorsValid e ->
  Forall (fun v => Color.valid (SimulationVoxel.color v))
         (storeBefore targetModel e).
Proof.
  intros Hval. unfold storeBefore.
  destruct (length (voxels e) <? length targetModel)%nat; [|done].
  apply Forall_lookup. intros i v. rewrite list_lookup_imap.
  destruct (targetModel !! i); simpl; [|done].
  intros [= <-]. apply setHex_valid.
Qed.

Lemma rebuild_fields (now : Z) (targetModel : list VoxelData.t)
    (progressive : bool) (e : VoxelEngine) :
  let e' := rebuild FLOOR_Y now targetModel progressive e in
  voxels e' = m_voxels (matchingOf targetModel e) /\
  rebuildTargets e'
  = map (fillRubble FLOOR_Y) (mappings (matchingOf targetModel e)) /\
  state e' = REBUILDING /\
  isProgressive e' = progressive /\
  rebuildStartTime e' = now /\
  manualProgress e' = manualProgress e.
Proof.
  unfold rebuild, matchingOf, storeBefore, createVoxels. simpl.
  by destruct (length (voxels e) <? length targetModel)%nat.
Qed.

(** A target that is not rubble was written by the matching loop. *)
Lemma fillRubble_matched (m : option RebuildTarget.t) (t : RebuildTarget.t) :
  fillRubble FLOOR_Y m = t -> RebuildTarget.rubble t = false -> m = Some t.
Proof. destruct m as [t0|]; simpl; [by intros ->|]. by intros <-. Qed.

Lemma rebuild_target_matched (now : Z) (targetModel : list VoxelData.t)
    (progressive : bool) (e : VoxelEngine) (i : nat) (t : RebuildTarget.t) :
  rebuildTargets (rebuild FLOOR_Y now targetModel progressive e) !! i = Some t ->
  RebuildTarget.rubble t = false ->
  mappings (matchingOf targetModel e) !! i = Some (Some t).
Proof.
  destruct (rebuild_fields now targetModel progressive e) as (_ & -> & _).
  rewrite list_lookup_fmap.
  destruct (mappings (matchingOf targetModel e) !! i) as [m|]; simpl; [|done].
  intros [= H] Hr. by rewrite (fillRubble_matched _ _ H Hr).
Qed.

Lemma rebuild_inv (targetModel : list VoxelData.t) (e : VoxelEngine) :
  matching_inv (sort_by_y targetModel)
    (Nat.max (length (voxels e)) (length targetModel))
    (length (sort_by_y targetModel)) (matchingOf targetModel e).
Proof. apply assignAll_inv, storeBefore_length. Qed.

Lemma rebuild_full (targetModel : list VoxelData.t) (e : VoxelEngine) :
  colorsValid e ->
  matching_full (sort_by_y targetModel)
    (Nat.max (length (voxels e)) (length targetModel))
    (length (sort_by_y targetModel)) (matchingOf targetModel e).
Proof.
  intros Hval. apply assignAll_full.
  - apply storeBefore_length.
  - rewrite sort_by_y_length. lia.
  - by apply storeBefore_valid.
Qed.

(** Rubble entries are exactly the unmatched ones. *)
Lemma rubbleCount_fill (ms : list (option RebuildTarget.t)) :
  (forall (i : nat) (t : RebuildTarget.t),
     ms !! i = Some (Some t) -> RebuildTarget.rubble t = false) ->
  rubbleCount (map (fillRubble FLOOR_Y) ms) = freeCount ms.
Proof.
  unfold rubbleCount, freeCount.
  induction ms as [|m ms IH]; intros Hm; [done|]. cbn [map].
  assert (IH' := IH (fun i t H => Hm (S i) t H)).
  destruct m as [t|].
  - assert (Ht : RebuildTarget.rubble t = false) by apply (Hm 0%nat t eq_refl).
    rewrite filter_cons_False by (simpl; congruence).
    by rewrite filter_cons_False by done.
  - rewrite !filter_cons_True by done. cbn [length]. by rewrite IH'.
Qed.

Lemma matching_inv_not_rubble (sorted : list VoxelData.t) (n k : nat)
    (st : Matching) (i : nat) (t : RebuildTarget.t) :
  matching_inv sorted n k st ->
  mappings st !! i = Some (Some t) -> RebuildTarget.rubble t = false.
Proof.
  intros Hinv Hi.
  by destruct (inv_claimed _ _ _ _ Hinv i t Hi) as (? & ? & ? & _ & _ & -> & _).
Qed.

(** *** Colours stay in range *)

Lemma assignTarget_valid (total : nat) (st : Matching) (k : nat)
    (target : VoxelData.t) :
  Forall (fun v => Color.valid (SimulationVoxel.color v)) (m_voxels st) ->
  Forall (fun v => Color.valid (SimulationVoxel.color v))
         (m_voxels (assignTarget total st k target)).
Proof.
  intros Hval. unfold assignTarget.
  destruct (findBest _ _ _ _ _ _) as [b|]; [|done].
  destruct (available st !! b) as [a|]; [|done]. cbn [m_voxels].
  apply Forall_alter; [done|]. intros v _ _. apply setHex_valid.
Qed.

Lemma forEach_assign_valid (total : nat) (l : list VoxelData.t) (k : nat)
    (st : Matching) :
  Forall (fun v => Color.valid (SimulationVoxel.color v)) (m_voxels st) ->
  Forall (fun v => Color.valid (SimulationVoxel.color v))
         (m_voxels (forEach_from (assignTarget total) k l st)).
Proof.
  revert k st. induction l as [|a l IH]; intros k st Hval; [done|].
  cbn [forEach_from]. by apply IH, assignTarget_valid.
Qed.

Lemma colorsValid_initial : colorsValid initial.
Proof. constructor. Qed.

Lemma newVoxels_valid (data : list VoxelData.t) :
  Forall (fun v => Color.valid (SimulationVoxel.color v)) (imap newVoxel data).
Proof.
  apply Forall_lookup. intros i v. rewrite list_lookup_imap.
  destruct (data !! i); simpl; [|done].
  intros [= <-]. apply setHex_valid.
Qed.

Lemma colorsValid_loadInitialModel (now : Z) (data : list VoxelData.t)
    (e : VoxelEngine) :
  colorsValid (loadInitialModel FLOOR_Y now data e).
Proof. apply newVoxels_valid. Qed.

Lemma colorsValid_rebuild (now : Z) (targetModel : list VoxelData.t)
    (progressive : bool) (e : VoxelEngine) :
  colorsValid e -> colorsValid (rebuild FLOOR_Y now targetModel progressive e).
Proof.
  intros Hval. unfold colorsValid.
  destruct (rebuild_fields now targetModel progressive e) as (-> & _).
  apply forEach_assign_valid. by apply storeBefore_valid.
Qed.

Lemma colorsValid_imap (f : nat -> SimulationVoxel.t -> SimulationVoxel.t)
    (vs : list SimulationVoxel.t) :
  (forall i v, SimulationVoxel.color (f i v) = SimulationVoxel.color v) ->
  Forall (fun v => Color.valid (SimulationVoxel.color v)) vs ->
  Forall (fun v => Color.valid (SimulationVoxel.color v)) (imap f vs).
Proof.
  intros Hf Hval. apply Forall_lookup. intros i v'.
  rewrite list_lookup_imap.
  destruct (vs !! i) as [v|] eqn:Hv; simpl; [|done].
  intros [= <-]. rewrite Hf.
  by apply (proj1 (Forall_lookup _ _) Hval i v).
Qed.

Lemma snapVoxel_color (targets : list RebuildTarget.t) (i : nat)
    (v : SimulationVoxel.t) :
  SimulationVoxel.color (snapVoxel FLOOR_Y targets i v)
  = SimulationVoxel.color v.
Proof.
  unfold snapVoxel. destruct (targets !! i) as [t|]; [|done].
  by destruct (RebuildTarget.rubble t).
Qed.

Lemma rebuildStep_color (now : Z) (e : VoxelEngine) (i : nat)
    (v : SimulationVoxel.t) :
  SimulationVoxel.color (rebuildStep FLOOR_Y now e i v)
  = SimulationVoxel.color v.
Proof.
  unfold rebuildStep. destruct (rebuildTargets e !! i) as [t|]; [|done].
  destruct (RebuildTarget.rubble t); [done|].
  destruct (isUnlocked now e t); [done|].
  by destruct (Qltb _ _).
Qed.

Lemma colorsValid_finishRebuild (now : Z) (e : VoxelEngine) :
  colorsValid e -> colorsValid (finishRebuild FLOOR_Y now e).
Proof.
  intros Hval. unfold colorsValid, finishRebuild.
  match goal with
  | |- context [draw FLOOR_Y now ?e3] =>
      destruct (draw_frame now e3) as (-> & _)
  end.
  cbn. apply colorsValid_imap; [|done]. intros i v. apply snapVoxel_color.
Qed.

Lemma colorsValid_setProgress (now : Z) (p : Q) (e : VoxelEngine) :
  colorsValid e -> colorsValid (setProgress FLOOR_Y now p e).
Proof.
  intros Hval. unfold setProgress.
  destruct (_ && _); [|done]. by apply colorsValid_finishRebuild.
Qed.

Lemma colorsValid_animate (now : Z) (e : VoxelEngine) :
  colorsValid e -> colorsValid (animate FLOOR_Y now e).
Proof.
  intros Hval. unfold colorsValid, animate.
  match goal with
  | |- context [draw FLOOR_Y now ?e1] =>
      destruct (draw_frame now e1) as (-> & _)
  end.
  destruct (state e); [done | |].
  - cbn. apply Forall_fmap. eapply Forall_impl; [exact Hval|]. by intros v.
  - cbn. apply colorsValid_imap; [|done]. intros i v. apply rebuildStep_color.
Qed.

(** *** The assignment computed by [rebuild] *)

Lemma length_rebuildTargets (now : Z) (targetModel : list VoxelData.t)
    (progressive : bool) (e : VoxelEngine) :
  length (rebuildTargets (rebuild FLOOR_Y now targetModel progressive e))
  = Nat.max (length (voxels e)) (length targetModel).
Proof.
  destruct (rebuild_fields now targetModel progressive e) as (_ & -> & _).
  rewrite length_map. apply (inv_len_mappings _ _ _ _ (rebuild_inv _ e)).
Qed.

Lemma length_rebuild_voxels (now : Z) (targetModel : list VoxelData.t)
    (progressive : bool) (e : VoxelEngine) :
  length (voxels (rebuild FLOOR_Y now targetModel progressive e))
  = Nat.max (length (voxels e)) (length targetModel).
Proof.
  destruct (rebuild_fields now targetModel progressive e) as (-> & _).
  apply (inv_len_voxels _ _ _ _ (rebuild_inv _ e)).
Qed.

Lemma rebuild_rubbleCount (now : Z) (targetModel : list VoxelData.t)
    (progressive : bool) (e : VoxelEngine) :
  colorsValid e ->
  rubbleCount (rebuildTargets (rebuild FLOOR_Y now targetModel progressive e))
  = (length (voxels e) - length targetModel)%nat.
Proof.
  intros Hval.
  destruct (rebuild_fields now targetModel progressive e) as (_ & -> & _).
  rewrite rubbleCount_fill.
  - pose proof (full_count _ _ _ _ (rebuild_full targetModel e Hval)) as H.
    rewrite sort_by_y_length in H. lia.
  - intros i t. apply (matching_inv_not_rubble _ _ _ _ _ _ (rebuild_inv _ e)).
Qed.

Lemma assignedSlot_matched (now : Z) (targetModel : list VoxelData.t)
    (progressive : bool) (e : VoxelEngine) (i k : nat) :
  assignedSlot targetModel
    (rebuild FLOOR_Y now targetModel progressive e) i k ->
  exists target : VoxelData.t,
    sort_by_y targetModel !! k = Some target /\
    mappings (matchingOf targetModel e) !! i
    = Some (Some (mapping_of (length (sort_by_y targetModel)) k target)).
Proof.
  intros (target & Hk & Hi). exists target. split; [done|].
  by apply (rebuild_target_matched now targetModel progressive e).
Qed.

(** C1: for a store and a target list of the same length N, [rebuild]
    matches N voxels, leaves no rubble, and gives every rank 0..N-1 to
    exactly one voxel; whatever the lengths, every matched voxel holds a
    rank and no two voxels hold the same rank. *)
Theorem rebuild_assignment_one_to_one (now : Z)
    (targetModel : list VoxelData.t) (progressive : bool)
    (e : VoxelEngine) :
  let e' := rebuild FLOOR_Y now targetModel progressive e in
  (forall (i : nat) (t : RebuildTarget.t),
     rebuildTargets e' !! i = Some t -> RebuildTarget.rubble t = false ->
     exists k : nat, assignedSlot targetModel e' i k) /\
  (forall i i' k : nat,
     assignedSlot targetModel e' i k -> assignedSlot targetModel e' i' k ->
     i = i') /\
  (colorsValid e ->
   length (voxels e) = length targetModel ->
   matchedCount (rebuildTargets e') = length targetModel /\
   rubbleCount (rebuildTargets e') = 0%nat /\
   forall k : nat, (k < length targetModel)%nat ->
     exists i : nat,
       assignedSlot targetModel e' i k /\
       forall i' : nat, assignedSlot targetModel e' i' k -> i' = i).
Proof.
  intros e'.
  pose proof (rebuild_inv targetModel e) as Hinv.
  assert (Hinj : forall i i' k : nat,
    assignedSlot targetModel e' i k -> assignedSlot targetModel e' i' k ->
    i = i').
  { intros i i' k Hi Hi'.
    apply assignedSlot_matched in Hi. destruct Hi as (tg & _ & Hi).
    apply assignedSlot_matched in Hi'. destruct Hi' as (tg' & _ & Hi').
    by apply (inv_distinct _ _ _ _ Hinv i i' _ _ Hi Hi'). }
  split; [|split; [exact Hinj|]].
  - intros i t Hi Hr.
    pose proof (rebuild_target_matched _ _ _ _ _ _ Hi Hr) as Hm.
    destruct (inv_claimed _ _ _ _ Hinv i t Hm)
      as (k & target & v & _ & Hk & -> & _).
    exists k, target. by split.
  - intros Hval Hlen.
    pose proof (rebuild_rubbleCount now targetModel progressive e Hval) as Hrub.
    fold e' in Hrub.
    pose proof (matched_plus_rubble (rebuildTargets e')) as Hsum.
    unfold e' in Hsum at 3. rewrite length_rebuildTargets in Hsum.
    split; [lia|]. split; [lia|].
    intros k Hk.
    destruct (lookup_lt_is_Some_2 (sort_by_y targetModel) k) as [target Htg];
      [by rewrite sort_by_y_length|].
    destruct (full_ranks _ _ _ _ (rebuild_full targetModel e Hval)
                k target) as [i Hi]; [by rewrite sort_by_y_length | done |].
    assert (Hslot : assignedSlot targetModel e' i k).
    { exists target. split; [done|]. unfold e'.
      destruct (rebuild_fields now targetModel progressive e) as (_ & -> & _).
      by rewrite list_lookup_fmap, Hi. }
    exists i. split; [done|]. intros i' Hi'. by apply (Hinj i' i k).
Qed.

(** C7: [rebuild] grows the store to the length of a longer target list
    and never shrinks it; with a shorter target list the store keeps its
    length and the voxels in excess are rubble. *)
Theorem rebuild_store_size (now : Z) (targetModel : list VoxelData.t)
    (progressive : bool) (e : VoxelEngine) :
  let e' := rebuild FLOOR_Y now targetModel progressive e in
  (forall k : nat,
     length targetModel = (length (voxels e) + k)%nat ->
     length (voxels e') = (length (voxels e) + k)%nat /\
     length (voxels e') = length targetModel) /\
  (length (voxels e) <= length (voxels e'))%nat /\
  length (rebuildTargets e') = length (voxels e') /\
  ((length targetModel <= length (voxels e))%nat ->
   length (voxels e') = length (voxels e) /\
   (colorsValid e ->
    rubbleCount (rebuildTargets e')
    = (length (voxels e) - length targetModel)%nat)).
Proof.
  intros e'. unfold e'.
  rewrite length_rebuildTargets, length_rebuild_voxels.
  split; [intros k Hk; lia|]. split; [lia|]. split; [done|].
  intros Hle. split; [lia|]. apply rebuild_rubbleCount.
Qed.

(** C9: among the matched targets that [rebuild] produces, a lower [y]
    never comes with a later unlock delay. *)
Theorem rebuild_delay_monotone (now : Z) (targetModel : list VoxelData.t)
    (progressive : bool) (e : VoxelEngine) (i i' : nat)
    (ta tb : RebuildTarget.t) :
  rebuildTargets (rebuild FLOOR_Y now targetModel progressive e) !! i
  = Some ta ->
  rebuildTargets (rebuild FLOOR_Y now targetModel progressive e) !! i'
  = Some tb ->
  RebuildTarget.rubble ta = false ->
  RebuildTarget.rubble tb = false ->
  RebuildTarget.y ta < RebuildTarget.y tb ->
  RebuildTarget.delay ta <= RebuildTarget.delay tb.
Proof.
  intros Ha Hb Hra Hrb Hy.
  pose proof (rebuild_inv targetModel e) as Hinv.
  apply rebuild_target_matched in Ha; [|done].
  apply rebuild_target_matched in Hb; [|done].
  destruct (inv_claimed _ _ _ _ Hinv _ _ Ha)
    as (j & tga & _ & Hj & Hsa & -> & _).
  destruct (inv_claimed _ _ _ _ Hinv _ _ Hb)
    as (j' & tgb & _ & Hj' & Hsb & -> & _).
  simpl in *.
  destruct (lt_eq_lt_dec j j') as [[Hlt | ->] | Hgt].
  - apply Qlt_le_weak, ratio_lt; lia.
  - rewrite Hsa in Hsb. injection Hsb as ->. lra.
  - pose proof (sort_by_y_ascending targetModel j' j tgb tga Hgt Hsb Hsa).
    lra.
Qed.

(** C10: when [rebuild] returns, every voxel matched to a target already
    carries that target's colour. *)
Theorem rebuild_snaps_colors (now : Z) (targetModel : list VoxelData.t)
    (progressive : bool) (e : VoxelEngine) (i : nat) (t : RebuildTarget.t) :
  rebuildTargets (rebuild FLOOR_Y now targetModel progressive e) !! i
  = Some t ->
  RebuildTarget.rubble t = false ->
  exists (k : nat) (target : VoxelData.t) (v : SimulationVoxel.t),
    sort_by_y targetModel !! k = Some target /\
    t = mapping_of (length (sort_by_y targetModel)) k target /\
    voxels (rebuild FLOOR_Y now targetModel progressive e) !! i = Some v /\
    SimulationVoxel.color v = Color.setHex (VoxelData.color target).
Proof.
  intros Hi Hr.
  pose proof (rebuild_target_matched _ _ _ _ _ _ Hi Hr) as Hm.
  destruct (inv_claimed _ _ _ _ (rebuild_inv targetModel e) i t Hm)
    as (k & target & v & _ & Hk & Ht & Hv & Hc).
  exists k, target, v.
  destruct (rebuild_fields now targetModel progressive e) as (-> & _).
  by repeat split.
Qed.

Lemma loadInitialModel_targets (now : Z) (data : list VoxelData.t)
    (e : VoxelEngine) :
  rebuildTargets (loadInitialModel FLOOR_Y now data e)
  = map initialTarget data.
Proof. reflexivity. Qed.

(** C2, amended: after [rebuild] a matched target has its delay in
    [0,1) and a rubble target has delay 2, which no progress value of
    [0,1] reaches; after [loadInitialModel] every delay is 0 and no
    target is rubble. *)
Theorem target_delays (now : Z) (data : list VoxelData.t)
    (progressive : bool) (e : VoxelEngine) (i : nat) (t : RebuildTarget.t) :
  (rebuildTargets (rebuild FLOOR_Y now data progressive e) !! i = Some t ->
   (RebuildTarget.rubble t = false ->
    0 <= RebuildTarget.delay t /\ RebuildTarget.delay t < 1) /\
   (RebuildTarget.rubble t = true ->
    RebuildTarget.delay t == 2 /\
    forall p : Q, 0 <= p -> p <= 1 ->
      Qgeb p (RebuildTarget.delay t) = false)) /\
  (rebuildTargets (loadInitialModel FLOOR_Y now data e) !! i = Some t ->
   RebuildTarget.delay t == 0 /\ RebuildTarget.rubble t = false).
Proof.
  split.
  - intros Hi. split.
    + intros Hr.
      pose proof (rebuild_target_matched _ _ _ _ _ _ Hi Hr) as Hm.
      destruct (inv_claimed _ _ _ _ (rebuild_inv data e) i t Hm)
        as (k & target & _ & Hk & Hs & -> & _).
      simpl. split; [apply ratio_nonneg | by apply ratio_lt_1].
    + intros Hr.
      destruct (rebuild_fields now data progressive e)
        as (_ & Ht & _).
      rewrite Ht, list_lookup_fmap in Hi.
      destruct (mappings (matchingOf data e) !! i) as [[t0|]|] eqn:Hm;
        simpl in Hi; [| |done].
      * injection Hi as <-.
        pose proof (matching_inv_not_rubble _ _ _ _ _ _ (rebuild_inv data e) Hm).
        congruence.
      * injection Hi as <-. simpl. split; [reflexivity|].
        intros p _ Hp. apply Qgeb_false. lra.
  - rewrite loadInitialModel_targets, list_lookup_fmap.
    destruct (data !! i); simpl; [|done].
    intros [= <-]. by split.
Qed.

(** *** Ticks *)

Lemma animate_state (now : Z) (e : VoxelEngine) :
  state (animate FLOOR_Y now e) = state e.
Proof.
  unfold animate.
  match goal with
  | |- state (draw _ _ ?e1) = _ =>
      destruct (draw_frame now e1) as (_ & _ & _ & -> & _)
  end.
  by destruct (state e) eqn:E.
Qed.

(** C4, amended: outside REBUILDING, [setProgress p] records [p] in
    [manualProgress] and changes nothing else. *)
Theorem setProgress_outside_rebuilding (now : Z) (p : Q) (e : VoxelEngine) :
  state e = STABLE \/ state e = DISMANTLING ->
  let e' := setProgress FLOOR_Y now p e in
  e' = set_manualProgress p e /\
  manualProgress e' = p /\
  voxels e' = voxels e /\
  rebuildTargets e' = rebuildTargets e /\
  state e' = state e /\
  isProgressive e' = isProgressive e /\
  rebuildStartTime e' = rebuildStartTime e /\
  instanceMesh e' = instanceMesh e /\
  events e' = events e.
Proof.
  intros Hs e'.
  assert (E : e' = set_manualProgress p e).
  { unfold e', setProgress. simpl.
    rewrite bool_decide_eq_false_2; [by rewrite andb_false_r|].
    destruct Hs as [-> | ->]; done. }
  by rewrite E.
Qed.

Lemma finishRebuild_state (now : Z) (e : VoxelEngine) :
  state (finishRebuild FLOOR_Y now e) = STABLE.
Proof.
  unfold finishRebuild.
  match goal with
  | |- context [draw FLOOR_Y now ?e3] =>
      by destruct (draw_frame now e3) as (_ & _ & _ & -> & _)
  end.
Qed.

(** C5: [finishRebuild] ends in STABLE with every voxel whose target is
    not rubble exactly on that target, its rotation and velocity zero. *)
Theorem finishRebuild_snaps (now : Z) (e : VoxelEngine) :
  let e' := finishRebuild FLOOR_Y now e in
  state e' = STABLE /\
  forall (i : nat) (v : SimulationVoxel.t) (t : RebuildTarget.t),
    voxels e !! i = Some v ->
    rebuildTargets e !! i = Some t ->
    RebuildTarget.rubble t = false ->
    exists v' : SimulationVoxel.t,
      voxels e' !! i = Some v' /\
      (SimulationVoxel.x v' = RebuildTarget.x t /\
       SimulationVoxel.y v' = RebuildTarget.y t /\
       SimulationVoxel.z v' = RebuildTarget.z t) /\
      (SimulationVoxel.rx v' = 0 /\ SimulationVoxel.ry v' = 0 /\
       SimulationVoxel.rz v' = 0) /\
      (SimulationVoxel.vx v' = 0 /\ SimulationVoxel.vy v' = 0 /\
       SimulationVoxel.vz v' = 0).
Proof.
  intros e'. unfold e', finishRebuild.
  match goal with
  | |- context [draw FLOOR_Y now ?e3] =>
      destruct (draw_frame now e3) as (-> & _ & _ & -> & _)
  end.
  split; [done|]. intros i v t Hv Ht Hr. simpl.
  rewrite list_lookup_imap, Hv. simpl.
  unfold snapVoxel. rewrite Ht, Hr.
  eexists. split; [reflexivity|]. by repeat split.
Qed.

(** C6: in REBUILDING, [setProgress p] with [p >= 1] leaves the engine
    in the very state that [finishRebuild] leaves it in: STABLE, with
    progress 1, every voxel whose target is not rubble exactly on that
    target with rotation and velocity zero, and every rubble voxel at
    300 below the floor. *)
Theorem setProgress_completes (now : Z) (p : Q) (e : VoxelEngine) :
  1 <= p ->
  state e = REBUILDING ->
  setProgress FLOOR_Y now p e = finishRebuild FLOOR_Y now e /\
  state (setProgress FLOOR_Y now p e) = STABLE /\
  manualProgress (setProgress FLOOR_Y now p e) = 1 /\
  forall (i : nat) (v : SimulationVoxel.t) (t : RebuildTarget.t),
    voxels e !! i = Some v ->
    rebuildTargets e !! i = Some t ->
    exists v' : SimulationVoxel.t,
      voxels (setProgress FLOOR_Y now p e) !! i = Some v' /\
      (RebuildTarget.rubble t = false ->
       (SimulationVoxel.x v' = RebuildTarget.x t /\
        SimulationVoxel.y v' = RebuildTarget.y t /\
        SimulationVoxel.z v' = RebuildTarget.z t) /\
       (SimulationVoxel.rx v' = 0 /\ SimulationVoxel.ry v' = 0 /\
        SimulationVoxel.rz v' = 0) /\
       (SimulationVoxel.vx v' = 0 /\ SimulationVoxel.vy v' = 0 /\
        SimulationVoxel.vz v' = 0)) /\
      (RebuildTarget.rubble t = true ->
       SimulationVoxel.x v' = SimulationVoxel.x v /\
       SimulationVoxel.y v' = FLOOR_Y - 300 /\
       SimulationVoxel.z v' = SimulationVoxel.z v).
Proof.
  intros Hp Hs.
  assert (E : setProgress FLOOR_Y now p e = finishRebuild FLOOR_Y now e).
  { unfold setProgress. simpl.
    rewrite (proj2 (Qgeb_true p 1) Hp).
    rewrite bool_decide_eq_true_2 by done. simpl.
    by destruct e. }
  split; [exact E|]. rewrite E. split; [apply finishRebuild_state|].
  unfold finishRebuild.
  match goal with
  | |- context [draw FLOOR_Y now ?e3] =>
      destruct (draw_frame now e3) as (-> & _ & _ & _ & _ & ->)
  end.
  split; [reflexivity|]. intros i v t Hv Ht.
  cbn [voxels set_voxels set_state set_manualProgress emit rebuildTargets].
  rewrite list_lookup_imap, Hv. cbn [fmap option_fmap option_map].
  unfold snapVoxel. rewrite Ht.
  destruct (RebuildTarget.rubble t) eqn:Hr.
  - eexists. split; [reflexivity|]. split; [done|]. intros _.
    by repeat split.
  - eexists. split; [reflexivity|]. split; [|done]. intros _.
    by repeat split.
Qed.

(** *** The earlier revision *)

(** X27: the earlier revision does reach STABLE by itself: after a tick of an
    autonomous rebuild in which every matched voxel is unlocked and
    within 0.05 of its target height. *)
Lemma legacy_updatePhysics_converges (now : Z) (e : VoxelEngine) :
  state e = REBUILDING ->
  isProgressive e = false ->
  (forall (i : nat) (v : SimulationVoxel.t) (t : RebuildTarget.t),
     voxels e !! i = Some v -> rebuildTargets e !! i = Some t ->
     RebuildTarget.rubble t = false ->
     isUnlocked now e t = true /\
     Qabs (RebuildTarget.y t - SimulationVoxel.y v) <= 5 # 100) ->
  state (Legacy.updatePhysics FLOOR_Y now e) = STABLE.
Proof.
  intros Hs Hp Hclose. unfold Legacy.updatePhysics. rewrite Hs, Hp.
  assert (Hall : forallb snd (imap (Legacy.rebuildStep FLOOR_Y now e) (voxels e))
                 = true).
  { apply forallb_forall. intros s Hin.
    apply list_elem_of_In, list_elem_of_lookup in Hin.
    destruct Hin as [i Hi]. revert Hi.
    rewrite list_lookup_imap.
    destruct (voxels e !! i) as [v|] eqn:Hv;
      cbn -[Legacy.rebuildStep]; [|done].
    intros [= <-]. unfold Legacy.rebuildStep.
    destruct (rebuildTargets e !! i) as [t|] eqn:Ht; [|done].
    destruct (RebuildTarget.rubble t) eqn:Hr; [done|].
    destruct (Hclose i v t Hv Ht Hr) as [Hu Hd].
    rewrite Hu, Hp. cbn [snd SimulationVoxel.y].
    apply negb_true_iff, Qltb_false.
    apply (proj1 (Qabs_Qle_condition _ _)) in Hd. destruct Hd as [Hlo Hhi].
    apply (proj2 (Qabs_Qle_condition _ _)). split; lra. }
  rewrite Hall. reflexivity.
Qed.

End Properties.

(** ** The ways out of a rebuild *)

Section Lifecycle.
Variable FLOOR_Y : Q.

Lemma legacy_allDone (now : Z) (e : VoxelEngine) :
  isProgressive e = false ->
  allClose now e ->
  forallb snd (imap (Legacy.rebuildStep FLOOR_Y now e) (voxels e)) = true.
Proof.
  intros Hp Hclose. apply forallb_forall. intros s Hin.
  apply list_elem_of_In, list_elem_of_lookup in Hin.
  destruct Hin as [i Hi]. revert Hi.
  rewrite list_lookup_imap.
  destruct (voxels e !! i) as [v|] eqn:Hv;
    cbn -[Legacy.rebuildStep]; [|done].
  intros [= <-]. unfold Legacy.rebuildStep.
  destruct (rebuildTargets e !! i) as [t|] eqn:Ht; [|done].
  destruct (RebuildTarget.rubble t) eqn:Hr; [done|].
  destruct (Hclose i v t Hv Ht Hr) as [Hu Hd].
  rewrite Hu, Hp. cbn [snd SimulationVoxel.y].
  apply negb_true_iff, Qltb_false.
  apply (proj1 (Qabs_Qle_condition _ _)) in Hd. destruct Hd as [Hlo Hhi].
  apply (proj2 (Qabs_Qle_condition _ _)). split; lra.
Qed.

(** C3, amended: in the current engine a tick never changes the state;
    a call leaves the engine STABLE only if it was STABLE before or the
    call is [finishRebuild], [setProgress(p)] with [p >= 1] or
    [loadInitialModel], so a sequence of calls that reaches STABLE from
    another state contains one of these.  The implicit end of a rebuild
    exists in the earlier revision only: there a tick turns a rebuild
    that is not progressive STABLE once every matched voxel is unlocked
    and within 0.05 of its target height, and never a progressive
    one. *)
Theorem rebuilding_ends_only_by_finishing (e : VoxelEngine) :
  (forall clock : list Z, state (ticks FLOOR_Y clock e) = state e) /\
  (forall c : Call,
     state (perform FLOOR_Y c e) = STABLE ->
     state e = STABLE \/ finishes c) /\
  (forall calls : list Call,
     state e <> STABLE ->
     state (run FLOOR_Y calls e) = STABLE ->
     Exists finishes calls) /\
  (forall now : Z,
     state e = REBUILDING ->
     (isProgressive e = true ->
      state (Legacy.updatePhysics FLOOR_Y now e) = REBUILDING) /\
     (isProgressive e = false -> allClose now e ->
      state (Legacy.updatePhysics FLOOR_Y now e) = STABLE)).
Proof.
  assert (Hcall : forall (c : Call) (e0 : VoxelEngine),
    state (perform FLOOR_Y c e0) = STABLE ->
    state e0 = STABLE \/ finishes c).
  { intros c e0. destruct c as [now data | normalize random | now p | now
                               | now targetModel progressive | now];
      cbn [perform finishes].
    - by right.
    - intros H. by cbn in H.
    - unfold setProgress. cbn zeta.
      destruct (Qgeb p 1) eqn:Hp; cbn [andb].
      + intros _. right. by apply Qgeb_true.
      + intros H. by left.
    - by right.
    - destruct (rebuild_fields FLOOR_Y now targetModel progressive e0)
        as (_ & _ & -> & _). done.
    - rewrite animate_state. by left. }
  split; [|split; [|split]].
  - intros clock. revert e.
    induction clock as [|now clock IH]; intros e; [done|].
    change (ticks FLOOR_Y (now :: clock) e)
      with (ticks FLOOR_Y clock (animate FLOOR_Y now e)).
    by rewrite IH, animate_state.
  - intros c. apply Hcall.
  - intros calls. revert e.
    induction calls as [|c calls IH]; intros e Hne Hend; [done|].
    change (run FLOOR_Y (c :: calls) e)
      with (run FLOOR_Y calls (perform FLOOR_Y c e)) in Hend.
    destruct (decide (state (perform FLOOR_Y c e) = STABLE)) as [Hs | Hs].
    + apply Exists_cons_hd. by destruct (Hcall c e Hs).
    + apply Exists_cons_tl. by apply (IH (perform FLOOR_Y c e)).
  - intros now Hs. unfold Legacy.updatePhysics. rewrite Hs. split.
    + intros ->. by rewrite andb_false_r.
    + intros Hp Hclose. by rewrite (legacy_allDone now e Hp Hclose), Hp.
Qed.
End Lifecycle.

(** ** The scan for the nearest colour *)

Lemma candidate_cons_taken (targetR : Q) (a : Avail) (avail : list Avail)
    (v : SimulationVoxel.t) (vs : list SimulationVoxel.t) (j : nat) (d : Q) :
  taken a = true ->
  candidate targetR (a :: avail) (v :: vs) j d ->
  exists j' : nat, j = S j' /\ candidate targetR avail vs j' d.
Proof.
  intros Ht (a' & v' & Ha & Hf & Hv & Hd). destruct j as [|j'].
  - injection Ha as <-. congruence.
  - exists j'. split; [done|]. by exists a', v'.
Qed.

Lemma candidate_cons_inv (targetR : Q) (a : Avail) (avail : list Avail)
    (v : SimulationVoxel.t) (vs : list SimulationVoxel.t) (j : nat) (d : Q) :
  candidate targetR (a :: avail) (v :: vs) j d ->
  (j = 0%nat /\ taken a = false /\
   d = Qabs (Color.r (SimulationVoxel.color v) - targetR)) \/
  exists j' : nat, j = S j' /\ candidate targetR avail vs j' d.
Proof.
  intros (a' & v' & Ha & Hf & Hv & Hd). destruct j as [|j'].
  - injection Ha as <-. injection Hv as <-. by left.
  - right. exists j'. split; [done|]. by exists a', v'.
Qed.

(** The scan from offset [i] with an accumulator: the answer is either a
    voxel of the scanned part that beats the accumulator, or the
    accumulator's own candidate when nothing scanned beats it. *)
Lemma findBest_scan (targetR : Q) (avail : list Avail)
    (vs : list SimulationVoxel.t) (i : nat) (bestDist : Q)
    (bestIdx : option nat) (b : nat) :
  findBest targetR avail vs i bestDist bestIdx = Some b ->
  (exists (j : nat) (d : Q),
     b = (i + j)%nat /\ candidate targetR avail vs j d /\ d < bestDist /\
     (forall (j' : nat) (d' : Q),
        (j' < j)%nat -> candidate targetR avail vs j' d' -> d < d') /\
     (d < 1 # 100 \/
      forall (j' : nat) (d' : Q),
        candidate targetR avail vs j' d' -> d <= d')) \/
  (bestIdx = Some b /\
   forall (j' : nat) (d' : Q),
     candidate targetR avail vs j' d' -> bestDist <= d').
Proof.
  revert vs i bestDist bestIdx.
  induction avail as [|a avail IH]; intros vs i bestDist bestIdx Hfind.
  { right. split; [done|]. intros j' d' (a' & _ & Ha & _).
    by rewrite lookup_nil in Ha. }
  destruct vs as [|v vs].
  { right. split; [done|]. intros j' d' (_ & v' & _ & _ & Hv & _).
    by rewrite lookup_nil in Hv. }
  cbn [findBest] in Hfind.
  set (d0 := Qabs (Color.r (SimulationVoxel.color v) - targetR)) in *.
  destruct (taken a) eqn:Ht.
  - (* a claimed entry is skipped *)
    destruct (IH _ _ _ _ Hfind)
      as [(j & d & -> & Hc & Hlt & Hfirst & Hmin) | [Hb Hall]].
    + left. exists (S j), d. split; [lia|]. split.
      { destruct Hc as (a' & v' & ?). by exists a', v'. }
      split; [done|]. split.
      * intros j' d' Hj' Hc'.
        destruct (candidate_cons_taken _ _ _ _ _ _ _ Ht Hc') as (j'' & -> & Hc'').
        apply (Hfirst j''); [lia | done].
      * destruct Hmin as [? | Hmin]; [by left | right].
        intros j' d' Hc'.
        destruct (candidate_cons_taken _ _ _ _ _ _ _ Ht Hc') as (j'' & -> & Hc'').
        by apply (Hmin j'').
    + right. split; [done|]. intros j' d' Hc'.
      destruct (candidate_cons_taken _ _ _ _ _ _ _ Ht Hc') as (j'' & -> & Hc'').
      by apply (Hall j'').
  - assert (Hhead : candidate targetR (a :: avail) (v :: vs) 0 d0)
      by (by exists a, v).
    destruct (Qltb d0 bestDist) eqn:Hcmp.
    + apply Qltb_true in Hcmp.
      destruct (Qltb d0 (1 # 100)) eqn:Hnear.
      * (* a near-exact match ends the scan *)
        apply Qltb_true in Hnear. injection Hfind as <-.
        left. exists 0%nat, d0. split; [lia|]. split; [done|].
        split; [done|]. split; [intros j' d' Hj'; lia | by left].
      * apply Qltb_false in Hnear.
        destruct (IH _ _ _ _ Hfind)
          as [(j & d & -> & Hc & Hlt & Hfirst & Hmin) | [Hb Hall]].
        -- left. exists (S j), d. split; [lia|]. split.
           { destruct Hc as (a' & v' & ?). by exists a', v'. }
           split; [lra|]. split.
           ++ intros j' d' Hj' Hc'.
              destruct (candidate_cons_inv _ _ _ _ _ _ _ Hc')
                as [(-> & _ & Hd) | (j'' & -> & Hc'')];
                [rewrite Hd; fold d0; first [done | lra | apply Qle_refl]|].
              apply (Hfirst j''); [lia | done].
           ++ destruct Hmin as [? | Hmin]; [by left | right].
              intros j' d' Hc'.
              destruct (candidate_cons_inv _ _ _ _ _ _ _ Hc')
                as [(-> & _ & Hd) | (j'' & -> & Hc'')];
                [rewrite Hd; fold d0; first [done | lra | apply Qle_refl]|].
              by apply (Hmin j'').
        -- injection Hb as <-.
           left. exists 0%nat, d0. split; [lia|]. split; [done|].
           split; [done|]. split; [intros j' d' Hj'; lia | right].
           intros j' d' Hc'.
           destruct (candidate_cons_inv _ _ _ _ _ _ _ Hc')
             as [(-> & _ & Hd) | (j'' & -> & Hc'')];
                [rewrite Hd; fold d0; first [done | lra | apply Qle_refl]|].
           by apply (Hall j'').
    + apply Qltb_false in Hcmp.
      destruct (IH _ _ _ _ Hfind)
        as [(j & d & -> & Hc & Hlt & Hfirst & Hmin) | [Hb Hall]].
      * left. exists (S j), d. split; [lia|]. split.
        { destruct Hc as (a' & v' & ?). by exists a', v'. }
        split; [done|]. split.
        -- intros j' d' Hj' Hc'.
           destruct (candidate_cons_inv _ _ _ _ _ _ _ Hc')
             as [(-> & _ & Hd) | (j'' & -> & Hc'')];
                [rewrite Hd; fold d0; first [done | lra | apply Qle_refl]|].
           apply (Hfirst j''); [lia | done].
        -- destruct Hmin as [? | Hmin]; [by left | right].
           intros j' d' Hc'.
           destruct (candidate_cons_inv _ _ _ _ _ _ _ Hc')
             as [(-> & _ & Hd) | (j'' & -> & Hc'')];
                [rewrite Hd; fold d0; first [done | lra | apply Qle_refl]|].
           by apply (Hmin j'').
      * right. split; [done|]. intros j' d' Hc'.
        destruct (candidate_cons_inv _ _ _ _ _ _ _ Hc')
          as [(-> & _ & Hd) | (j'' & -> & Hc'')];
                [rewrite Hd; fold d0; first [done | lra | apply Qle_refl]|].
        by apply (Hall j'').
Qed.

(** X1: the voxel that the scan picks is free, strictly closer in colour
    than every free voxel before it, and either a near-exact match
    (distance below 0.01) or at least as close as every free voxel. *)
Theorem findBest_nearest (targetR : Q) (avail : list Avail)
    (vs : list SimulationVoxel.t) (b : nat) :
  findBest targetR avail vs 0 9999 None = Some b ->
  exists d : Q,
    candidate targetR avail vs b d /\
    (forall (j : nat) (d' : Q),
       (j < b)%nat -> candidate targetR avail vs j d' -> d < d') /\
    (d < 1 # 100 \/
     forall (j : nat) (d' : Q), candidate targetR avail vs j d' -> d <= d').
Proof.
  intros Hfind.
  destruct (findBest_scan _ _ _ _ _ _ _ Hfind)
    as [(j & d & -> & Hc & _ & Hfirst & Hmin) | [? _]]; [|done].
  exists d. by repeat split.
Qed.

(** X2: the scan gives up only when no free voxel is within distance 9999
    of the target's red channel. *)
Theorem findBest_none (targetR : Q) (avail : list Avail)
    (vs : list SimulationVoxel.t) (j : nat) (d : Q) :
  findBest targetR avail vs 0 9999 None = None ->
  candidate targetR avail vs j d -> 9999 <= d.
Proof.
  revert vs j. generalize 0%nat.
  induction avail as [|a avail IH]; intros i vs j Hfind Hc.
  { destruct Hc as (a' & _ & Ha & _). by rewrite lookup_nil in Ha. }
  destruct vs as [|v vs].
  { destruct Hc as (_ & v' & _ & _ & Hv & _). by rewrite lookup_nil in Hv. }
  cbn [findBest] in Hfind.
  destruct (taken a) eqn:Ht.
  - destruct (candidate_cons_taken _ _ _ _ _ _ _ Ht Hc) as (j' & -> & Hc').
    by apply (IH (S i) vs j').
  - destruct (Qltb _ 9999) eqn:Hcmp.
    + destruct (Qltb _ (1 # 100)); [done|].
      by destruct (findBest_keeps targetR avail vs (S i)
                     (Qabs (Color.r (SimulationVoxel.color v) - targetR)) i)
        as [? E]; rewrite E in Hfind.
    + apply Qltb_false in Hcmp.
      destruct (candidate_cons_inv _ _ _ _ _ _ _ Hc)
        as [(-> & _ & ->) | (j' & -> & Hc')]; [done|].
      by apply (IH (S i) vs j').
Qed.


(** ** What [rebuild] leaves of a voxel *)

Lemma recolored_refl (v : SimulationVoxel.t) : recolored v v.
Proof. by destruct v. Qed.

Lemma recolored_with_color (c : Color.t) (v v' : SimulationVoxel.t) :
  recolored v v' -> recolored v (SimulationVoxel.with_color c v').
Proof. unfold recolored. intros ->. by destruct v. Qed.

Lemma assignTarget_recolors (total : nat) (st : Matching) (k : nat)
    (target : VoxelData.t) (vs : list SimulationVoxel.t) :
  Forall2 recolored vs (m_voxels st) ->
  Forall2 recolored vs (m_voxels (assignTarget total st k target)).
Proof.
  intros H. unfold assignTarget.
  destruct (findBest _ _ _ _ _ _) as [b|]; [|done].
  destruct (available st !! b) as [a|]; [|done]. cbn [m_voxels].
  apply Forall2_lookup. intros i.
  destruct (decide (index a = i)) as [<- | Hne].
  - rewrite list_lookup_alter_eq.
    pose proof (proj1 (Forall2_lookup _ _ _) H (index a)) as Hi.
    destruct Hi as [v v' Hr|]; constructor.
    by apply recolored_with_color.
  - rewrite list_lookup_alter_ne by done.
    apply (proj1 (Forall2_lookup _ _ _) H i).
Qed.

Lemma forEach_assign_recolors (total : nat) (l : list VoxelData.t) (k : nat)
    (st : Matching) (vs : list SimulationVoxel.t) :
  Forall2 recolored vs (m_voxels st) ->
  Forall2 recolored vs (m_voxels (forEach_from (assignTarget total) k l st)).
Proof.
  revert k st. induction l as [|a l IH]; intros k st H; [done|].
  cbn [forEach_from]. by apply IH, assignTarget_recolors.
Qed.

(** A voxel that is still unclaimed was not written to. *)
Lemma assignTarget_unclaimed (total : nat) (st : Matching) (k : nat)
    (target : VoxelData.t) (i : nat) :
  mappings (assignTarget total st k target) !! i = Some None ->
  mappings st !! i = Some None /\
  m_voxels (assignTarget total st k target) !! i = m_voxels st !! i.
Proof.
  unfold assignTarget.
  destruct (findBest _ _ _ _ _ _) as [b|]; [|done].
  destruct (available st !! b) as [a|]; [|done]. cbn [m_voxels mappings].
  destruct (decide (index a = i)) as [<- | Hne].
  - intros H. apply list_lookup_insert_Some in H.
    destruct H as [(_ & [=] & _) | (? & _)]; done.
  - rewrite list_lookup_insert_ne by done.
    by rewrite list_lookup_alter_ne by done.
Qed.

Lemma forEach_assign_unclaimed (total : nat) (l : list VoxelData.t) (k : nat)
    (st : Matching) (i : nat) :
  mappings (forEach_from (assignTarget total) k l st) !! i = Some None ->
  m_voxels (forEach_from (assignTarget total) k l st) !! i = m_voxels st !! i.
Proof.
  revert k st. induction l as [|a l IH]; intros k st H; [done|].
  cbn [forEach_from] in *. rewrite (IH _ _ H).
  assert (Hm : mappings (assignTarget total st k a) !! i = Some None).
  { clear IH. revert H. generalize (assignTarget total st k a) (S k).
    induction l as [|a' l IHl]; intros st' k'; [done|].
    cbn [forEach_from]. intros H. apply IHl in H.
    by apply assignTarget_unclaimed in H as [? _]. }
  by apply assignTarget_unclaimed in Hm as [_ ?].
Qed.

Section RebuildInPlace.
Variable FLOOR_Y : Q.

(** X3: when the store need not grow, [rebuild] changes nothing of a voxel
    but its colour (identity, position, velocity and rotation stay), and
    it leaves a voxel that ends as rubble entirely as it was. *)
Theorem rebuild_morphs_in_place (now : Z) (targetModel : list VoxelData.t)
    (progressive : bool) (e : VoxelEngine) (i : nat)
    (v : SimulationVoxel.t) :
  (length targetModel <= length (voxels e))%nat ->
  voxels e !! i = Some v ->
  exists (v' : SimulationVoxel.t) (t : RebuildTarget.t),
    voxels (rebuild FLOOR_Y now targetModel progressive e) !! i = Some v' /\
    rebuildTargets (rebuild FLOOR_Y now targetModel progressive e) !! i
    = Some t /\
    recolored v v' /\
    (RebuildTarget.rubble t = true -> v' = v).
Proof.
  intros Hlen Hv.
  destruct (rebuild_fields FLOOR_Y now targetModel progressive e)
    as (Hvs & Hts & _).
  rewrite Hvs, Hts. unfold matchingOf, assignAll.
  assert (Hstore : storeBefore targetModel e = voxels e).
  { unfold storeBefore.
    by destruct (Nat.ltb_spec (length (voxels e)) (length targetModel));
      [lia|]. }
  rewrite Hstore.
  set (st := forEach_from _ 0 _ _).
  assert (Hrec : Forall2 recolored (voxels e) (m_voxels st)).
  { apply forEach_assign_recolors. cbn [startMatching m_voxels].
    apply Forall_Forall2_diag, Forall_forall. intros ? _. apply recolored_refl. }
  pose proof (proj1 (Forall2_lookup _ _ _) Hrec i) as Hi.
  rewrite Hv in Hi. inversion Hi as [v0 v' Hr E1 E2|]; subst.
  pose proof (inv_len_mappings _ _ _ _ (rebuild_inv targetModel e)) as Hlm.
  unfold matchingOf, assignAll in Hlm. rewrite Hstore in Hlm. fold st in Hlm.
  destruct (lookup_lt_is_Some_2 (mappings st) i) as [m Hm].
  { rewrite Hlm. apply lookup_lt_Some in Hv. lia. }
  exists v', (fillRubble FLOOR_Y m). split; [done|]. split.
  { by rewrite list_lookup_fmap, Hm. }
  split; [done|]. intros Hrub.
  destruct m as [t|].
  - pose proof (matching_inv_not_rubble _ _ _ _ i t
                  (rebuild_inv targetModel e)) as Hnr.
    unfold matchingOf, assignAll in Hnr. rewrite Hstore in Hnr.
    cbn [fillRubble] in Hrub. rewrite (Hnr Hm) in Hrub. done.
  - pose proof (forEach_assign_unclaimed _ _ _ _ _ Hm) as Hsame.
    fold st in Hsame. cbn [startMatching m_voxels] in Hsame.
    congruence.
Qed.
End RebuildInPlace.


(** ** Free fall while DISMANTLING *)

Lemma ofNat_S (n : nat) : ofNat (S n) == ofNat n + 1.
Proof.
  unfold ofNat. rewrite Nat2Z.inj_succ, <- Z.add_1_r, inject_Z_plus.
  reflexivity.
Qed.

Lemma ofNat_nonneg (n : nat) : 0 <= ofNat n.
Proof. unfold ofNat. change 0 with (inject_Z 0). rewrite <- Zle_Qle. lia. Qed.

Lemma ofNat_le (n m : nat) : (n <= m)%nat -> ofNat n <= ofNat m.
Proof. intros H. unfold ofNat. rewrite <- Zle_Qle. lia. Qed.

Lemma Qpow_range (q : Q) (n : nat) :
  0 <= q -> q <= 1 -> 0 <= Qpow q n /\ Qpow q n <= 1.
Proof.
  intros H0 H1. induction n as [|n [IH0 IH1]]; cbn [Qpow]; [split; lra|].
  split; [by apply Qmult_le_0_compat|].
  apply Qle_trans with (1 * Qpow q n); [|lra].
  apply Qmult_le_compat_r; lra.
Qed.

Lemma Qpow_antitone (q : Q) (n m : nat) :
  0 <= q -> q <= 1 -> (n <= m)%nat -> Qpow q m <= Qpow q n.
Proof.
  intros H0 H1 Hnm. induction Hnm as [|m Hnm IH]; [apply Qle_refl|].
  cbn [Qpow]. destruct (Qpow_range q m H0 H1) as [Hm0 Hm1].
  apply Qle_trans with (1 * Qpow q m); [|lra].
  apply Qmult_le_compat_r; lra.
Qed.

(** *** Free fall *)

Lemma fall_iter (n : nat) (v : SimulationVoxel.t) :
  let v' := Nat.iter n fall v in
  SimulationVoxel.vy v' == SimulationVoxel.vy v - (6 # 1000) * ofNat n /\
  SimulationVoxel.y v'
  == SimulationVoxel.y v + ofNat n * SimulationVoxel.vy v
     - (3 # 1000) * ofNat n * (ofNat n + 1) /\
  SimulationVoxel.vx v' == SimulationVoxel.vx v * Qpow (98 # 100) n /\
  SimulationVoxel.x v'
  == SimulationVoxel.x v
     + 50 * SimulationVoxel.vx v * (1 - Qpow (98 # 100) n) /\
  SimulationVoxel.vz v' == SimulationVoxel.vz v * Qpow (98 # 100) n /\
  SimulationVoxel.z v'
  == SimulationVoxel.z v
     + 50 * SimulationVoxel.vz v * (1 - Qpow (98 # 100) n).
Proof.
  induction n as [|n IH]; cbn zeta.
  - change (Nat.iter 0 fall v) with v. cbn [Qpow].
    change (ofNat 0) with 0. repeat split; ring.
  - cbn zeta in IH. destruct IH as (Hvy & Hy & Hvx & Hx & Hvz & Hz).
    change (Nat.iter (S n) fall v) with (fall (Nat.iter n fall v)).
    set (w := Nat.iter n fall v) in *.
    unfold fall at 1 2 3 4 5 6.
    cbn [SimulationVoxel.vy SimulationVoxel.y SimulationVoxel.vx
         SimulationVoxel.x SimulationVoxel.vz SimulationVoxel.z Qpow].
    rewrite Hvy, Hy, Hvx, Hx, Hvz, Hz, ofNat_S.
    repeat split; ring.
Qed.

Lemma fall_iter_rest (n : nat) (v : SimulationVoxel.t) :
  let v' := Nat.iter n fall v in
  SimulationVoxel.id v' = SimulationVoxel.id v /\
  SimulationVoxel.color v' = SimulationVoxel.color v /\
  SimulationVoxel.rx v'
  == SimulationVoxel.rx v + ofNat n * SimulationVoxel.rvx v /\
  SimulationVoxel.ry v'
  == SimulationVoxel.ry v + ofNat n * SimulationVoxel.rvy v /\
  SimulationVoxel.rz v'
  == SimulationVoxel.rz v + ofNat n * SimulationVoxel.rvz v /\
  SimulationVoxel.rvx v' = SimulationVoxel.rvx v /\
  SimulationVoxel.rvy v' = SimulationVoxel.rvy v /\
  SimulationVoxel.rvz v' = SimulationVoxel.rvz v.
Proof.
  induction n as [|n IH]; cbn zeta.
  - change (Nat.iter 0 fall v) with v.
    change (ofNat 0) with 0. repeat split; first [done | ring].
  - cbn zeta in IH. destruct IH as (Hid & Hc & Hrx & Hry & Hrz & Hx & Hy & Hz).
    change (Nat.iter (S n) fall v) with (fall (Nat.iter n fall v)).
    set (w := Nat.iter n fall v) in *.
    unfold fall.
    cbn [SimulationVoxel.id SimulationVoxel.color SimulationVoxel.rx
         SimulationVoxel.ry SimulationVoxel.rz SimulationVoxel.rvx
         SimulationVoxel.rvy SimulationVoxel.rvz].
    rewrite Hrx, Hry, Hrz, Hx, Hy, Hz, ofNat_S.
    repeat split; first [done | ring].
Qed.

Section FreeFall.
Variable FLOOR_Y : Q.

(** What a tick leaves alone. *)
Lemma animate_frame (now : Z) (e : VoxelEngine) :
  rebuildTargets (animate FLOOR_Y now e) = rebuildTargets e /\
  rebuildStartTime (animate FLOOR_Y now e) = rebuildStartTime e /\
  state (animate FLOOR_Y now e) = state e /\
  isProgressive (animate FLOOR_Y now e) = isProgressive e /\
  manualProgress (animate FLOOR_Y now e) = manualProgress e.
Proof.
  unfold animate.
  match goal with
  | |- context [draw FLOOR_Y now ?e1] =>
      destruct (draw_frame FLOOR_Y now e1) as (_ & -> & -> & -> & -> & ->)
  end.
  by destruct (state e) eqn:E.
Qed.

Lemma animate_voxels (now : Z) (e : VoxelEngine) :
  voxels (animate FLOOR_Y now e)
  = match state e with
    | DISMANTLING => map fall (voxels e)
    | REBUILDING => imap (rebuildStep FLOOR_Y now e) (voxels e)
    | STABLE => voxels e
    end.
Proof.
  unfold animate.
  match goal with
  | |- context [draw FLOOR_Y now ?e1] =>
      destruct (draw_frame FLOOR_Y now e1) as (-> & _)
  end.
  by destruct (state e).
Qed.

Lemma ticks_cons (now : Z) (clock : list Z) (e : VoxelEngine) :
  ticks FLOOR_Y (now :: clock) e = ticks FLOOR_Y clock (animate FLOOR_Y now e).
Proof. reflexivity. Qed.

Lemma ticks_frame (clock : list Z) (e : VoxelEngine) :
  rebuildTargets (ticks FLOOR_Y clock e) = rebuildTargets e /\
  rebuildStartTime (ticks FLOOR_Y clock e) = rebuildStartTime e /\
  state (ticks FLOOR_Y clock e) = state e /\
  isProgressive (ticks FLOOR_Y clock e) = isProgressive e /\
  manualProgress (ticks FLOOR_Y clock e) = manualProgress e.
Proof.
  revert e. induction clock as [|now clock IH]; intros e; [done|].
  rewrite ticks_cons.
  destruct (IH (animate FLOOR_Y now e)) as (-> & -> & -> & -> & ->).
  apply animate_frame.
Qed.

Lemma ticks_dismantling (clock : list Z) (e : VoxelEngine) :
  state e = DISMANTLING ->
  voxels (ticks FLOOR_Y clock e)
  = map (Nat.iter (length clock) fall) (voxels e).
Proof.
  revert e. induction clock as [|now clock IH]; intros e Hs.
  - cbn. by rewrite map_id.
  - rewrite ticks_cons, IH.
    + rewrite animate_voxels, Hs, map_map. apply map_ext. intros v.
      cbn [length]. by rewrite Nat.iter_succ_r.
    + by destruct (animate_frame now e) as (_ & _ & -> & _).
Qed.

(** X4: while DISMANTLING, after n ticks a voxel has fallen under constant
    gravity with horizontal drag: vy = vy0 - 0.006 n,
    y = y0 + n vy0 - 0.003 n (n + 1), vx = vx0 0.98^n and
    x = x0 + 50 vx0 (1 - 0.98^n) (the same on z); it never drifts
    further than 50 |vx0| sideways. *)
Theorem dismantling_free_fall (clock : list Z) (e : VoxelEngine) (i : nat)
    (v : SimulationVoxel.t) :
  state e = DISMANTLING ->
  voxels e !! i = Some v ->
  exists v' : SimulationVoxel.t,
    voxels (ticks FLOOR_Y clock e) !! i = Some v' /\
    SimulationVoxel.vy v'
    == SimulationVoxel.vy v - (6 # 1000) * ofNat (length clock) /\
    SimulationVoxel.y v'
    == SimulationVoxel.y v + ofNat (length clock) * SimulationVoxel.vy v
       - (3 # 1000) * ofNat (length clock) * (ofNat (length clock) + 1) /\
    SimulationVoxel.vx v'
    == SimulationVoxel.vx v * Qpow (98 # 100) (length clock) /\
    SimulationVoxel.x v'
    == SimulationVoxel.x v
       + 50 * SimulationVoxel.vx v * (1 - Qpow (98 # 100) (length clock)) /\
    SimulationVoxel.vz v'
    == SimulationVoxel.vz v * Qpow (98 # 100) (length clock) /\
    SimulationVoxel.z v'
    == SimulationVoxel.z v
       + 50 * SimulationVoxel.vz v * (1 - Qpow (98 # 100) (length clock)) /\
    Qabs (SimulationVoxel.x v' - SimulationVoxel.x v)
    <= 50 * Qabs (SimulationVoxel.vx v) /\
    Qabs (SimulationVoxel.z v' - SimulationVoxel.z v)
    <= 50 * Qabs (SimulationVoxel.vz v).
Proof.
  intros Hs Hv. exists (Nat.iter (length clock) fall v).
  rewrite (ticks_dismantling clock e Hs), list_lookup_fmap, Hv.
  split; [done|].
  destruct (fall_iter (length clock) v) as (Hvy & Hy & Hvx & Hx & Hvz & Hz).
  do 6 (split; [done|]).
  destruct (Qpow_range (98 # 100) (length clock)) as [Hp0 Hp1]; [lra | lra |].
  assert (Hdrift : forall a p : Q, 0 <= p -> p <= 1 ->
    Qabs (50 * a * (1 - p)) <= 50 * Qabs a).
  { intros a p H0 H1. rewrite !Qabs_Qmult.
    rewrite (Qabs_pos 50) by lra. rewrite (Qabs_pos (1 - p)) by lra.
    pose proof (Qabs_nonneg a). set (A := Qabs a) in *. nra. }
  split.
  - assert (E : SimulationVoxel.x (Nat.iter (length clock) fall v)
                - SimulationVoxel.x v
                == 50 * SimulationVoxel.vx v
                   * (1 - Qpow (98 # 100) (length clock)))
      by (rewrite Hx; ring).
    rewrite E. by apply Hdrift.
  - assert (E : SimulationVoxel.z (Nat.iter (length clock) fall v)
                - SimulationVoxel.z v
                == 50 * SimulationVoxel.vz v
                   * (1 - Qpow (98 # 100) (length clock)))
      by (rewrite Hz; ring).
    rewrite E. by apply Hdrift.
Qed.
End FreeFall.


(** ** [dismantle] *)

Section DismantleKick.
Variable FLOOR_Y : Q.
Variable normalize : Q * Q * Q -> Q * Q * Q.
Variable random : nat -> Q.

Lemma dismantle_voxels (e : VoxelEngine) :
  voxels (dismantle normalize random e)
  = imap (kick normalize random (centerOf (voxels e))) (voxels e).
Proof. reflexivity. Qed.

(** X5: [dismantle] enters DISMANTLING and only sets velocities: every
    voxel keeps its identity, position, rotation and colour, gets an
    upward speed in [0.1, 0.25) and a spin in [-0.05, 0.05) on each axis;
    targets and progress are not touched. *)
Theorem dismantle_kicks_upwards (e : VoxelEngine) (i : nat)
    (v : SimulationVoxel.t) :
  unitRandom random ->
  voxels e !! i = Some v ->
  state (dismantle normalize random e) = DISMANTLING /\
  rebuildTargets (dismantle normalize random e) = rebuildTargets e /\
  manualProgress (dismantle normalize random e) = manualProgress e /\
  length (voxels (dismantle normalize random e)) = length (voxels e) /\
  exists v' : SimulationVoxel.t,
    voxels (dismantle normalize random e) !! i = Some v' /\
    SimulationVoxel.id v' = SimulationVoxel.id v /\
    SimulationVoxel.color v' = SimulationVoxel.color v /\
    (SimulationVoxel.x v' = SimulationVoxel.x v /\
     SimulationVoxel.y v' = SimulationVoxel.y v /\
     SimulationVoxel.z v' = SimulationVoxel.z v) /\
    (SimulationVoxel.rx v' = SimulationVoxel.rx v /\
     SimulationVoxel.ry v' = SimulationVoxel.ry v /\
     SimulationVoxel.rz v' = SimulationVoxel.rz v) /\
    (1 # 10 <= SimulationVoxel.vy v' /\ SimulationVoxel.vy v' < 1 # 4) /\
    (- (1 # 20) <= SimulationVoxel.rvx v' /\ SimulationVoxel.rvx v' < 1 # 20) /\
    (- (1 # 20) <= SimulationVoxel.rvy v' /\ SimulationVoxel.rvy v' < 1 # 20) /\
    (- (1 # 20) <= SimulationVoxel.rvz v' /\ SimulationVoxel.rvz v' < 1 # 20).
Proof.
  intros Hr Hv. split; [done|]. split; [done|]. split; [done|].
  split; [by rewrite dismantle_voxels, length_imap|].
  eexists. split.
  { by rewrite dismantle_voxels, list_lookup_imap, Hv. }
  cbn [kick SimulationVoxel.id SimulationVoxel.color SimulationVoxel.x
       SimulationVoxel.y SimulationVoxel.z SimulationVoxel.rx
       SimulationVoxel.ry SimulationVoxel.rz SimulationVoxel.vy
       SimulationVoxel.rvx SimulationVoxel.rvy SimulationVoxel.rvz].
  do 4 (split; [done|]).
  destruct (Hr (5 * i + 1)%nat), (Hr (5 * i + 2)%nat),
    (Hr (5 * i + 3)%nat), (Hr (5 * i + 4)%nat).
  repeat split; lra.
Qed.

(** X6: a dismantled voxel first jumps: during the first 32 ticks it is
    above the height it started from, and from the 83rd tick on it is
    below it, for good. *)
Theorem dismantled_voxel_jumps_then_falls (clock : list Z) (e : VoxelEngine)
    (i : nat) (v : SimulationVoxel.t) :
  unitRandom random ->
  voxels e !! i = Some v ->
  exists v' : SimulationVoxel.t,
    voxels (ticks FLOOR_Y clock (dismantle normalize random e)) !! i
    = Some v' /\
    ((1 <= length clock <= 32)%nat ->
     SimulationVoxel.y v < SimulationVoxel.y v') /\
    ((83 <= length clock)%nat ->
     SimulationVoxel.y v' < SimulationVoxel.y v).
Proof.
  intros Hr Hv.
  set (v0 := kick normalize random (centerOf (voxels e)) i v).
  exists (Nat.iter (length clock) fall v0).
  rewrite (ticks_dismantling FLOOR_Y clock (dismantle normalize random e)
             eq_refl).
  rewrite list_lookup_fmap, dismantle_voxels, list_lookup_imap, Hv.
  split; [done|].
  destruct (fall_iter (length clock) v0) as (_ & Hy & _).
  fold v0. rewrite Hy.
  change (SimulationVoxel.y v0) with (SimulationVoxel.y v).
  change (SimulationVoxel.vy v0)
    with (random (5 * i + 1) * (15 # 100) + (1 # 10)).
  destruct (Hr (5 * i + 1)%nat) as [Hr0 Hr1].
  set (r := random (5 * i + 1)) in *.
  pose proof (ofNat_nonneg (length clock)) as Hn0.
  split.
  - intros [Hlo Hhi].
    pose proof (ofNat_le 1 (length clock) Hlo) as H1.
    pose proof (ofNat_le (length clock) 32 Hhi) as H32.
    change (ofNat 1) with 1 in H1. change (ofNat 32) with 32 in H32.
    set (N := ofNat (length clock)) in *.
    assert (Hpos : 0 < r * (15 # 100) + (1 # 10) - (3 # 1000) * (N + 1))
      by lra.
    nra.
  - intros Hlo.
    pose proof (ofNat_le 83 (length clock) Hlo) as H83.
    change (ofNat 83) with 83 in H83.
    set (N := ofNat (length clock)) in *.
    assert (Hneg : r * (15 # 100) + (1 # 10) - (3 # 1000) * (N + 1) < 0)
      by lra.
    nra.
Qed.
End DismantleKick.


(** ** Unlocked voxels and rubble while REBUILDING *)

Lemma approach_iter (t : RebuildTarget.t) (n : nat) (v : SimulationVoxel.t) :
  let v' := Nat.iter n (approach t) v in
  (SimulationVoxel.x v' - RebuildTarget.x t
   == Qpow (85 # 100) n * (SimulationVoxel.x v - RebuildTarget.x t) /\
   SimulationVoxel.y v' - RebuildTarget.y t
   == Qpow (85 # 100) n * (SimulationVoxel.y v - RebuildTarget.y t) /\
   SimulationVoxel.z v' - RebuildTarget.z t
   == Qpow (85 # 100) n * (SimulationVoxel.z v - RebuildTarget.z t)) /\
  (SimulationVoxel.rx v' == Qpow (85 # 100) n * SimulationVoxel.rx v /\
   SimulationVoxel.ry v' == Qpow (85 # 100) n * SimulationVoxel.ry v /\
   SimulationVoxel.rz v' == Qpow (85 # 100) n * SimulationVoxel.rz v).
Proof.
  induction n as [|n IH]; cbn zeta.
  - change (Nat.iter 0 (approach t) v) with v. cbn [Qpow].
    repeat split; ring.
  - cbn zeta in IH. destruct IH as ((Hx & Hy & Hz) & (Hrx & Hry & Hrz)).
    change (Nat.iter (S n) (approach t) v)
      with (approach t (Nat.iter n (approach t) v)).
    set (w := Nat.iter n (approach t) v) in *.
    unfold approach, lerpSpeed.
    cbn [SimulationVoxel.x SimulationVoxel.y SimulationVoxel.z
         SimulationVoxel.rx SimulationVoxel.ry SimulationVoxel.rz Qpow].
    repeat split.
    + rewrite <- Qmult_assoc, <- Hx. ring.
    + rewrite <- Qmult_assoc, <- Hy. ring.
    + rewrite <- Qmult_assoc, <- Hz. ring.
    + rewrite <- Qmult_assoc, <- Hrx. ring.
    + rewrite <- Qmult_assoc, <- Hry. ring.
    + rewrite <- Qmult_assoc, <- Hrz. ring.
Qed.

Lemma approach_iter_stops (t : RebuildTarget.t) (n : nat)
    (v : SimulationVoxel.t) :
  (0 < n)%nat ->
  let v' := Nat.iter n (approach t) v in
  SimulationVoxel.vx v' = 0 /\ SimulationVoxel.vy v' = 0 /\
  SimulationVoxel.vz v' = 0.
Proof. destruct n as [|n]; [lia|]. by intros _. Qed.

Lemma Qpow_85_29 : Qpow (85 # 100) 29 <= 1 # 100.
Proof. by vm_compute. Qed.

Lemma isUnlocked_frame (now : Z) (e e' : VoxelEngine) (t : RebuildTarget.t) :
  rebuildStartTime e' = rebuildStartTime e ->
  isProgressive e' = isProgressive e ->
  manualProgress e' = manualProgress e ->
  isUnlocked now e' t = isUnlocked now e t.
Proof. unfold isUnlocked, elapsed. by intros -> -> ->. Qed.

Section Approach.
Variable FLOOR_Y : Q.

Lemma ticks_unlocked (clock : list Z) (e : VoxelEngine) (i : nat)
    (v : SimulationVoxel.t) (t : RebuildTarget.t) :
  state e = REBUILDING ->
  voxels e !! i = Some v ->
  rebuildTargets e !! i = Some t ->
  RebuildTarget.rubble t = false ->
  Forall (fun now => isUnlocked now e t = true) clock ->
  voxels (ticks FLOOR_Y clock e) !! i
  = Some (Nat.iter (length clock) (approach t) v).
Proof.
  revert e v. induction clock as [|now clock IH]; intros e v Hs Hv Ht Hr Hu.
  { done. }
  apply Forall_cons in Hu. destruct Hu as [Hnow Hu].
  destruct (animate_frame FLOOR_Y now e) as (Hts & Hst & Hs' & Hp & Hm).
  rewrite ticks_cons. cbn [length]. rewrite Nat.iter_succ_r.
  apply IH.
  - by rewrite Hs'.
  - rewrite animate_voxels, Hs, list_lookup_imap, Hv. cbn.
    unfold rebuildStep. by rewrite Ht, Hr, Hnow.
  - by rewrite Hts.
  - done.
  - eapply Forall_impl; [exact Hu|]. intros now' H. cbn in *.
    by rewrite (isUnlocked_frame now' e _ t Hst Hp Hm).
Qed.

(** X7: while REBUILDING, a voxel whose target is unlocked at every tick
    closes in on it geometrically: after n ticks its offset from the
    target, and its rotation, are 0.85^n times what they were (so it
    never overshoots), and after 29 ticks the offset on each axis is
    below one hundredth of the initial one. *)
Theorem rebuilding_converges (clock : list Z) (e : VoxelEngine) (i : nat)
    (v : SimulationVoxel.t) (t : RebuildTarget.t) :
  state e = REBUILDING ->
  voxels e !! i = Some v ->
  rebuildTargets e !! i = Some t ->
  RebuildTarget.rubble t = false ->
  Forall (fun now => isUnlocked now e t = true) clock ->
  exists v' : SimulationVoxel.t,
    voxels (ticks FLOOR_Y clock e) !! i = Some v' /\
    (SimulationVoxel.x v' - RebuildTarget.x t
     == Qpow (85 # 100) (length clock)
        * (SimulationVoxel.x v - RebuildTarget.x t) /\
     SimulationVoxel.y v' - RebuildTarget.y t
     == Qpow (85 # 100) (length clock)
        * (SimulationVoxel.y v - RebuildTarget.y t) /\
     SimulationVoxel.z v' - RebuildTarget.z t
     == Qpow (85 # 100) (length clock)
        * (SimulationVoxel.z v - RebuildTarget.z t)) /\
    (SimulationVoxel.rx v'
     == Qpow (85 # 100) (length clock) * SimulationVoxel.rx v /\
     SimulationVoxel.ry v'
     == Qpow (85 # 100) (length clock) * SimulationVoxel.ry v /\
     SimulationVoxel.rz v'
     == Qpow (85 # 100) (length clock) * SimulationVoxel.rz v) /\
    ((29 <= length clock)%nat ->
     Qabs (SimulationVoxel.x v' - RebuildTarget.x t)
     <= (1 # 100) * Qabs (SimulationVoxel.x v - RebuildTarget.x t) /\
     Qabs (SimulationVoxel.y v' - RebuildTarget.y t)
     <= (1 # 100) * Qabs (SimulationVoxel.y v - RebuildTarget.y t) /\
     Qabs (SimulationVoxel.z v' - RebuildTarget.z t)
     <= (1 # 100) * Qabs (SimulationVoxel.z v - RebuildTarget.z t)).
Proof.
  intros Hs Hv Ht Hr Hu.
  exists (Nat.iter (length clock) (approach t) v).
  split; [by apply ticks_unlocked|].
  destruct (approach_iter t (length clock) v)
    as ((Hx & Hy & Hz) & Hrot).
  split; [done|]. split; [done|]. intros Hn.
  assert (Hp : 0 <= Qpow (85 # 100) (length clock) /\
               Qpow (85 # 100) (length clock) <= 1 # 100).
  { split; [apply Qpow_range; lra|].
    apply Qle_trans with (Qpow (85 # 100) 29); [|apply Qpow_85_29].
    apply Qpow_antitone; [lra | lra | done]. }
  destruct Hp as [Hp0 Hp1].
  assert (Hshrink : forall a b : Q,
    a == Qpow (85 # 100) (length clock) * b ->
    Qabs a <= (1 # 100) * Qabs b).
  { intros a b E. rewrite E, Qabs_Qmult, (Qabs_pos _ Hp0).
    apply Qmult_le_compat_r; [done | apply Qabs_nonneg]. }
  repeat split; by apply Hshrink.
Qed.

(** X8: while REBUILDING, ticks never move a voxel whose target is rubble
    or missing. *)
Theorem rebuilding_leaves_rubble (clock : list Z) (e : VoxelEngine)
    (i : nat) :
  state e = REBUILDING ->
  match rebuildTargets e !! i with
  | Some t => RebuildTarget.rubble t = true
  | None => True
  end ->
  voxels (ticks FLOOR_Y clock e) !! i = voxels e !! i.
Proof.
  revert e. induction clock as [|now clock IH]; intros e Hs Ht; [done|].
  destruct (animate_frame FLOOR_Y now e) as (Hts & _ & Hs' & _).
  rewrite ticks_cons, IH.
  - rewrite animate_voxels, Hs, list_lookup_imap.
    destruct (voxels e !! i) as [v|]; [|done]. cbn.
    unfold rebuildStep. destruct (rebuildTargets e !! i) as [t|]; [|done].
    by rewrite Ht.
  - by rewrite Hs'.
  - by rewrite Hts.
Qed.
End Approach.


(** ** The Normalizer, further *)

Lemma Qfloor_unique (q : Q) (n : Z) :
  inject_Z n <= q -> q < inject_Z n + 1 -> Qfloor q = n.
Proof.
  intros Hlo Hhi.
  pose proof (Qfloor_le q) as H1. pose proof (Qlt_floor q) as H2.
  rewrite inject_Z_plus in H2. change (inject_Z 1) with 1 in H2.
  assert (Ha : inject_Z (Qfloor q) < inject_Z (n + 1)).
  { rewrite inject_Z_plus. change (inject_Z 1) with 1. lra. }
  assert (Hb : inject_Z n < inject_Z (Qfloor q + 1)).
  { rewrite inject_Z_plus. change (inject_Z 1) with 1. lra. }
  rewrite <- Zlt_Qlt in Ha, Hb. lia.
Qed.

Lemma Qfloor_plus_Z (n : Z) (q : Q) :
  Qfloor (inject_Z n + q) = (n + Qfloor q)%Z.
Proof.
  pose proof (Qfloor_le q) as H1. pose proof (Qlt_floor q) as H2.
  rewrite inject_Z_plus in H2. change (inject_Z 1) with 1 in H2.
  apply Qfloor_unique; rewrite inject_Z_plus; lra.
Qed.

Lemma Math_round_plus_Z (n : Z) (q : Q) :
  Math_round (inject_Z n + q) == inject_Z n + Math_round q.
Proof.
  unfold Math_round.
  assert (E : inject_Z n + q + (1 # 2) == inject_Z n + (q + (1 # 2))) by ring.
  rewrite (Qfloor_comp _ _ E), Qfloor_plus_Z, inject_Z_plus. reflexivity.
Qed.

Lemma Math_round_eq (a b : Q) : a == b -> Math_round a = Math_round b.
Proof.
  intros E. unfold Math_round. f_equal. apply Qfloor_comp. by rewrite E.
Qed.

(** Rounding an integer, moved by nothing or by half a unit down, gives
    the integer back. *)
Lemma Math_round_settled (n : Z) (o : Q) :
  o == 0 \/ o == - (1 # 2) -> Math_round (inject_Z n + o) = inject_Z n.
Proof.
  intros Ho. unfold Math_round. f_equal.
  apply Qfloor_unique; destruct Ho as [-> | ->]; lra.
Qed.

Lemma boundingBox_image (fx fy fz : Q -> Q) (g : VoxelData.t -> VoxelData.t)
    (v0 : VoxelData.t) (rest : list VoxelData.t) :
  monotone fx -> monotone fy -> monotone fz ->
  (forall v, VoxelData.x (g v) = fx (VoxelData.x v) /\
             VoxelData.y (g v) = fy (VoxelData.y v) /\
             VoxelData.z (g v) = fz (VoxelData.z v)) ->
  box_image fx fy fz (boundingBox v0 rest) (boundingBox (g v0) (map g rest)).
Proof.
  intros Hx Hy Hz Hg. unfold boundingBox.
  apply foldl_expand_image; [done | done | done | done |].
  destruct (Hg v0) as (Ex & Ey & Ez).
  unfold box_image, box_of; cbn [minX maxX minY maxY minZ maxZ].
  rewrite Ex, Ey, Ez. repeat split; reflexivity.
Qed.

(** The offsets that a second normalisation would apply. *)
Lemma normalized_offsets (v0 : VoxelData.t) (rest : list VoxelData.t) :
  let bx := boundingBox v0 rest in
  let s := shift (- (minX bx + maxX bx) / 2) (- minY bx)
                 (- (minZ bx + maxZ bx) / 2) in
  let bx' := boundingBox (s v0) (map s rest) in
  (- (minX bx' + maxX bx') / 2 == 0 \/
   - (minX bx' + maxX bx') / 2 == - (1 # 2)) /\
  - minY bx' == 0 /\
  (- (minZ bx' + maxZ bx') / 2 == 0 \/
   - (minZ bx' + maxZ bx') / 2 == - (1 # 2)).
Proof.
  intros bx s bx'.
  destruct (boundingBox_image
              (fun q => Math_round (q + - (minX bx + maxX bx) / 2))
              (fun q => Math_round (q + - minY bx))
              (fun q => Math_round (q + - (minZ bx + maxZ bx) / 2))
              s v0 rest)
    as [[Hx1 Hx2] [[Hy1 _] [Hz1 Hz2]]];
    [apply monotone_round_shift | apply monotone_round_shift
     | apply monotone_round_shift | by intros v |].
  fold bx in Hx1, Hx2, Hy1, Hz1, Hz2. fold bx' in Hx1, Hx2, Hy1, Hz1, Hz2.
  assert (Hhalf : forall lo hi a b : Q,
    a == Math_round (lo + - (lo + hi) / 2) ->
    b == Math_round (hi + - (lo + hi) / 2) ->
    - (a + b) / 2 == 0 \/ - (a + b) / 2 == - (1 # 2)).
  { intros lo hi a b Ha Hb.
    destruct (half_sum_opposite lo hi) as [E1 E2].
    rewrite (Math_round_Qeq _ _ E1) in Ha.
    rewrite (Math_round_Qeq _ _ E2) in Hb.
    destruct (Math_round_opposite ((hi - lo) / 2)) as [H | H];
      [left | right]; unfold Qdiv in *; change (/ 2) with (1 # 2) in *;
      lra. }
  split; [by apply (Hhalf (minX bx) (maxX bx))|].
  split; [|by apply (Hhalf (minZ bx) (maxZ bx))].
  rewrite Hy1, (Math_round_0 (minY bx + - minY bx)); lra.
Qed.

Lemma shift_settled (ox oy oz : Q) (nx ny nz : Z) (c : Z) :
  ox == 0 \/ ox == - (1 # 2) -> oy == 0 -> oz == 0 \/ oz == - (1 # 2) ->
  shift ox oy oz (VoxelData.mk (inject_Z nx) (inject_Z ny) (inject_Z nz) c)
  = VoxelData.mk (inject_Z nx) (inject_Z ny) (inject_Z nz) c.
Proof.
  intros Hx Hy Hz. unfold shift.
  cbn [VoxelData.x VoxelData.y VoxelData.z VoxelData.color].
  rewrite !Math_round_settled; [done | done | by left | done].
Qed.

(** X9: normalising a normalised list changes nothing. *)
Theorem normalizeVoxels_idempotent (voxels : list VoxelData.t) :
  normalizeVoxels (normalizeVoxels voxels) = normalizeVoxels voxels.
Proof.
  destruct voxels as [|v0 rest]; [done|].
  destruct (normalized_offsets v0 rest) as (Hx & Hy & Hz).
  cbn zeta in Hx, Hy, Hz.
  set (bx := boundingBox v0 rest) in *.
  set (s := shift (- (minX bx + maxX bx) / 2) (- minY bx)
                  (- (minZ bx + maxZ bx) / 2)) in *.
  set (bx' := boundingBox (s v0) (map s rest)) in *.
  change (normalizeVoxels (v0 :: rest)) with (map s (v0 :: rest)).
  change (normalizeVoxels (map s (v0 :: rest)))
    with (map (shift (- (minX bx' + maxX bx') / 2) (- minY bx')
                     (- (minZ bx' + maxZ bx') / 2))
              (map s (v0 :: rest))).
  rewrite map_map. apply map_ext. intros v.
  by apply (shift_settled _ _ _
              (Qfloor (VoxelData.x v + - (minX bx + maxX bx) / 2 + (1 # 2)))
              (Qfloor (VoxelData.y v + - minY bx + (1 # 2)))
              (Qfloor (VoxelData.z v + - (minZ bx + maxZ bx) / 2 + (1 # 2)))).
Qed.

(** X10: normalising does not depend on where the model was placed. *)
Theorem normalizeVoxels_translation (dx dy dz : Q)
    (voxels : list VoxelData.t) :
  normalizeVoxels (map (translate dx dy dz) voxels) = normalizeVoxels voxels.
Proof.
  destruct voxels as [|v0 rest]; [done|].
  cbn [map]. unfold normalizeVoxels. cbn zeta.
  destruct (boundingBox_image (fun q => q + dx) (fun q => q + dy)
              (fun q => q + dz) (translate dx dy dz) v0 rest)
    as [[Hx1 Hx2] [[Hy1 _] [Hz1 Hz2]]];
    [intros a b H; lra | intros a b H; lra | intros a b H; lra
     | by intros v |].
  set (bx := boundingBox v0 rest) in *.
  set (bx' := boundingBox _ _) in *.
  change (translate dx dy dz v0 :: map (translate dx dy dz) rest)
    with (map (translate dx dy dz) (v0 :: rest)).
  rewrite map_map. apply map_ext. intros v.
  unfold shift, translate.
  cbn [VoxelData.x VoxelData.y VoxelData.z VoxelData.color].
  f_equal; apply Math_round_eq.
  - rewrite Hx1, Hx2. unfold Qdiv. change (/ 2) with (1 # 2). ring.
  - rewrite Hy1. ring.
  - rewrite Hz1, Hz2. unfold Qdiv. change (/ 2) with (1 # 2). ring.
Qed.

(** X11: on the integer grid normalising is a translation by a whole
    number of units on each axis, so the shape is kept and no two voxels
    fall together. *)
Theorem normalizeVoxels_rigid_on_grid (voxels : list VoxelData.t) :
  Forall onGrid voxels ->
  exists cx cy cz : Z,
    Forall2 (fun v w =>
               VoxelData.x w == VoxelData.x v + inject_Z cx /\
               VoxelData.y w == VoxelData.y v + inject_Z cy /\
               VoxelData.z w == VoxelData.z v + inject_Z cz /\
               VoxelData.color w = VoxelData.color v)
            voxels (normalizeVoxels voxels).
Proof.
  intros Hgrid. destruct voxels as [|v0 rest].
  { exists 0%Z, 0%Z, 0%Z. constructor. }
  unfold normalizeVoxels. cbn zeta.
  set (bx := boundingBox v0 rest).
  set (ox := - (minX bx + maxX bx) / 2).
  set (oy := - minY bx).
  set (oz := - (minZ bx + maxZ bx) / 2).
  exists (Qfloor (ox + (1 # 2))), (Qfloor (oy + (1 # 2))),
         (Qfloor (oz + (1 # 2))).
  apply Forall2_fmap_r, Forall_Forall2_diag.
  eapply Forall_impl; [exact Hgrid|].
  intros v ((nx & Ex) & (ny & Ey) & (nz & Ez)).
  unfold shift. cbn [VoxelData.x VoxelData.y VoxelData.z VoxelData.color].
  assert (Hmove : forall (q o : Q) (n : Z),
    q == inject_Z n ->
    Math_round (q + o) == q + inject_Z (Qfloor (o + (1 # 2)))).
  { intros q o n E.
    assert (E' : q + o == inject_Z n + o) by (rewrite E; reflexivity).
    rewrite (Math_round_Qeq _ _ E'), Math_round_plus_Z, E. reflexivity. }
  repeat split; [by apply (Hmove _ _ nx) | by apply (Hmove _ _ ny)
                 | by apply (Hmove _ _ nz)].
Qed.


(** ** The rounding to a double *)

Lemma Qabs_le_iff (a b : Q) : Qabs a <= b <-> - b <= a /\ a <= b.
Proof. apply Qabs_Qle_condition. Qed.

Lemma Qabs_diff (a b c : Q) :
  Qabs (a - b) <= c <-> b - c <= a /\ a <= b + c.
Proof. rewrite Qabs_le_iff. split; intros [H1 H2]; split; lra. Qed.

(** *** Powers of two *)

Lemma pow2_pos (k : Z) : 0 < pow2 k.
Proof. apply Qpower_0_lt. reflexivity. Qed.

Lemma pow2_plus (a b : Z) : pow2 (a + b) == pow2 a * pow2 b.
Proof. apply Qpower_plus. discriminate. Qed.

Lemma pow2_succ (k : Z) : pow2 (k + 1) == 2 * pow2 k.
Proof. rewrite pow2_plus. change (pow2 1) with 2. ring. Qed.

Lemma pow2_Z (k : Z) : (0 <= k)%Z -> pow2 k == inject_Z (2 ^ k).
Proof. intros H. unfold pow2. by rewrite Zpower_Qpower. Qed.

Lemma pow2_ge_1 (k : Z) : (0 <= k)%Z -> 1 <= pow2 k.
Proof. intros H. apply Qpower_1_le; [lra | done]. Qed.

Lemma pow2_le (a b : Z) : (a <= b)%Z -> pow2 a <= pow2 b.
Proof.
  intros H. replace b with (a + (b - a))%Z by lia. rewrite pow2_plus.
  pose proof (pow2_pos a).
  assert (1 <= pow2 (b - a)) by (apply pow2_ge_1; lia). nra.
Qed.

Lemma pow2_lt (a b : Z) : (a < b)%Z -> pow2 a < pow2 b.
Proof.
  intros H. apply Qlt_le_trans with (pow2 (a + 1)).
  - rewrite pow2_succ. pose proof (pow2_pos a). lra.
  - apply pow2_le. lia.
Qed.

Lemma pow2_unique (q : Q) (a b : Z) :
  pow2 a <= q -> q < pow2 (a + 1) ->
  pow2 b <= q -> q < pow2 (b + 1) -> a = b.
Proof.
  intros Ha1 Ha2 Hb1 Hb2.
  destruct (Z.lt_trichotomy a b) as [H | [H | H]]; [|done|].
  - assert (pow2 (a + 1) <= pow2 b) by (apply pow2_le; lia). lra.
  - assert (pow2 (b + 1) <= pow2 a) by (apply pow2_le; lia). lra.
Qed.

(** *** The exponent *)

Lemma binade_spec (q : Q) :
  0 < q -> pow2 (binade q) <= q /\ q < pow2 (binade q + 1).
Proof.
  intros Hq. destruct q as [n d]. unfold binade. cbn [Qnum Qden].
  assert (Hn : (0 < n)%Z).
  { unfold Qlt in Hq. cbn in Hq. lia. }
  destruct (Z.log2_spec n Hn) as [Hn1 Hn2].
  destruct (Z.log2_spec (Z.pos d)) as [Hd1 Hd2]; [lia|].
  pose proof (Z.log2_nonneg n) as Hln.
  pose proof (Z.log2_nonneg (Z.pos d)) as Hld.
  set (ln := Z.log2 n) in *. set (ld := Z.log2 (Z.pos d)) in *.
  (* in Q *)
  assert (E : (n # d) * inject_Z (Z.pos d) == inject_Z n).
  { unfold Qeq. cbn. lia. }
  assert (HN1 : pow2 ln <= inject_Z n).
  { rewrite pow2_Z by done. by rewrite <- Zle_Qle. }
  assert (HN2 : inject_Z n < pow2 (ln + 1)).
  { rewrite pow2_Z by lia. rewrite <- Zlt_Qlt.
    by replace (ln + 1)%Z with (Z.succ ln) by lia. }
  assert (HD1 : pow2 ld <= inject_Z (Z.pos d)).
  { rewrite pow2_Z by done. by rewrite <- Zle_Qle. }
  assert (HD2 : inject_Z (Z.pos d) < pow2 (ld + 1)).
  { rewrite pow2_Z by lia. rewrite <- Zlt_Qlt.
    by replace (ld + 1)%Z with (Z.succ ld) by lia. }
  pose proof (pow2_pos ld) as Hpd.
  pose proof (pow2_pos (ln - ld)) as Hpe.
  assert (Eu : pow2 (ln - ld + 1) * pow2 ld == pow2 (ln + 1)).
  { rewrite <- pow2_plus. by replace (ln - ld + 1 + ld)%Z with (ln + 1)%Z by lia. }
  assert (El : pow2 (ln - ld - 1) * pow2 (ld + 1) == pow2 ln).
  { rewrite <- pow2_plus. by replace (ln - ld - 1 + (ld + 1))%Z with ln by lia. }
  assert (Hup : (n # d) < pow2 (ln - ld + 1)).
  { set (D := inject_Z (Z.pos d)) in *. set (x := n # d) in *.
    set (P := pow2 (ln - ld + 1)) in *. pose proof (pow2_pos (ln - ld + 1)).
    fold P in H. nra. }
  assert (Hlo : pow2 (ln - ld - 1) <= (n # d)).
  { set (D := inject_Z (Z.pos d)) in *. set (x := n # d) in *.
    set (P := pow2 (ln - ld - 1)) in *. pose proof (pow2_pos (ln - ld - 1)).
    fold P in H. pose proof (pow2_pos (ld + 1)).
    destruct (Qlt_le_dec x P) as [Hlt|]; [|done]. exfalso. nra. }
  destruct (Qle_bool (pow2 (ln - ld)) (n # d)) eqn:Hc.
  - apply Qle_bool_iff in Hc. by split.
  - replace (ln - ld - 1 + 1)%Z with (ln - ld)%Z by lia.
    split; [done|]. apply Qnot_le_lt. intros H.
    apply Qle_bool_iff in H. congruence.
Qed.

Lemma binade_unique (q : Q) (e : Z) :
  pow2 e <= q -> q < pow2 (e + 1) -> binade q = e.
Proof.
  intros H1 H2.
  assert (Hq : 0 < q) by (pose proof (pow2_pos e); lra).
  destruct (binade_spec q Hq) as [H3 H4].
  by apply (pow2_unique q).
Qed.

Lemma binade_Qeq (a b : Q) : 0 < a -> a == b -> binade a = binade b.
Proof.
  intros Ha E. destruct (binade_spec a Ha) as [H1 H2].
  symmetry. apply binade_unique; lra.
Qed.

Lemma binade_mono (a b : Q) : 0 < a -> a <= b -> (binade a <= binade b)%Z.
Proof.
  intros Ha Hab.
  destruct (binade_spec a Ha) as [Ha1 Ha2].
  destruct (binade_spec b) as [Hb1 Hb2]; [lra|].
  destruct (Z_le_gt_dec (binade a) (binade b)) as [|Hgt]; [done|].
  assert (pow2 (binade b + 1) <= pow2 (binade a)) by (apply pow2_le; lia).
  lra.
Qed.

(** *** Ties to even *)

Lemma roundHalfEven_cases (x : Q) :
  inject_Z (Qfloor x) <= x /\ x < inject_Z (Qfloor x) + 1 /\
  ((x - inject_Z (Qfloor x) < 1 # 2 /\ roundHalfEven x = Qfloor x) \/
   (1 # 2 < x - inject_Z (Qfloor x) /\
    roundHalfEven x = (Qfloor x + 1)%Z) \/
   (x - inject_Z (Qfloor x) == 1 # 2 /\
    roundHalfEven x
    = if Z.even (Qfloor x) then Qfloor x else (Qfloor x + 1)%Z)).
Proof.
  pose proof (Qfloor_le x) as H1. pose proof (Qlt_floor x) as H2.
  rewrite inject_Z_plus in H2. change (inject_Z 1) with 1 in H2.
  split; [done|]. split; [done|]. unfold roundHalfEven. cbn zeta.
  destruct (Qcompare_spec (x - inject_Z (Qfloor x)) (1 # 2)) as [E | E | E].
  - right. right. by split.
  - left. by split.
  - right. left. by split.
Qed.

Lemma roundHalfEven_error (x : Q) :
  x - (1 # 2) <= inject_Z (roundHalfEven x) /\
  inject_Z (roundHalfEven x) <= x + (1 # 2).
Proof.
  destruct (roundHalfEven_cases x)
    as (H1 & H2 & [[H ->] | [[H ->] | [H ->]]]).
  - split; lra.
  - rewrite inject_Z_plus. change (inject_Z 1) with 1. split; lra.
  - destruct (Z.even (Qfloor x)).
    + split; lra.
    + rewrite inject_Z_plus. change (inject_Z 1) with 1. split; lra.
Qed.

Lemma roundHalfEven_integer (x : Q) (n : Z) :
  x == inject_Z n -> roundHalfEven x = n.
Proof.
  intros E.
  assert (F : Qfloor x = n) by (apply Qfloor_unique; lra).
  destruct (roundHalfEven_cases x)
    as (H1 & H2 & [[H ->] | [[H _] | [H _]]]); rewrite F in *; [done| |];
    lra.
Qed.

Lemma roundHalfEven_mono (x y : Q) :
  x <= y -> (roundHalfEven x <= roundHalfEven y)%Z.
Proof.
  intros Hxy. pose proof (Qfloor_resp_le x y Hxy) as Hk.
  destruct (roundHalfEven_cases x) as (X1 & X2 & HX).
  destruct (roundHalfEven_cases y) as (Y1 & Y2 & HY).
  assert (Hx : (roundHalfEven x <= Qfloor x + 1)%Z).
  { destruct HX as [[_ E] | [[_ E] | [_ E]]]; rewrite E; [lia | lia |].
    destruct (Z.even (Qfloor x)); lia. }
  assert (Hy : (Qfloor y <= roundHalfEven y)%Z).
  { destruct HY as [[_ E] | [[_ E] | [_ E]]]; rewrite E; [lia | lia |].
    destruct (Z.even (Qfloor y)); lia. }
  destruct (Z_lt_le_dec (Qfloor x) (Qfloor y)) as [Hlt | Hge]; [lia|].
  assert (E : Qfloor x = Qfloor y) by lia.
  rewrite E in *.
  destruct HX as [[HX EX] | [[HX EX] | [HX EX]]];
    destruct HY as [[HY EY] | [[HY EY] | [HY EY]]];
    rewrite EX, EY; try lia; try lra;
    destruct (Z.even (Qfloor y)); try lia; lra.
Qed.

(** *** The nearest double of a positive number *)

Lemma nearestDouble_unfold (q : Q) :
  nearestDouble q = inject_Z (roundHalfEven (q / ulp q)) * ulp q.
Proof. reflexivity. Qed.

Lemma ulp_pos (q : Q) : 0 < ulp q.
Proof. apply pow2_pos. Qed.

Lemma pow2_scale (e : Z) (k : Z) :
  (0 <= k)%Z -> inject_Z (2 ^ k) * pow2 (e - k) == pow2 e.
Proof.
  intros H. rewrite <- pow2_Z by done. rewrite <- pow2_plus.
  by replace (k + (e - k))%Z with e by lia.
Qed.

Lemma scaled (q : Q) : q / ulp q * ulp q == q.
Proof. pose proof (ulp_pos q). field. lra. Qed.

Lemma scaled_le (q : Q) (m : Q) : m * ulp q <= q <-> m <= q / ulp q.
Proof.
  pose proof (ulp_pos q) as Hu. pose proof (scaled q) as E.
  set (s := q / ulp q) in *. split; intros H; nra.
Qed.

Lemma scaled_ge (q : Q) (m : Q) : q <= m * ulp q <-> q / ulp q <= m.
Proof.
  pose proof (ulp_pos q) as Hu. pose proof (scaled q) as E.
  set (s := q / ulp q) in *. split; intros H; nra.
Qed.

(** The scaled number is below 2^53, and from 2^52 on when the number is
    normal. *)
Lemma scaled_range (q : Q) :
  0 < q ->
  0 < q / ulp q /\ q / ulp q <= inject_Z (2 ^ 53) /\
  ((-1022 <= binade q)%Z -> inject_Z (2 ^ 52) <= q / ulp q).
Proof.
  intros Hq. destruct (binade_spec q Hq) as [H1 H2].
  pose proof (ulp_pos q) as Hu.
  split; [|split].
  - apply Qlt_shift_div_l; lra.
  - apply scaled_ge. unfold ulp.
    replace (exponent q - 52)%Z with (exponent q + 1 - 53)%Z by lia.
    rewrite pow2_scale by lia.
    assert (pow2 (binade q + 1) <= pow2 (exponent q + 1))
      by (apply pow2_le; unfold exponent; lia).
    lra.
  - intros Hn. apply scaled_le. unfold ulp. rewrite pow2_scale by lia.
    replace (exponent q) with (binade q) by (unfold exponent; lia). done.
Qed.

Lemma nearestDouble_error (q : Q) :
  q - (1 # 2) * ulp q <= nearestDouble q /\
  nearestDouble q <= q + (1 # 2) * ulp q.
Proof.
  rewrite nearestDouble_unfold.
  destruct (roundHalfEven_error (q / ulp q)) as [H1 H2].
  pose proof (ulp_pos q) as Hu. pose proof (scaled q) as E.
  set (s := q / ulp q) in *. set (m := inject_Z (roundHalfEven s)) in *.
  split; nra.
Qed.

(** The significand that is kept. *)
Lemma significand_range (q : Q) :
  0 < q ->
  (0 <= roundHalfEven (q / ulp q) <= 2 ^ 53)%Z /\
  ((-1022 <= binade q)%Z -> (2 ^ 52 <= roundHalfEven (q / ulp q))%Z).
Proof.
  intros Hq. destruct (scaled_range q Hq) as (H0 & H1 & H2).
  split; [split|].
  - rewrite <- (roundHalfEven_integer 0 0) by reflexivity.
    apply roundHalfEven_mono. lra.
  - rewrite <- (roundHalfEven_integer (inject_Z (2 ^ 53)) (2 ^ 53))
      by reflexivity.
    by apply roundHalfEven_mono.
  - intros Hn.
    rewrite <- (roundHalfEven_integer (inject_Z (2 ^ 52)) (2 ^ 52))
      by reflexivity.
    apply roundHalfEven_mono. by apply H2.
Qed.

Lemma nearestDouble_nonneg (q : Q) : 0 < q -> 0 <= nearestDouble q.
Proof.
  intros Hq. rewrite nearestDouble_unfold.
  destruct (significand_range q Hq) as [[H0 _] _].
  pose proof (ulp_pos q). apply Qmult_le_0_compat; [|lra].
  change 0 with (inject_Z 0). by rewrite <- Zle_Qle.
Qed.

Lemma nearestDouble_mono (a b : Q) :
  0 < a -> a <= b -> nearestDouble a <= nearestDouble b.
Proof.
  intros Ha Hab. assert (Hb : 0 < b) by lra.
  pose proof (binade_mono a b Ha Hab) as He.
  destruct (decide (exponent a = exponent b)) as [E | Hne].
  - rewrite !nearestDouble_unfold. unfold ulp. rewrite E.
    pose proof (pow2_pos (exponent b - 52)) as Hu.
    apply Qmult_le_compat_r; [|lra]. rewrite <- Zle_Qle.
    apply roundHalfEven_mono. unfold Qdiv.
    apply Qmult_le_compat_r; [done|]. apply Qinv_le_0_compat. lra.
  - assert (Hlt : (exponent a < exponent b)%Z) by (unfold exponent in *; lia).
    assert (Hnb : (-1022 <= binade b)%Z) by (unfold exponent in *; lia).
    assert (Heb : exponent b = binade b) by (unfold exponent in *; lia).
    destruct (significand_range a Ha) as [[_ Ha1] _].
    destruct (significand_range b Hb) as [_ Hb1]. specialize (Hb1 Hnb).
    apply Qle_trans with (pow2 (exponent a + 1)).
    + rewrite nearestDouble_unfold.
      rewrite <- (pow2_scale (exponent a + 1) 53) by lia.
      replace (exponent a + 1 - 53)%Z with (exponent a - 52)%Z by lia.
      fold (ulp a). pose proof (ulp_pos a).
      apply Qmult_le_compat_r; [|lra]. by rewrite <- Zle_Qle.
    + apply Qle_trans with (pow2 (exponent b)); [apply pow2_le; lia|].
      rewrite nearestDouble_unfold.
      rewrite <- (pow2_scale (exponent b) 52) by lia.
      fold (ulp b). pose proof (ulp_pos b).
      apply Qmult_le_compat_r; [|lra]. by rewrite <- Zle_Qle.
Qed.

(** A number that is a whole multiple of its unit is kept. *)
Lemma nearestDouble_fixed (q : Q) (m : Z) :
  q == inject_Z m * ulp q -> nearestDouble q == q.
Proof.
  intros E. rewrite nearestDouble_unfold.
  pose proof (ulp_pos q) as Hu.
  assert (F : q / ulp q == inject_Z m).
  { rewrite E at 1. field. lra. }
  rewrite (roundHalfEven_integer _ _ F). by rewrite <- E.
Qed.

Lemma exponent_Qeq (a b : Q) : 0 < a -> a == b -> exponent a = exponent b.
Proof. intros Ha E. unfold exponent. by rewrite (binade_Qeq a b Ha E). Qed.

Lemma nearestDouble_integer (n : Z) :
  (0 < n <= 2 ^ 53)%Z -> nearestDouble (inject_Z n) == inject_Z n.
Proof.
  intros [Hn0 Hn1].
  destruct (Z.log2_spec n Hn0) as [Hl1 Hl2].
  pose proof (Z.log2_nonneg n) as Hl0.
  set (e := Z.log2 n) in *.
  assert (He : binade (inject_Z n) = e).
  { apply binade_unique.
    - rewrite pow2_Z by done. by rewrite <- Zle_Qle.
    - rewrite pow2_Z by lia. rewrite <- Zlt_Qlt.
      by replace (e + 1)%Z with (Z.succ e) by lia. }
  assert (Hx : exponent (inject_Z n) = e) by (unfold exponent; lia).
  assert (He53 : (e <= 53)%Z).
  { destruct (Z_le_gt_dec e 53) as [|Hgt]; [done|].
    assert (2 ^ 54 <= 2 ^ e)%Z by (apply Z.pow_le_mono_r; lia). lia. }
  destruct (Z_le_gt_dec e 52) as [Hle | Hgt].
  - apply (nearestDouble_fixed _ (n * 2 ^ (52 - e))).
    unfold ulp. rewrite Hx, inject_Z_mult, <- Qmult_assoc.
    replace (e - 52)%Z with (0 - (52 - e))%Z by lia.
    rewrite pow2_scale by lia. change (pow2 0) with 1. ring.
  - assert (E53 : e = 53%Z) by lia. rewrite E53 in Hl1, Hx.
    assert (En : n = (2 ^ 53)%Z) by (by apply Z.le_antisymm).
    apply (nearestDouble_fixed _ (2 ^ 52)).
    unfold ulp. rewrite Hx, En. by vm_compute.
Qed.

Lemma nearestDouble_idem (q : Q) :
  0 < q -> 0 < nearestDouble q ->
  nearestDouble (nearestDouble q) == nearestDouble q.
Proof.
  intros Hq Hv.
  destruct (significand_range q Hq) as [[Hm0 Hm1] Hm2].
  pose proof (ulp_pos q) as Hu.
  pose proof (nearestDouble_unfold q) as Ev.
  set (v := nearestDouble q) in *.
  set (m := roundHalfEven (q / ulp q)) in *.
  destruct (binade_spec v Hv) as [Hb1 Hb2].
  assert (Htop : inject_Z (2 ^ 53) * ulp q == pow2 (exponent q + 1)).
  { unfold ulp.
    replace (exponent q - 52)%Z with (exponent q + 1 - 53)%Z by lia.
    by rewrite pow2_scale by lia. }
  assert (Hbot : inject_Z (2 ^ 52) * ulp q == pow2 (exponent q)).
  { unfold ulp. by rewrite pow2_scale by lia. }
  destruct (Z_lt_le_dec m (2 ^ 53)) as [Hlt | Hge].
  - assert (Hx : exponent v = exponent q).
    { assert (Hvlt : v < pow2 (exponent q + 1)).
      { rewrite <- Htop, Ev. apply Qmult_lt_compat_r; [done|].
        by rewrite <- Zlt_Qlt. }
      assert (Hle : (binade v <= exponent q)%Z).
      { destruct (Z_le_gt_dec (binade v) (exponent q)) as [|Hgt]; [done|].
        assert (pow2 (exponent q + 1) <= pow2 (binade v))
          by (apply pow2_le; lia).
        lra. }
      destruct (decide (exponent q = (-1022)%Z)) as [E | Hne].
      - unfold exponent in *. lia.
      - assert (Hn : (-1022 <= binade q)%Z) by (unfold exponent in *; lia).
        specialize (Hm2 Hn).
        assert (Hvge : pow2 (exponent q) <= v).
        { rewrite <- Hbot, Ev. apply Qmult_le_compat_r; [|lra].
          by rewrite <- Zle_Qle. }
        assert (Hge : (exponent q <= binade v)%Z).
        { destruct (Z_le_gt_dec (exponent q) (binade v)) as [|Hgt]; [done|].
          assert (pow2 (binade v + 1) <= pow2 (exponent q))
            by (apply pow2_le; lia).
          lra. }
        unfold exponent in *. lia. }
    apply (nearestDouble_fixed v m). unfold ulp. rewrite Hx.
    fold (ulp q). by rewrite Ev.
  - assert (Em : m = (2 ^ 53)%Z) by lia.
    assert (Evp : v == pow2 (exponent q + 1)).
    { rewrite <- Htop. by rewrite <- Em. }
    assert (Hb : binade v = (exponent q + 1)%Z).
    { apply binade_unique; [lra|].
      rewrite Evp. apply pow2_lt. lia. }
    assert (Hx : exponent v = (exponent q + 1)%Z)
      by (unfold exponent in *; lia).
    apply (nearestDouble_fixed v (2 ^ 52)). unfold ulp. rewrite Hx.
    by rewrite pow2_scale by lia.
Qed.

(** *** The rounding *)

Lemma binary64_cases (q : Q) :
  (q == 0 /\ binary64 q = 0) \/
  (0 < q /\ binary64 q = nearestDouble q) \/
  (q < 0 /\ binary64 q = - nearestDouble (- q)).
Proof.
  unfold binary64. destruct (Qcompare_spec q 0) as [E | E | E].
  - left. by split.
  - right. right. by split.
  - right. left. by split.
Qed.

Lemma binary64_sign (q : Q) :
  (0 <= q -> 0 <= binary64 q) /\ (q <= 0 -> binary64 q <= 0).
Proof.
  destruct (binary64_cases q) as [[H ->] | [[H ->] | [H ->]]].
  - split; intros _; lra.
  - pose proof (nearestDouble_nonneg q H). split; intros ?; lra.
  - assert (Hn : 0 < - q) by lra.
    pose proof (nearestDouble_nonneg (- q) Hn). split; intros ?; lra.
Qed.

Lemma binary64_mono (a b : Q) : a <= b -> binary64 a <= binary64 b.
Proof.
  intros Hab.
  destruct (binary64_sign a) as [Sa1 Sa2].
  destruct (binary64_sign b) as [Sb1 Sb2].
  destruct (Qlt_le_dec 0 a) as [Ha | Ha].
  - destruct (binary64_cases a) as [[Ha' Ea] | [[Ha' Ea] | [Ha' Ea]]];
      [lra | | lra].
    destruct (binary64_cases b) as [[Hb' Eb] | [[Hb' Eb] | [Hb' Eb]]];
      [lra | | lra].
    rewrite Ea, Eb. by apply nearestDouble_mono.
  - destruct (Qlt_le_dec b 0) as [Hb | Hb].
    + destruct (binary64_cases a) as [[Ha' Ea] | [[Ha' Ea] | [Ha' Ea]]];
        [lra | lra |].
      destruct (binary64_cases b) as [[Hb' Eb] | [[Hb' Eb] | [Hb' Eb]]];
        [lra | lra |].
      rewrite Ea, Eb.
      assert (nearestDouble (- b) <= nearestDouble (- a))
        by (apply nearestDouble_mono; lra).
      lra.
    + apply Qle_trans with 0; [by apply Sa2 | by apply Sb1].
Qed.

Lemma binary64_integer (n : Z) :
  (Z.abs n <= 2 ^ 53)%Z -> binary64 (inject_Z n) == inject_Z n.
Proof.
  intros Hn.
  destruct (binary64_cases (inject_Z n)) as [[H ->] | [[H ->] | [H ->]]].
  - lra.
  - apply nearestDouble_integer.
    change 0 with (inject_Z 0) in H. rewrite <- Zlt_Qlt in H. lia.
  - change 0 with (inject_Z 0) in H. rewrite <- Zlt_Qlt in H.
    assert (E : - inject_Z n == inject_Z (- n)) by (by rewrite inject_Z_opp).
    assert (Hp : 0 < - inject_Z n).
    { rewrite E. change 0 with (inject_Z 0). rewrite <- Zlt_Qlt. lia. }
    pose proof (nearestDouble_integer (- n)) as Hi.
    assert (F : nearestDouble (- inject_Z n) == nearestDouble (inject_Z (- n))).
    { rewrite !nearestDouble_unfold. unfold ulp.
      rewrite (exponent_Qeq _ _ Hp E).
      apply Qmult_comp; [|reflexivity].
      assert (G : - inject_Z n / pow2 (exponent (inject_Z (- n)) - 52)
                  == inject_Z (- n) / pow2 (exponent (inject_Z (- n)) - 52))
        by (by rewrite E).
      unfold roundHalfEven. cbn zeta.
      by rewrite (Qfloor_comp _ _ G), (Qcompare_comp _ _ (Qminus_comp _ _ G _ _ (reflexivity _)) _ _ (reflexivity _)). }
    rewrite F, Hi by lia. rewrite inject_Z_opp. ring.
Qed.

Lemma nearestDouble_Qeq (a b : Q) :
  0 < a -> a == b -> nearestDouble a == nearestDouble b.
Proof.
  intros Ha E. apply Qle_antisym; apply nearestDouble_mono; lra.
Qed.

Lemma binary64_idem (q : Q) : binary64 (binary64 q) == binary64 q.
Proof.
  destruct (binary64_cases q) as [[H E] | [[H E] | [H E]]].
  - rewrite E. reflexivity.
  - pose proof (nearestDouble_nonneg q H) as Hv. rewrite E.
    destruct (binary64_cases (nearestDouble q))
      as [[H' ->] | [[H' ->] | [H' ->]]]; [lra | | lra].
    by apply nearestDouble_idem.
  - assert (Hn : 0 < - q) by lra.
    pose proof (nearestDouble_nonneg (- q) Hn) as Hv. rewrite E.
    destruct (binary64_cases (- nearestDouble (- q)))
      as [[H' ->] | [[H' ->] | [H' ->]]]; [lra | lra |].
    assert (Hpos : 0 < nearestDouble (- q)) by lra.
    assert (F : - - nearestDouble (- q) == nearestDouble (- q)) by ring.
    assert (Hpp : 0 < - - nearestDouble (- q)) by lra.
    rewrite (nearestDouble_Qeq _ _ Hpp F).
    by rewrite nearestDouble_idem.
Qed.

Lemma nearestDouble_small (q : Q) :
  0 < q -> q <= 2048 ->
  q - eps64 <= nearestDouble q /\ nearestDouble q <= q + eps64.
Proof.
  intros H0 H1. destruct (nearestDouble_error q) as [E1 E2].
  destruct (binade_spec q H0) as [B1 B2].
  assert (Hb : (binade q <= 11)%Z).
  { destruct (Z_le_gt_dec (binade q) 11) as [|Hgt]; [done|].
    assert (pow2 12 <= pow2 (binade q)) by (apply pow2_le; lia).
    assert (pow2 12 == 4096) by reflexivity. lra. }
  assert (Hu : ulp q <= pow2 (-41)).
  { unfold ulp. apply pow2_le. unfold exponent. lia. }
  assert (Hh : (1 # 2) * pow2 (-41) == eps64) by reflexivity.
  pose proof (ulp_pos q). split; lra.
Qed.

Lemma binary64_error (q : Q) :
  Qabs q <= 2048 -> Qabs (binary64 q - q) <= eps64.
Proof.
  intros Hq. apply (proj1 (Qabs_Qle_condition _ _)) in Hq.
  destruct Hq as [Hq1 Hq2]. apply (proj2 (Qabs_Qle_condition _ _)).
  destruct (binary64_cases q) as [[H ->] | [[H ->] | [H ->]]].
  - assert (0 <= eps64) by (by vm_compute). split; lra.
  - destruct (nearestDouble_small q H Hq2). split; lra.
  - destruct (nearestDouble_small (- q)); [lra | lra |]. split; lra.
Qed.

Lemma eps64_small : 0 <= eps64 /\ eps64 <= 1 # 1000.
Proof. split; by vm_compute. Qed.

(** *** Consequences *)

Lemma binary64_Qeq (a b : Q) : a == b -> binary64 a == binary64 b.
Proof.
  intros H. apply Qle_antisym; apply binary64_mono; lra.
Qed.

Lemma binary64_0 : binary64 0 == 0.
Proof. apply (binary64_integer 0). by vm_compute. Qed.

Lemma binary64_1 : binary64 1 == 1.
Proof. apply (binary64_integer 1). by vm_compute. Qed.

Lemma binary64_totalTime (isWorkMode : bool) :
  binary64 (totalTime isWorkMode) == totalTime isWorkMode.
Proof.
  destruct isWorkMode.
  - apply (binary64_integer 1500). by vm_compute.
  - apply (binary64_integer 300). by vm_compute.
Qed.

Lemma binary64_below (a b : Q) : a <= b -> binary64 b == b -> binary64 a <= b.
Proof. intros H E. rewrite <- E. by apply binary64_mono. Qed.

Lemma binary64_above (a b : Q) : b <= a -> binary64 b == b -> b <= binary64 a.
Proof. intros H E. rewrite <- E. by apply binary64_mono. Qed.

Lemma binary64_nonneg (a : Q) : 0 <= a -> 0 <= binary64 a.
Proof. intros H. apply binary64_above; [done | apply binary64_0]. Qed.

Lemma binary64_le_1 (a : Q) : a <= 1 -> binary64 a <= 1.
Proof. intros H. apply binary64_below; [done | apply binary64_1]. Qed.

Lemma binary64_near (q : Q) :
  - 2048 <= q -> q <= 2048 -> q - eps64 <= binary64 q /\ binary64 q <= q + eps64.
Proof.
  intros H1 H2. apply Qabs_diff. apply binary64_error.
  apply Qabs_le_iff. split; lra.
Qed.

(** ** The timer of the application *)

Lemma totalTime_cases (isWorkMode : bool) :
  totalTime isWorkMode == 1500 \/ totalTime isWorkMode == 300.
Proof. destruct isWorkMode; [left | right]; reflexivity. Qed.

(** *** The progress *)

(** The quotient before clamping. *)
Lemma fraction_bounds (isWorkMode : bool) (timeLeft : Q) :
  0 <= timeLeft -> timeLeft <= totalTime isWorkMode ->
  let f := binary64 (binary64 (totalTime isWorkMode - timeLeft)
                  / totalTime isWorkMode) in
  1 - timeLeft / totalTime isWorkMode - 2 * eps64 <= f /\
  f <= 1 - timeLeft / totalTime isWorkMode + 2 * eps64.
Proof.
  intros H0 H1 f. unfold f. clear f.
  destruct eps64_small as [He0 He1].
  pose proof (binary64_totalTime isWorkMode) as Ht.
  set (total := totalTime isWorkMode) in *.
  assert (Htot : total == 1500 \/ total == 300) by apply totalTime_cases.
  assert (Hpos : 300 <= total /\ total <= 1500) by (destruct Htot; lra).
  destruct Hpos as [Hlo Hhi].
  set (a := binary64 (total - timeLeft)).
  destruct (binary64_near (total - timeLeft)) as [Ha1 Ha2]; [lra | lra |].
  fold a in Ha1, Ha2.
  assert (Ha0 : 0 <= a) by (apply binary64_nonneg; lra).
  assert (Hat : a <= total) by (apply binary64_below; [lra | done]).
  assert (Hinv : 0 < / total) by (apply Qinv_lt_0_compat; lra).
  assert (Hone : total * / total == 1) by (apply Qmult_inv_r; lra).
  assert (Hsmall : / total <= 1 # 300).
  { apply Qle_shift_inv_r; lra. }
  unfold Qdiv in *. set (i := / total) in *.
  assert (Hq0 : 0 <= a * i) by nra.
  assert (Hq1 : a * i <= 1) by nra.
  destruct (binary64_near (a * i)) as [Hb1 Hb2]; [lra | lra |].
  split; nra.
Qed.


Lemma clamp_unit_cases (f : Q) :
  (f <= 0 /\ Qmin 1 (Qmax 0 f) == 0) \/
  (1 <= f /\ Qmin 1 (Qmax 0 f) == 1) \/
  (0 <= f /\ f <= 1 /\ Qmin 1 (Qmax 0 f) == f).
Proof.
  destruct (Q.max_spec 0 f) as [[Hm Em] | [Hm Em]];
    destruct (Q.min_spec 1 (Qmax 0 f)) as [[Hn En] | [Hn En]];
    rewrite En; clear En.
  - right. left. split; lra.
  - destruct (Qlt_le_dec f 1) as [Hlt | Hge].
    + right. right. split; [lra|]. split; lra.
    + right. left. split; lra.
  - right. left. split; lra.
  - left. split; lra.
Qed.

Lemma manualProgressOf_unit (isWorkMode : bool) (timeLeft : Q) :
  0 <= manualProgressOf isWorkMode timeLeft /\
  manualProgressOf isWorkMode timeLeft <= 1.
Proof.
  unfold manualProgressOf. cbn zeta.
  destruct (clamp_unit_cases
              (binary64 (binary64 (totalTime isWorkMode - timeLeft)
                      / totalTime isWorkMode)))
    as [[? E] | [[? E] | (? & ? & E)]]; rewrite E; split; lra.
Qed.

Lemma quotient_mono (isWorkMode : bool) (a b : Q) :
  a <= b -> a / totalTime isWorkMode <= b / totalTime isWorkMode.
Proof.
  intros H. unfold Qdiv. apply Qmult_le_compat_r; [done|].
  apply Qinv_le_0_compat. destruct (totalTime_cases isWorkMode); lra.
Qed.

Lemma quotient_total (isWorkMode : bool) :
  totalTime isWorkMode / totalTime isWorkMode == 1.
Proof.
  unfold Qdiv. apply Qmult_inv_r.
  destruct (totalTime_cases isWorkMode); lra.
Qed.

Lemma manualProgressOf_at_zero (isWorkMode : bool) (timeLeft : Q) :
  timeLeft <= 0 -> manualProgressOf isWorkMode timeLeft == 1.
Proof.
  intros Hle. unfold manualProgressOf. cbn zeta.
  set (total := totalTime isWorkMode).
  set (f := binary64 (binary64 (total - timeLeft) / total)).
  assert (Hf : 1 <= f).
  { unfold f. apply binary64_above; [|apply binary64_1].
    rewrite <- (quotient_total isWorkMode). apply quotient_mono.
    apply binary64_above; [unfold total; lra | apply binary64_totalTime]. }
  destruct (clamp_unit_cases f) as [[? E] | [[? E] | (? & ? & E)]];
    rewrite E; lra.
Qed.

Lemma manualProgressOf_accuracy (isWorkMode : bool) (timeLeft : Q) :
  0 <= timeLeft -> timeLeft <= totalTime isWorkMode ->
  Qabs (manualProgressOf isWorkMode timeLeft
        - (1 - timeLeft / totalTime isWorkMode)) <= 2 * eps64.
Proof.
  intros H0 H1.
  destruct (fraction_bounds isWorkMode timeLeft H0 H1) as [Hb1 Hb2].
  unfold manualProgressOf. cbn zeta.
  set (total := totalTime isWorkMode) in *.
  set (f := binary64 (binary64 (total - timeLeft) / total)) in *.
  assert (Hr0 : 0 <= timeLeft / total).
  { assert (E : 0 == 0 / total) by (unfold Qdiv; lra).
    rewrite E. by apply quotient_mono. }
  assert (Hr1 : timeLeft / total <= 1).
  { rewrite <- (quotient_total isWorkMode). by apply quotient_mono. }
  destruct eps64_small as [He0 He1].
  apply Qabs_diff.
  destruct (clamp_unit_cases f) as [[? E] | [[? E] | (? & ? & E)]];
    rewrite E; split; lra.
Qed.

Lemma manualProgressOf_below_one (isWorkMode : bool) (timeLeft : Q) :
  0 <= timeLeft -> timeLeft <= totalTime isWorkMode ->
  2 * eps64 * totalTime isWorkMode < timeLeft ->
  manualProgressOf isWorkMode timeLeft < 1.
Proof.
  intros H0 H1 Hgt.
  pose proof (manualProgressOf_accuracy isWorkMode timeLeft H0 H1) as Hacc.
  apply Qabs_diff in Hacc. destruct Hacc as [_ Hacc].
  assert (Hr : 2 * eps64 < timeLeft / totalTime isWorkMode).
  { apply Qlt_shift_div_l; [|lra].
    destruct (totalTime_cases isWorkMode); lra. }
  lra.
Qed.

(** X12: the progress that the application derives from the time left is
    always in [0,1] and never grows when the time left grows; it is 1
    when no time is left and 0 when the whole session is left; within
    the session it is within 2 eps64 of 1 - timeLeft / total, so it is
    below 1 as soon as the time left exceeds 2 eps64 total. *)
Theorem manualProgressOf_range (isWorkMode : bool) (timeLeft other : Q) :
  (0 <= manualProgressOf isWorkMode timeLeft /\
   manualProgressOf isWorkMode timeLeft <= 1) /\
  (timeLeft <= 0 -> manualProgressOf isWorkMode timeLeft == 1) /\
  (totalTime isWorkMode <= timeLeft ->
   manualProgressOf isWorkMode timeLeft == 0) /\
  (timeLeft <= other ->
   manualProgressOf isWorkMode other
   <= manualProgressOf isWorkMode timeLeft) /\
  (0 <= timeLeft -> timeLeft <= totalTime isWorkMode ->
   Qabs (manualProgressOf isWorkMode timeLeft
         - (1 - timeLeft / totalTime isWorkMode)) <= 2 * eps64) /\
  (0 <= timeLeft -> timeLeft <= totalTime isWorkMode ->
   2 * eps64 * totalTime isWorkMode < timeLeft ->
   manualProgressOf isWorkMode timeLeft < 1).
Proof.
  split; [apply manualProgressOf_unit|].
  split; [apply manualProgressOf_at_zero|].
  split; [|split; [|split;
    [apply manualProgressOf_accuracy | apply manualProgressOf_below_one]]].
  - intros Hge. unfold manualProgressOf. cbn zeta.
    set (total := totalTime isWorkMode) in *.
    set (f := binary64 (binary64 (total - timeLeft) / total)).
    assert (Hf : f <= 0).
    { unfold f. apply binary64_below; [|apply binary64_0].
      assert (E : 0 == 0 / total) by (unfold Qdiv; lra).
      rewrite E. apply quotient_mono.
      apply binary64_below; [lra | apply binary64_0]. }
    destruct (clamp_unit_cases f) as [[? E] | [[? E] | (? & ? & E)]];
      rewrite E; lra.
  - intros Hle. unfold manualProgressOf. cbn zeta.
    set (total := totalTime isWorkMode) in *.
    assert (Hmono :
      binary64 (binary64 (total - other) / total)
      <= binary64 (binary64 (total - timeLeft) / total)).
    { apply binary64_mono, quotient_mono.
      apply binary64_mono. lra. }
    set (f := binary64 (binary64 (total - timeLeft) / total)) in *.
    set (g := binary64 (binary64 (total - other) / total)) in *.
    destruct (clamp_unit_cases f) as [[? E] | [[? E] | (? & ? & E)]];
      destruct (clamp_unit_cases g) as [[? F] | [[? F] | (? & ? & F)]];
      rewrite E, F; lra.
Qed.

(** X13: the scrub slider and the progress are inverse to each other up
    to rounding: the time stored for a progress p in [0,1] yields p
    back within 4 eps64, and the progress of a time within the session
    yields that time back within (3 total + 1) eps64. *)
Theorem manualProgress_round_trip (isWorkMode : bool) (p timeLeft : Q) :
  (0 <= p -> p <= 1 ->
   Qabs (manualProgressOf isWorkMode
           (timeForProgress isWorkMode p) - p) <= 4 * eps64) /\
  (0 <= timeLeft -> timeLeft <= totalTime isWorkMode ->
   Qabs (timeForProgress isWorkMode
           (manualProgressOf isWorkMode timeLeft) - timeLeft)
   <= (3 * totalTime isWorkMode + 1) * eps64).
Proof.
  pose proof (binary64_totalTime isWorkMode) as Ht.
  pose proof (totalTime_cases isWorkMode) as Htot.
  destruct eps64_small as [He0 He1].
  assert (Hpos : 300 <= totalTime isWorkMode /\ totalTime isWorkMode <= 1500)
    by (destruct Htot; lra).
  destruct Hpos as [Hlo Hhi].
  split.
  - intros H0 H1.
    set (t := timeForProgress isWorkMode p).
    assert (Ht0 : 0 <= t /\ t <= totalTime isWorkMode).
    { unfold t, timeForProgress. split.
      - apply binary64_nonneg.
        assert (0 <= binary64 (1 - p)) by (apply binary64_nonneg; lra).
        nra.
      - apply binary64_below; [|done].
        assert (binary64 (1 - p) <= 1) by (apply binary64_le_1; lra).
        nra. }
    destruct Ht0 as [Ht0 Ht1].
    pose proof (manualProgressOf_accuracy isWorkMode t Ht0 Ht1) as Hacc.
    apply Qabs_diff in Hacc.
    destruct Hacc as [Hm1 Hm2].
    (* the stored time is close to total (1 - p) *)
    assert (Hclose : totalTime isWorkMode * (1 - p) - (totalTime isWorkMode + 1) * eps64 <= t
                     /\ t <= totalTime isWorkMode * (1 - p) + (totalTime isWorkMode + 1) * eps64).
    { unfold t, timeForProgress.
      destruct (binary64_near (1 - p)) as [Hr1 Hr2]; [lra | lra |].
      set (r := binary64 (1 - p)) in *.
      assert (Hr0 : 0 <= r) by (apply binary64_nonneg; lra).
      assert (Hr3 : r <= 1) by (apply binary64_le_1; lra).
      destruct (binary64_near (totalTime isWorkMode * r)) as [Hs1 Hs2];
        [nra | nra |].
      split; nra. }
    destruct Hclose as [Hc1 Hc2].
    set (total := totalTime isWorkMode) in *.
    assert (Hinv : 0 < / total) by (apply Qinv_lt_0_compat; lra).
    assert (Hone : total * / total == 1) by (apply Qmult_inv_r; lra).
    assert (Hsmall : / total <= 1 # 300) by (apply Qle_shift_inv_r; lra).
    unfold Qdiv in *. set (i := / total) in *.
    apply Qabs_diff.
    assert (Hti1 : (1 - p) - (1 + i) * eps64 <= t * i).
    { assert (E : (1 - p) - (1 + i) * eps64
                  == (total * (1 - p) - (total + 1) * eps64) * i)
        by (ring_simplify; nra).
      rewrite E. apply Qmult_le_compat_r; lra. }
    assert (Hti2 : t * i <= (1 - p) + (1 + i) * eps64).
    { assert (E : (1 - p) + (1 + i) * eps64
                  == (total * (1 - p) + (total + 1) * eps64) * i)
        by (ring_simplify; nra).
      rewrite E. apply Qmult_le_compat_r; lra. }
    assert (Hie : i * eps64 <= eps64) by nra.
    split; nra.
  - intros H0 H1.
    destruct (manualProgressOf_unit isWorkMode timeLeft) as [Hm0 Hm1].
    pose proof (manualProgressOf_accuracy isWorkMode timeLeft H0 H1) as Hacc.
    apply Qabs_diff in Hacc.
    destruct Hacc as [Ha1 Ha2].
    set (m := manualProgressOf isWorkMode timeLeft) in *.
    unfold timeForProgress.
    destruct (binary64_near (1 - m)) as [Hr1 Hr2]; [lra | lra |].
    set (r := binary64 (1 - m)) in *.
    assert (Hr0 : 0 <= r) by (apply binary64_nonneg; lra).
    assert (Hr3 : r <= 1) by (apply binary64_le_1; lra).
    set (total := totalTime isWorkMode) in *.
    destruct (binary64_near (total * r)) as [Hs1 Hs2]; [nra | nra |].
    assert (Hinv : 0 < / total) by (apply Qinv_lt_0_compat; lra).
    assert (Hone : total * / total == 1) by (apply Qmult_inv_r; lra).
    unfold Qdiv in *. set (i := / total) in *.
    assert (Hback : total * (timeLeft * i) == timeLeft) by nra.
    apply Qabs_diff. split; nra.
Qed.

(** *** The countdown *)

Lemma timerTick_step (speedMultiplier prev : Q) :
  0 <= speedMultiplier -> speedMultiplier <= 300 ->
  0 <= prev -> prev <= 2048 -> binary64 prev == prev ->
  0 <= timerTick speedMultiplier prev /\
  timerTick speedMultiplier prev <= prev /\
  binary64 (timerTick speedMultiplier prev)
  == timerTick speedMultiplier prev /\
  Qabs (timerTick speedMultiplier prev
        - exactTick speedMultiplier prev) <= (2 + speedMultiplier) * eps64.
Proof.
  intros Hs0 Hs1 Hp0 Hp1 Hrep.
  destruct eps64_small as [He0 He1].
  unfold timerTick, exactTick, tenth. cbn zeta.
  destruct (binary64_near (1 # 10)) as [Ht1 Ht2]; [lra | lra |].
  assert (Ht0 : 0 <= binary64 (1 # 10)) by (apply binary64_nonneg; lra).
  set (tau := binary64 (1 # 10)) in *.
  destruct (binary64_near (speedMultiplier * tau)) as [Hq1 Hq2]; [nra | nra |].
  assert (Hq0 : 0 <= binary64 (speedMultiplier * tau))
    by (apply binary64_nonneg; nra).
  set (step := binary64 (speedMultiplier * tau)) in *.
  assert (Hstep : step <= 31) by nra.
  destruct (binary64_near (prev - step)) as [Hn1 Hn2]; [lra | lra |].
  assert (Hle : binary64 (prev - step) <= prev)
    by (apply binary64_below; [lra | done]).
  set (next := binary64 (prev - step)) in *.
  assert (Hnear : speedMultiplier * (1 # 10) - (1 + speedMultiplier) * eps64
                  <= step
                  /\ step <= speedMultiplier * (1 # 10)
                             + (1 + speedMultiplier) * eps64) by (split; nra).
  destruct Hnear as [Hk1 Hk2].
  destruct (Qle_bool next 0) eqn:E.
  - apply Qle_bool_iff in E.
    split; [lra|]. split; [done|]. split; [apply binary64_0|].
    apply Qabs_diff.
    destruct (Q.max_spec 0 (prev - speedMultiplier * (1 # 10)))
      as [[Hm Em] | [Hm Em]]; rewrite Em; split; nra.
  - assert (Hpos : 0 < next).
    { apply Qnot_le_lt. intros H. apply Qle_bool_iff in H. congruence. }
    split; [lra|]. split; [done|]. split; [apply binary64_idem|].
    apply Qabs_diff.
    destruct (Q.max_spec 0 (prev - speedMultiplier * (1 # 10)))
      as [[Hm Em] | [Hm Em]]; rewrite Em; split; nra.
Qed.

Lemma exactTick_iter (speedMultiplier timeLeft : Q) (n : nat) :
  0 <= speedMultiplier ->
  exactTick speedMultiplier
    (Qmax 0 (timeLeft - ofNat n * speedMultiplier * (1 # 10)))
  == Qmax 0 (timeLeft - ofNat (S n) * speedMultiplier * (1 # 10)).
Proof.
  intros Hs. unfold exactTick. pose proof (ofNat_S n) as ES.
  pose proof (ofNat_nonneg n) as Hn.
  set (N := ofNat n) in *. set (N' := ofNat (S n)) in *.
  destruct (Q.max_spec 0 (timeLeft - N * speedMultiplier * (1 # 10)))
    as [[Hm Em] | [Hm Em]]; rewrite Em; clear Em;
    destruct (Q.max_spec 0 (timeLeft - N' * speedMultiplier * (1 # 10)))
      as [[Hk Ek] | [Hk Ek]]; rewrite Ek; clear Ek;
    match goal with
    | |- Qmax 0 ?a == _ =>
        destruct (Q.max_spec 0 a) as [[Hj Ej] | [Hj Ej]]; rewrite Ej
    end; nra.
Qed.

Lemma exactTick_close (speedMultiplier a b d : Q) :
  Qabs (a - b) <= d ->
  Qabs (exactTick speedMultiplier a - exactTick speedMultiplier b) <= d.
Proof.
  intros H. apply Qabs_diff in H. destruct H as [H1 H2].
  apply Qabs_diff. unfold exactTick.
  destruct (Q.max_spec 0 (a - speedMultiplier * (1 # 10)))
    as [[Hm Em] | [Hm Em]]; rewrite Em; clear Em;
    destruct (Q.max_spec 0 (b - speedMultiplier * (1 # 10)))
      as [[Hk Ek] | [Hk Ek]]; rewrite Ek; clear Ek; split; lra.
Qed.

(** X14: with a speed between 0 and 300 and a time left of at most 2048 s
    that is a double, the countdown never becomes negative, never
    grows, stays at zero once it is there, and after n ticks differs
    from max(0, timeLeft - n speed / 10) by at most n (2 + speed) eps64. *)
Theorem timerTick_countdown (speedMultiplier timeLeft : Q) (n : nat) :
  0 <= speedMultiplier -> speedMultiplier <= 300 ->
  0 <= timeLeft -> timeLeft <= 2048 -> binary64 timeLeft == timeLeft ->
  let left := Nat.iter n (timerTick speedMultiplier) timeLeft in
  0 <= left /\ left <= timeLeft /\
  timerTick speedMultiplier left <= left /\
  (left == 0 -> timerTick speedMultiplier left == 0) /\
  Qabs (left - Qmax 0 (timeLeft - ofNat n * speedMultiplier * (1 # 10)))
  <= ofNat n * (2 + speedMultiplier) * eps64.
Proof.
  intros Hs0 Hs1 Ht0 Ht1 Hrep. cbn zeta.
  destruct eps64_small as [He0 He1].
  assert (Hinv :
    0 <= Nat.iter n (timerTick speedMultiplier) timeLeft /\
    Nat.iter n (timerTick speedMultiplier) timeLeft <= timeLeft /\
    binary64 (Nat.iter n (timerTick speedMultiplier) timeLeft)
    == Nat.iter n (timerTick speedMultiplier) timeLeft /\
    Qabs (Nat.iter n (timerTick speedMultiplier) timeLeft
          - Qmax 0 (timeLeft - ofNat n * speedMultiplier * (1 # 10)))
    <= ofNat n * (2 + speedMultiplier) * eps64).
  { induction n as [|n IH].
    - change (Nat.iter 0 (timerTick speedMultiplier) timeLeft)
        with timeLeft.
      change (ofNat 0) with 0.
      split; [done|]. split; [lra|]. split; [done|].
      apply Qabs_diff. rewrite Q.max_r by lra. split; lra.
    - destruct IH as (H0 & H1 & Hr & Hacc).
      change (Nat.iter (S n) (timerTick speedMultiplier) timeLeft)
        with (timerTick speedMultiplier
                (Nat.iter n (timerTick speedMultiplier) timeLeft)).
      set (x := Nat.iter n (timerTick speedMultiplier) timeLeft) in *.
      destruct (timerTick_step speedMultiplier x)
        as (K0 & K1 & Kr & Kacc); [done | done | done | lra | done |].
      split; [done|]. split; [lra|]. split; [done|].
      pose proof (exactTick_close speedMultiplier _ _ _ Hacc) as Hex.
      rewrite exactTick_iter in Hex by done.
      pose proof (ofNat_S n) as ES.
      apply Qabs_diff in Kacc. apply Qabs_diff in Hex. apply Qabs_diff.
      destruct Kacc, Hex.
      set (N := ofNat n) in *. set (N' := ofNat (S n)) in *.
      split; nra. }
  destruct Hinv as (H0 & H1 & Hr & Hacc).
  set (x := Nat.iter n (timerTick speedMultiplier) timeLeft) in *.
  destruct (timerTick_step speedMultiplier x)
    as (K0 & K1 & _); [done | done | done | lra | done |].
  split; [done|]. split; [done|]. split; [done|]. split; [|done].
  intros Hz. lra.
Qed.

(** ** Export: [getActiveModelData] *)

(** *** Colours: [getHex] after [setHex] *)

Lemma channel_byte (hex shift : Z) :
  (0 <= Z.land (Z.shiftr hex shift) 255 < 256)%Z.
Proof.
  change 255%Z with (Z.ones 8). rewrite Z.land_ones by lia.
  apply Z.mod_pos_bound. lia.
Qed.

Lemma channel_scaled (hex shift : Z) :
  Math_round_Z (clamp (Color.channel hex shift * 255) 0 255)
  = Z.land (Z.shiftr hex shift) 255.
Proof.
  pose proof (channel_byte hex shift) as Hc. unfold Color.channel.
  set (c := Z.land (Z.shiftr hex shift) 255) in *.
  assert (H0 : 0 <= inject_Z c)
    by (change 0 with (inject_Z 0); rewrite <- Zle_Qle; lia).
  assert (H1 : inject_Z c <= 255)
    by (change 255 with (inject_Z 255); rewrite <- Zle_Qle; lia).
  assert (E : inject_Z c / 255 * 255 == inject_Z c) by (field; lra).
  unfold Math_round_Z, clamp. apply Qfloor_unique.
  - rewrite E, Q.min_r, Q.max_r by (rewrite ?Q.min_r; lra). lra.
  - rewrite E, Q.min_r, Q.max_r by (rewrite ?Q.min_r; lra). lra.
Qed.

Lemma pack_bytes (hex : Z) :
  (Z.land (Z.shiftr hex 16) 255 * 65536
   + Z.land (Z.shiftr hex 8) 255 * 256
   + Z.land (Z.shiftr hex 0) 255
   = hex mod 16777216)%Z.
Proof.
  change 255%Z with (Z.ones 8). rewrite !Z.land_ones by lia.
  rewrite !Z.shiftr_div_pow2 by lia.
  change (2 ^ 16)%Z with 65536%Z. change (2 ^ 8)%Z with 256%Z.
  change (2 ^ 0)%Z with 1%Z. rewrite Z.div_1_r.
  Z.div_mod_to_equations. lia.
Qed.

Lemma getHex_setHex (hex : Z) :
  getHex (Color.setHex hex) = (hex mod 16777216)%Z.
Proof.
  unfold getHex, Color.setHex. cbn [Color.r Color.g Color.b].
  rewrite !channel_scaled. apply pack_bytes.
Qed.

Lemma getHex_setHex_rgb24 (color : Z) :
  rgb24 color -> getHex (Color.setHex color) = color.
Proof. intros H. rewrite getHex_setHex. by apply Z.mod_small. Qed.

Section ExportLoaded.
Variable FLOOR_Y : Q.

(** X15: exporting right after [loadInitialModel] gives the loaded list
    back, each colour reduced to its low 24 bits; a list of 24-bit
    colours comes back unchanged. *)
Theorem export_after_load (now : Z) (data : list VoxelData.t)
    (e : VoxelEngine) :
  getActiveModelData (loadInitialModel FLOOR_Y now data e)
  = map (fun d => VoxelData.mk (VoxelData.x d) (VoxelData.y d)
                               (VoxelData.z d)
                               (VoxelData.color d mod 16777216))
        data /\
  (Forall (fun d => rgb24 (VoxelData.color d)) data ->
   getActiveModelData (loadInitialModel FLOOR_Y now data e) = data).
Proof.
  assert (E : getActiveModelData (loadInitialModel FLOOR_Y now data e)
              = map (fun d => VoxelData.mk (VoxelData.x d) (VoxelData.y d)
                                 (VoxelData.z d)
                                 (VoxelData.color d mod 16777216))
                    data).
  { change (getActiveModelData (loadInitialModel FLOOR_Y now data e))
      with (map exportVoxel (imap newVoxel data)).
    apply list_eq. intros i.
    rewrite !list_lookup_fmap, list_lookup_imap.
    destruct (data !! i) as [d|]; [|done]. cbn.
    unfold exportVoxel, newVoxel.
    cbn [SimulationVoxel.x SimulationVoxel.y SimulationVoxel.z
         SimulationVoxel.color].
    by rewrite getHex_setHex. }
  split; [exact E|]. intros H24. rewrite E.
  rewrite <- (map_id data) at 2. apply map_ext_in.
  intros d Hd. apply list_elem_of_In in Hd.
  pose proof (proj1 (Forall_forall _ _) H24 d Hd) as Hc.
  destruct d as [x y z c]. cbn in *. f_equal. by apply Z.mod_small.
Qed.
End ExportLoaded.


(** ** The ranks of the voxels after [rebuild] *)

(** A list can be chosen from a choice at every position. *)
Lemma list_choice {A : Type} (P : nat -> A -> Prop) (n : nat) :
  (forall i : nat, (i < n)%nat -> exists a : A, P i a) ->
  exists l : list A,
    length l = n /\ forall (i : nat) (a : A), l !! i = Some a -> P i a.
Proof.
  induction n as [|n IH]; intros H.
  - exists []. split; [done|]. intros i a Hi. by rewrite lookup_nil in Hi.
  - destruct IH as (l & Hl & Hin); [intros i Hi; apply H; lia|].
    destruct (H n) as [a Ha]; [lia|].
    exists (l ++ [a]). split; [rewrite length_app; cbn; lia|].
    intros i b Hi. apply lookup_app_Some in Hi.
    destruct Hi as [Hi | [Hge Hi]]; [by apply Hin|].
    rewrite Hl in Hi, Hge.
    destruct (i - n)%nat as [|k] eqn:E; [|by destruct k].
    injection Hi as <-. by replace i with n by lia.
Qed.

Lemma freeCount_zero (ms : list (option RebuildTarget.t)) (i : nat) :
  freeCount ms = 0%nat -> ms !! i <> Some None.
Proof.
  unfold freeCount. revert i.
  induction ms as [|m ms IH]; intros i H Hi; [by rewrite lookup_nil in Hi|].
  destruct (decide (m = None)) as [-> | Hm].
  - by rewrite filter_cons_True in H by done.
  - rewrite filter_cons_False in H by done.
    destruct i as [|i]; cbn in Hi; [congruence|]. by apply (IH i).
Qed.

Lemma ranks_Permutation (ranks : list nat) (n : nat) :
  NoDup ranks ->
  length ranks = n ->
  (forall k : nat, k ∈ ranks -> (k < n)%nat) ->
  ranks ≡ₚ seq 0 n.
Proof.
  intros Hnd Hlen Hlt. apply submseteq_length_Permutation.
  - apply NoDup_submseteq; [done|]. intros k Hk.
    apply elem_of_seq. split; [lia|]. cbn. by apply Hlt.
  - by rewrite length_seq, Hlen.
Qed.

(** When the store is no longer than the target list and its colours
    are in range, the matching loop gives every voxel a rank, and the
    ranks of the voxels are the ranks 0..N-1 in some order. *)
Lemma rebuild_ranks (targetModel : list VoxelData.t) (e : VoxelEngine) :
  colorsValid e ->
  (length (voxels e) <= length targetModel)%nat ->
  exists ranks : list nat,
    ranks ≡ₚ seq 0 (length targetModel) /\
    forall (i k : nat), ranks !! i = Some k ->
      exists (target : VoxelData.t) (v : SimulationVoxel.t),
        sort_by_y targetModel !! k = Some target /\
        mappings (matchingOf targetModel e) !! i
        = Some (Some (mapping_of (length (sort_by_y targetModel)) k target)) /\
        m_voxels (matchingOf targetModel e) !! i = Some v /\
        SimulationVoxel.color v = Color.setHex (VoxelData.color target).
Proof.
  intros Hval Hlen.
  set (sorted := sort_by_y targetModel).
  set (st := matchingOf targetModel e).
  pose proof (rebuild_inv targetModel e) as Hinv.
  pose proof (rebuild_full targetModel e Hval) as Hfull.
  fold sorted st in Hinv, Hfull.
  assert (HN : length sorted = length targetModel)
    by apply sort_by_y_length.
  replace (Nat.max (length (voxels e)) (length targetModel))
    with (length sorted) in Hinv, Hfull by lia.
  assert (Hrank : forall i : nat, (i < length sorted)%nat ->
    exists k : nat,
      (exists (target : VoxelData.t) (v : SimulationVoxel.t),
         sorted !! k = Some target /\
         mappings st !! i
         = Some (Some (mapping_of (length sorted) k target)) /\
         m_voxels st !! i = Some v /\
         SimulationVoxel.color v = Color.setHex (VoxelData.color target))).
  { intros i Hi.
    destruct (lookup_lt_is_Some_2 (mappings st) i) as [m Hm];
      [by rewrite (inv_len_mappings _ _ _ _ Hinv)|].
    destruct m as [t|].
    2:{ exfalso. apply (freeCount_zero (mappings st) i); [|done].
        pose proof (full_count _ _ _ _ Hfull). lia. }
    destruct (inv_claimed _ _ _ _ Hinv i t Hm)
      as (k & target & v & _ & Hk & -> & Hv & Hc).
    by exists k, target, v. }
  destruct (list_choice _ _ Hrank) as (ranks & Hrl & Hr).
  exists ranks. split; [|exact Hr].
  rewrite <- HN. apply ranks_Permutation; [|done|].
  - apply NoDup_alt. intros i j k Hi Hj.
    destruct (Hr i k Hi) as (tg & w & _ & Hmi & _).
    destruct (Hr j k Hj) as (tg' & w' & _ & Hmj & _).
    by apply (inv_distinct _ _ _ _ Hinv i j _ _ Hmi Hmj).
  - intros k Hk. apply list_elem_of_lookup in Hk. destruct Hk as [i Hi].
    destruct (Hr i k Hi) as (tg & w & Hs & _). by eapply lookup_lt_Some.
Qed.


(** ** Export after a finished rebuild *)

(** Reading a list at a permutation of its positions. *)
Lemma lookups_Permutation (sorted : list VoxelData.t) (ranks : list nat) :
  ranks ≡ₚ seq 0 (length sorted) ->
  (fun k => sorted !!! k) <$> ranks ≡ₚ sorted.
Proof.
  intros Hperm. rewrite Hperm.
  assert (E : (fun k => sorted !!! k) <$> seq 0 (length sorted) = sorted);
    [|by rewrite E].
  apply list_eq. intros i. rewrite list_lookup_fmap.
  destruct (decide (i < length sorted)%nat) as [Hi | Hi].
  - rewrite lookup_seq_lt by done. cbn.
    destruct (lookup_lt_is_Some_2 sorted i Hi) as [w Hw].
    by rewrite Hw, (list_lookup_total_correct _ _ _ Hw).
  - rewrite (proj2 (lookup_ge_None sorted i)) by lia.
    by rewrite (proj2 (lookup_ge_None (seq 0 (length sorted)) i))
      by (rewrite length_seq; lia).
Qed.

Section ExportRebuilt.
Variable FLOOR_Y : Q.

(** X16: when the store is no longer than the target list, a rebuild that
    is finished leaves exactly the target model in the store: the export
    is a permutation of the target list (24-bit colours, colours of the
    store in range). *)
Theorem export_after_finished_rebuild (now now' : Z)
    (targetModel : list VoxelData.t) (progressive : bool)
    (e : VoxelEngine) :
  colorsValid e ->
  (length (voxels e) <= length targetModel)%nat ->
  Forall (fun d => rgb24 (VoxelData.color d)) targetModel ->
  getActiveModelData
    (finishRebuild FLOOR_Y now'
       (rebuild FLOOR_Y now targetModel progressive e))
  ≡ₚ targetModel.
Proof.
  intros Hval Hlen H24.
  set (sorted := sort_by_y targetModel).
  set (st := matchingOf targetModel e).
  assert (HN : length sorted = length targetModel)
    by apply sort_by_y_length.
  destruct (rebuild_fields FLOOR_Y now targetModel progressive e)
    as (Hvs & Hts & _).
  fold st in Hvs, Hts.
  (* the store after [finishRebuild] *)
  assert (Hexp : getActiveModelData
            (finishRebuild FLOOR_Y now'
               (rebuild FLOOR_Y now targetModel progressive e))
          = map exportVoxel
              (imap (snapVoxel FLOOR_Y
                       (map (fillRubble FLOOR_Y) (mappings st)))
                    (m_voxels st))).
  { unfold getActiveModelData, finishRebuild.
    match goal with
    | |- context [draw FLOOR_Y now' ?e3] =>
        destruct (draw_frame FLOOR_Y now' e3) as (-> & _)
    end.
    change (map exportVoxel
              (imap (snapVoxel FLOOR_Y
                       (rebuildTargets
                          (rebuild FLOOR_Y now targetModel progressive e)))
                    (voxels (rebuild FLOOR_Y now targetModel progressive e)))
            = map exportVoxel
                (imap (snapVoxel FLOOR_Y
                         (map (fillRubble FLOOR_Y) (mappings st)))
                      (m_voxels st))).
    by rewrite Hvs, Hts. }
  rewrite Hexp. clear Hexp.
  set (out := map exportVoxel _).
  destruct (rebuild_ranks targetModel e Hval Hlen) as (ranks & Hperm & Hr).
  fold sorted st in Hr.
  assert (Hout : out = (fun k => sorted !!! k) <$> ranks).
  { apply list_eq_same_length with (length sorted).
    - by rewrite length_fmap, (Permutation_length Hperm), length_seq.
    - unfold out. rewrite length_map, length_imap.
      pose proof (inv_len_voxels _ _ _ _ (rebuild_inv targetModel e)) as Hl.
      fold st in Hl. rewrite Hl. lia.
    - intros i w w' Hi Hw Hw'.
      rewrite list_lookup_fmap in Hw'.
      destruct (ranks !! i) as [k|] eqn:Hk; [|done].
      destruct (Hr i k Hk) as (target & v & Hs & Hm & Hv & Hc).
      cbn in Hw'. rewrite (list_lookup_total_correct _ _ _ Hs) in Hw'.
      injection Hw' as <-.
      unfold out in Hw.
      rewrite list_lookup_fmap, list_lookup_imap, Hv in Hw. cbn in Hw.
      unfold snapVoxel in Hw. rewrite list_lookup_fmap, Hm in Hw.
      cbn in Hw. injection Hw as <-.
      unfold exportVoxel.
      cbn [SimulationVoxel.x SimulationVoxel.y SimulationVoxel.z
           SimulationVoxel.color RebuildTarget.x RebuildTarget.y
           RebuildTarget.z].
      rewrite Hc, getHex_setHex_rgb24.
      + by destruct target.
      + apply (proj1 (Forall_forall _ _) H24).
        apply (elem_of_Permutation_proper _ _ _ (sort_by_y_Permutation _)).
        by eapply list_elem_of_lookup_2. }
  rewrite Hout, <- (sort_by_y_Permutation targetModel).
  apply lookups_Permutation. by rewrite sort_by_y_length.
Qed.
End ExportRebuilt.


(** ** The progress effect and the sizes of the arrays *)

Section ProgressSync.
Variable FLOOR_Y : Q.

(** *** [setProgress], below and from 1 *)

Lemma setProgress_reaches_one (now : Z) (p : Q) (e : VoxelEngine) :
  1 <= p -> state e = REBUILDING ->
  setProgress FLOOR_Y now p e = finishRebuild FLOOR_Y now e.
Proof.
  intros Hp Hs. unfold setProgress. cbn zeta.
  rewrite (proj2 (Qgeb_true p 1) Hp).
  change (state (set_manualProgress p e)) with (state e).
  rewrite bool_decide_eq_true_2 by done. by destruct e.
Qed.

Lemma setProgress_below_one (now : Z) (p : Q) (e : VoxelEngine) :
  p < 1 -> setProgress FLOOR_Y now p e = set_manualProgress p e.
Proof.
  intros Hp. unfold setProgress. cbn zeta.
  by rewrite (proj2 (Qgeb_false p 1) Hp).
Qed.

(** X17: while the engine is REBUILDING, the effect that forwards the
    progress finishes the rebuild when no time is left, and whenever the
    progress it computes is 1; it only records a progress below 1, which
    is what happens as long as the time left exceeds 2 eps64 total; outside
    a session it does nothing. *)
Theorem syncProgress_completes_at_zero (now : Z) (isWorkMode : bool)
    (timeLeft : Q) (e : VoxelEngine) :
  state e = REBUILDING ->
  (timeLeft <= 0 ->
   syncProgress FLOOR_Y now true isWorkMode timeLeft e
   = finishRebuild FLOOR_Y now e) /\
  (1 <= manualProgressOf isWorkMode timeLeft ->
   syncProgress FLOOR_Y now true isWorkMode timeLeft e
   = finishRebuild FLOOR_Y now e) /\
  (manualProgressOf isWorkMode timeLeft < 1 ->
   syncProgress FLOOR_Y now true isWorkMode timeLeft e
   = set_manualProgress (manualProgressOf isWorkMode timeLeft) e) /\
  (0 <= timeLeft -> timeLeft <= totalTime isWorkMode ->
   2 * eps64 * totalTime isWorkMode < timeLeft ->
   manualProgressOf isWorkMode timeLeft < 1 /\
   syncProgress FLOOR_Y now true isWorkMode timeLeft e
   = set_manualProgress (manualProgressOf isWorkMode timeLeft) e) /\
  syncProgress FLOOR_Y now false isWorkMode timeLeft e = e.
Proof.
  intros Hs. unfold syncProgress.
  split; [|split; [|split; [|split; [|done]]]].
  - intros Ht. apply setProgress_reaches_one; [|done].
    rewrite (manualProgressOf_at_zero isWorkMode timeLeft Ht). lra.
  - intros Hp. by apply setProgress_reaches_one.
  - intros Hp. by apply setProgress_below_one.
  - intros H0 H1 Hgt.
    pose proof (manualProgressOf_below_one isWorkMode timeLeft H0 H1 Hgt).
    split; [done|]. by apply setProgress_below_one.
Qed.

(** *** One entry per voxel *)

Lemma draw_aligned (now : Z) (e : VoxelEngine) :
  length (rebuildTargets e) = length (voxels e) ->
  aligned (draw FLOOR_Y now e).
Proof.
  intros H. unfold aligned, draw.
  destruct (instanceMesh e) as [mesh|] eqn:E; cbn.
  - split; [done|]. by rewrite length_imap.
  - by rewrite E.
Qed.

(** X18: [loadInitialModel] leaves one target and one mesh slot per voxel,
    and [rebuild], [finishRebuild], [setProgress], a tick and
    [dismantle] keep it so. *)
Theorem aligned_kept (now : Z) (data : list VoxelData.t)
    (progressive : bool) (p : Q) (normalize : Q * Q * Q -> Q * Q * Q)
    (random : nat -> Q) (e : VoxelEngine) :
  aligned (loadInitialModel FLOOR_Y now data e) /\
  (aligned e ->
   aligned (rebuild FLOOR_Y now data progressive e) /\
   aligned (finishRebuild FLOOR_Y now e) /\
   aligned (setProgress FLOOR_Y now p e) /\
   aligned (animate FLOOR_Y now e) /\
   aligned (dismantle normalize random e)).
Proof.
  assert (Hfinish : forall e0, aligned e0 ->
    aligned (finishRebuild FLOOR_Y now e0)).
  { intros e0 [Ht _]. apply draw_aligned. cbn. by rewrite length_imap. }
  split.
  - unfold aligned, loadInitialModel, createVoxels, draw. cbn.
    by rewrite !length_imap, length_map.
  - intros Hal. pose proof Hal as [Ht Hm].
    split; [|split; [|split; [|split]]].
    + split; [by rewrite length_rebuildTargets, length_rebuild_voxels|].
      rewrite length_rebuild_voxels. unfold rebuild, createVoxels, draw.
      cbn [voxels set_state emit set_isProgressive set_rebuildTargets
           set_voxels set_instanceMesh set_rebuildStartTime instanceMesh].
      destruct (Nat.ltb_spec (length (voxels e)) (length data)) as [Hlt|Hge].
      * cbn. rewrite !length_imap. lia.
      * cbn. destruct (instanceMesh e) as [mesh|]; [|done]. lia.
    + by apply Hfinish.
    + unfold setProgress. cbn zeta.
      destruct (_ && _); [by apply Hfinish | done].
    + apply draw_aligned. destruct (state e); cbn;
        by rewrite ?length_map, ?length_imap.
    + split; cbn; [by rewrite length_imap|].
      destruct (instanceMesh e); [|done]. by rewrite length_imap.
Qed.
End ProgressSync.


(** ** Counting, resting and parking *)

Lemma count_imap_mono {A : Type} (f g : nat -> A -> bool) (l : list A) :
  (forall i v, l !! i = Some v -> f i v = true -> g i v = true) ->
  (length (filter (fun b : bool => Is_true b) (imap f l))
   <= length (filter (fun b : bool => Is_true b) (imap g l)))%nat.
Proof.
  revert f g. induction l as [|a l IH]; intros f g H; [done|].
  rewrite !imap_cons, !filter_cons.
  assert (Hl : (length (filter (fun b : bool => Is_true b) (imap (f ∘ S) l))
          <= length (filter (fun b : bool => Is_true b) (imap (g ∘ S) l)))%nat).
  { apply IH. intros i v Hi. apply (H (S i) v Hi). }
  pose proof (H 0%nat a eq_refl) as H0.
  destruct (f 0%nat a); destruct (g 0%nat a);
    repeat case_decide; cbn [length] in *; try lia; try done;
    by specialize (H0 eq_refl).
Qed.

Lemma count_imap_le {A : Type} (f : nat -> A -> bool) (l : list A) :
  (length (filter (fun b : bool => Is_true b) (imap f l)) <= length l)%nat.
Proof.
  etrans; [apply length_filter|]. by rewrite length_imap.
Qed.

Lemma count_imap_all {A : Type} (f : nat -> A -> bool) (l : list A) :
  (forall i v, l !! i = Some v -> f i v = true) ->
  length (filter (fun b : bool => Is_true b) (imap f l)) = length l.
Proof.
  revert f. induction l as [|a l IH]; intros f H; [done|].
  rewrite imap_cons, filter_cons. rewrite (H 0%nat a eq_refl).
  rewrite decide_True by done. cbn [length]. f_equal.
  apply IH. intros i v Hi. apply (H (S i) v Hi).
Qed.

Lemma count_imap_none {A : Type} (f : nat -> A -> bool) (l : list A) :
  (forall i v, l !! i = Some v -> f i v = false) ->
  length (filter (fun b : bool => Is_true b) (imap f l)) = 0%nat.
Proof.
  revert f. induction l as [|a l IH]; intros f H; [done|].
  rewrite imap_cons, filter_cons. rewrite (H 0%nat a eq_refl).
  rewrite decide_False by (by intros []).
  apply IH. intros i v Hi. apply (H (S i) v Hi).
Qed.

Section EngineAtRest.
Variable FLOOR_Y : Q.

(** *** The count of active voxels *)

(** X19: the active count that [draw] reports never exceeds the size of
    the store; it is the whole store when STABLE and zero when
    DISMANTLING, and while REBUILDING it never drops when the progress
    grows (progressive rebuild) or when time passes (timed rebuild). *)
Theorem activeCount_bounds (now now' : Z) (p p' : Q) (e : VoxelEngine) :
  (forall mesh, instanceMesh e = Some mesh ->
     events (draw FLOOR_Y now e)
     = events e
       ++ [CountChange (activeCount FLOOR_Y now e) (length (voxels e))]) /\
  (activeCount FLOOR_Y now e <= length (voxels e))%nat /\
  (state e = STABLE -> activeCount FLOOR_Y now e = length (voxels e)) /\
  (state e = DISMANTLING -> activeCount FLOOR_Y now e = 0%nat) /\
  (isProgressive e = true -> p <= p' ->
   (activeCount FLOOR_Y now (set_manualProgress p e)
    <= activeCount FLOOR_Y now (set_manualProgress p' e))%nat) /\
  (isProgressive e = false -> (now <= now')%Z ->
   (activeCount FLOOR_Y now e <= activeCount FLOOR_Y now' e)%nat).
Proof.
  split; [|split; [|split; [|split; [|split]]]].
  - intros mesh Hm. unfold draw. by rewrite Hm.
  - apply count_imap_le.
  - intros Hs. apply count_imap_all. intros i v _.
    unfold slotScale. by rewrite Hs.
  - intros Hs. apply count_imap_none. intros i v _.
    unfold slotScale. by rewrite Hs.
  - intros Hp Hle. apply count_imap_mono. intros i v _.
    unfold slotScale.
    change (state (set_manualProgress ?q e)) with (state e).
    change (rebuildTargets (set_manualProgress ?q e)) with (rebuildTargets e).
    destruct (state e); try done.
    destruct (rebuildTargets e !! i) as [t|]; [|done].
    destruct (RebuildTarget.rubble t); [done|].
    unfold isUnlocked.
    change (isProgressive (set_manualProgress ?q e)) with (isProgressive e).
    rewrite Hp.
    change (manualProgress (set_manualProgress ?q e)) with q.
    destruct (Qgeb p (RebuildTarget.delay t)) eqn:E.
    + apply Qgeb_true in E.
      assert (E' : Qgeb p' (RebuildTarget.delay t) = true)
        by (apply Qgeb_true; lra).
      by rewrite E'.
    + by destruct (Qltb (SimulationVoxel.y v) (FLOOR_Y - 5)).
  - intros Hp Hle. apply count_imap_mono. intros i v _.
    unfold slotScale.
    destruct (state e); try done.
    destruct (rebuildTargets e !! i) as [t|]; [|done].
    destruct (RebuildTarget.rubble t); [done|].
    unfold isUnlocked. rewrite Hp.
    destruct (Qltb (RebuildTarget.delay t * 2) (elapsed now e)) eqn:E.
    + apply Qltb_true in E.
      assert (E' : Qltb (RebuildTarget.delay t * 2) (elapsed now' e) = true).
      { apply Qltb_true. eapply Qlt_le_trans; [exact E|].
        unfold elapsed, Qdiv. apply Qmult_le_compat_r; [|done].
        rewrite <- Zle_Qle. lia. }
      by rewrite E'.
    + by destruct (Qltb (SimulationVoxel.y v) (FLOOR_Y - 5)).
Qed.

(** *** A finished rebuild is at rest *)

Lemma ticks_stable (clock : list Z) (e : VoxelEngine) :
  state e = STABLE -> voxels (ticks FLOOR_Y clock e) = voxels e.
Proof.
  revert e. induction clock as [|now clock IH]; intros e Hs; [done|].
  rewrite ticks_cons, IH.
  - by rewrite animate_voxels, Hs.
  - by rewrite animate_state.
Qed.

Lemma snapVoxel_idempotent (targets : list RebuildTarget.t) (i : nat)
    (v : SimulationVoxel.t) :
  snapVoxel FLOOR_Y targets i (snapVoxel FLOOR_Y targets i v)
  = snapVoxel FLOOR_Y targets i v.
Proof.
  unfold snapVoxel. destruct (targets !! i) as [t|]; [|done].
  by destruct (RebuildTarget.rubble t).
Qed.

Lemma finishRebuild_fields (now : Z) (e : VoxelEngine) :
  voxels (finishRebuild FLOOR_Y now e)
  = imap (snapVoxel FLOOR_Y (rebuildTargets e)) (voxels e) /\
  rebuildTargets (finishRebuild FLOOR_Y now e) = rebuildTargets e.
Proof.
  unfold finishRebuild.
  match goal with
  | |- context [draw FLOOR_Y now ?e3] =>
      by destruct (draw_frame FLOOR_Y now e3) as (-> & -> & _)
  end.
Qed.

(** X20: once [finishRebuild] has run the sculpture is at rest: ticks no
    longer move any voxel, the state stays STABLE, and finishing again
    changes no voxel. *)
Theorem finishRebuild_at_rest (now now' : Z) (clock : list Z)
    (e : VoxelEngine) :
  let e' := finishRebuild FLOOR_Y now e in
  voxels (ticks FLOOR_Y clock e') = voxels e' /\
  state (ticks FLOOR_Y clock e') = STABLE /\
  voxels (finishRebuild FLOOR_Y now' e') = voxels e'.
Proof.
  intros e'.
  assert (Hs : state e' = STABLE) by apply finishRebuild_state.
  split; [by apply ticks_stable|]. split.
  - destruct (ticks_frame FLOOR_Y clock e') as (_ & _ & -> & _). done.
  - unfold e'.
    destruct (finishRebuild_fields now' (finishRebuild FLOOR_Y now e))
      as [-> _].
    destruct (finishRebuild_fields now e) as [-> ->].
    apply list_eq. intros i. rewrite !list_lookup_imap.
    destruct (voxels e !! i) as [v|]; [|done]. cbn.
    by rewrite snapVoxel_idempotent.
Qed.

(** *** Locked voxels *)

Lemma park_iter (n : nat) (v : SimulationVoxel.t) :
  SimulationVoxel.y v <= FLOOR_Y - 5 ->
  let v' := Nat.iter n (park FLOOR_Y) v in
  SimulationVoxel.x v' = SimulationVoxel.x v /\
  SimulationVoxel.z v' = SimulationVoxel.z v /\
  SimulationVoxel.y v' - (FLOOR_Y - 10)
  == Qpow (9 # 10) n * (SimulationVoxel.y v - (FLOOR_Y - 10)) /\
  SimulationVoxel.y v' <= FLOOR_Y - 5 /\
  ((1 <= n)%nat -> SimulationVoxel.y v' < FLOOR_Y - 5).
Proof.
  intros Hy. induction n as [|n IH]; cbn zeta.
  - change (Nat.iter 0 (park FLOOR_Y) v) with v. cbn [Qpow].
    repeat split; first [done | ring | lia].
  - cbn zeta in IH. destruct IH as (Hx & Hz & Hyn & Hle & _).
    change (Nat.iter (S n) (park FLOOR_Y) v)
      with (park FLOOR_Y (Nat.iter n (park FLOOR_Y) v)).
    set (w := Nat.iter n (park FLOOR_Y) v) in *.
    unfold park.
    cbn [SimulationVoxel.x SimulationVoxel.y SimulationVoxel.z Qpow].
    split; [done|]. split; [done|]. split; [|split; [lra | intros _; lra]].
    rewrite <- Qmult_assoc, <- Hyn. ring.
Qed.

Lemma ticks_locked (clock : list Z) (e : VoxelEngine) (i : nat)
    (v : SimulationVoxel.t) (t : RebuildTarget.t) :
  state e = REBUILDING ->
  voxels e !! i = Some v ->
  rebuildTargets e !! i = Some t ->
  RebuildTarget.rubble t = false ->
  Forall (fun now => isUnlocked now e t = false) clock ->
  SimulationVoxel.y v <= FLOOR_Y - 5 ->
  voxels (ticks FLOOR_Y clock e) !! i
  = Some (Nat.iter (length clock) (park FLOOR_Y) v).
Proof.
  revert e v. induction clock as [|now clock IH]; intros e v Hs Hv Ht Hr Hu Hy.
  { done. }
  apply Forall_cons in Hu. destruct Hu as [Hnow Hu].
  destruct (animate_frame FLOOR_Y now e) as (Hts & Hst & Hs' & Hp & Hm).
  rewrite ticks_cons. cbn [length]. rewrite Nat.iter_succ_r.
  apply IH.
  - by rewrite Hs'.
  - rewrite animate_voxels, Hs, list_lookup_imap, Hv. cbn.
    unfold rebuildStep. rewrite Ht, Hr, Hnow.
    by rewrite (proj2 (Qltb_false _ _) Hy).
  - by rewrite Hts.
  - done.
  - eapply Forall_impl; [exact Hu|]. intros now' H. cbn in *.
    by rewrite (isUnlocked_frame now' e _ t Hst Hp Hm).
  - destruct (park_iter 1 v Hy) as (_ & _ & _ & H & _). exact H.
Qed.

(** X21: while REBUILDING, a voxel that has sunk to five units below the
    floor and whose target stays locked is parked: it keeps its x and z,
    its distance to ten units below the floor shrinks by a tenth per
    tick, it never comes back above the threshold, and from the first
    tick on it is drawn at scale 0.0001 and not counted as active. *)
Theorem locked_voxel_parks (clock : list Z) (e : VoxelEngine) (i : nat)
    (v : SimulationVoxel.t) (t : RebuildTarget.t) :
  state e = REBUILDING ->
  voxels e !! i = Some v ->
  rebuildTargets e !! i = Some t ->
  RebuildTarget.rubble t = false ->
  Forall (fun now => isUnlocked now e t = false) clock ->
  SimulationVoxel.y v <= FLOOR_Y - 5 ->
  exists v' : SimulationVoxel.t,
    voxels (ticks FLOOR_Y clock e) !! i = Some v' /\
    SimulationVoxel.x v' = SimulationVoxel.x v /\
    SimulationVoxel.z v' = SimulationVoxel.z v /\
    SimulationVoxel.y v' - (FLOOR_Y - 10)
    == Qpow (9 # 10) (length clock) * (SimulationVoxel.y v - (FLOOR_Y - 10)) /\
    SimulationVoxel.y v' <= FLOOR_Y - 5 /\
    ((1 <= length clock)%nat ->
     forall now : Z, isUnlocked now e t = false ->
       slotScale FLOOR_Y now (ticks FLOOR_Y clock e) i v'
       = (1 # 10000, false)).
Proof.
  intros Hs Hv Ht Hr Hu Hy.
  exists (Nat.iter (length clock) (park FLOOR_Y) v).
  split; [by apply (ticks_locked clock e i v t)|].
  destruct (park_iter (length clock) v Hy) as (Hx & Hz & Hyn & Hle & Hlt).
  do 4 (split; [done|]).
  intros Hn now Hlocked. specialize (Hlt Hn).
  destruct (ticks_frame FLOOR_Y clock e) as (Hts & Hst & Hs' & Hp & Hm).
  unfold slotScale. rewrite Hs', Hs, Hts, Ht, Hr.
  rewrite (isUnlocked_frame now e _ t Hst Hp Hm), Hlocked.
  by rewrite (proj2 (Qltb_true _ _) Hlt).
Qed.

(** *** The unlock order *)

(** X22: of two matched targets that [rebuild] produces, the one that is
    strictly lower has a strictly smaller delay, so in whatever engine
    state the higher one is unlocked the lower one is unlocked too:
    the model grows from the ground up. *)
Theorem rebuild_unlocks_ground_up (now : Z) (targetModel : list VoxelData.t)
    (progressive : bool) (e : VoxelEngine) (i i' : nat)
    (ta tb : RebuildTarget.t) :
  rebuildTargets (rebuild FLOOR_Y now targetModel progressive e) !! i
  = Some ta ->
  rebuildTargets (rebuild FLOOR_Y now targetModel progressive e) !! i'
  = Some tb ->
  RebuildTarget.rubble ta = false ->
  RebuildTarget.rubble tb = false ->
  RebuildTarget.y ta < RebuildTarget.y tb ->
  RebuildTarget.delay ta < RebuildTarget.delay tb /\
  forall (now' : Z) (e' : VoxelEngine),
    isUnlocked now' e' tb = true -> isUnlocked now' e' ta = true.
Proof.
  intros Ha Hb Hra Hrb Hy.
  assert (Hd : RebuildTarget.delay ta < RebuildTarget.delay tb).
  { pose proof (rebuild_inv targetModel e) as Hinv.
    apply rebuild_target_matched in Ha; [|done].
    apply rebuild_target_matched in Hb; [|done].
    destruct (inv_claimed _ _ _ _ Hinv _ _ Ha)
      as (j & tga & _ & Hj & Hsa & -> & _).
    destruct (inv_claimed _ _ _ _ Hinv _ _ Hb)
      as (j' & tgb & _ & Hj' & Hsb & -> & _).
    cbn [mapping_of RebuildTarget.delay RebuildTarget.y] in *.
    destruct (lt_eq_lt_dec j j') as [[Hlt | ->] | Hgt].
    - apply ratio_lt; lia.
    - rewrite Hsa in Hsb. injection Hsb as ->. lra.
    - pose proof (sort_by_y_ascending targetModel j' j tgb tga Hgt Hsb Hsa).
      lra. }
  split; [done|]. intros now' e'. unfold isUnlocked.
  destruct (isProgressive e').
  - rewrite !Qgeb_true. lra.
  - rewrite !Qltb_true. lra.
Qed.

End EngineAtRest.

(** X23: a slider value between 0 and 100 is stored as a whole number of
    seconds within the session, and the percentage shown for that time
    differs from the slider value by at most 50 / totalTime. *)
Theorem scrub_round_trip (isWorkMode : bool) (percent : Q) :
  0 <= percent -> percent <= 100 ->
  let newTime := handleScrubChange isWorkMode percent in
  (exists n : Z, newTime = inject_Z n) /\
  0 <= newTime /\ newTime <= totalTime isWorkMode /\
  Qabs (progressPercent isWorkMode newTime - percent)
  <= 50 / totalTime isWorkMode.
Proof.
  intros H0 H1 newTime. unfold newTime, handleScrubChange, progressPercent.
  set (q := totalTime isWorkMode - percent / 100 * totalTime isWorkMode).
  destruct (Math_round_bounds q) as [Hlo Hhi].
  split; [by eexists|].
  assert (Hq : 0 <= q /\ q <= totalTime isWorkMode).
  { unfold q. destruct isWorkMode;
      unfold totalTime, POMODORO_WORK_TIME, POMODORO_BREAK_TIME, Qdiv;
      change (/ 100) with (1 # 100); lra. }
  destruct Hq as [Hq0 Hq1].
  split; [|split].
  - rewrite <- (Math_round_0 0) by reflexivity. by apply Math_round_mono.
  - assert (E : Math_round (totalTime isWorkMode) == totalTime isWorkMode)
      by (by destruct isWorkMode).
    rewrite <- E. by apply Math_round_mono.
  - apply (proj2 (Qabs_Qle_condition _ _)).
    set (r := Math_round q) in *. unfold q in *.
    destruct isWorkMode;
      unfold totalTime, POMODORO_WORK_TIME, POMODORO_BREAK_TIME, Qdiv in *.
    + change (/ (25 * 60)) with (1 # 1500).
      change (/ 100) with (1 # 100) in *. split; lra.
    + change (/ (5 * 60)) with (1 # 300).
      change (/ 100) with (1 # 100) in *. split; lra.
Qed.


(** ** The colour strings of the JSON blueprint *)

Lemma string_app_assoc (s1 s2 s3 : string) :
  ((s1 ++ s2) ++ s3 = s1 ++ (s2 ++ s3))%string.
Proof. induction s1 as [|a s1 IH]; [done|]. cbn. by rewrite IH. Qed.

Lemma string_app_nil_r (s : string) : (s ++ EmptyString = s)%string.
Proof. induction s as [|a s IH]; [done|]. cbn. by rewrite IH. Qed.

Lemma string_length_app (s1 s2 : string) :
  String.length (s1 ++ s2) = (String.length s1 + String.length s2)%nat.
Proof. induction s1 as [|a s1 IH]; [done|]. cbn. by rewrite IH. Qed.

Lemma hexDigit_value (d : Z) :
  (0 <= d < 16)%Z -> digitValue (hexDigit d) = Some d.
Proof.
  intros H.
  assert (C : (d = 0 \/ d = 1 \/ d = 2 \/ d = 3 \/ d = 4 \/ d = 5 \/ d = 6
               \/ d = 7 \/ d = 8 \/ d = 9 \/ d = 10 \/ d = 11 \/ d = 12
               \/ d = 13 \/ d = 14 \/ d = 15)%Z) by lia.
  repeat destruct C as [-> | C]; try subst d; reflexivity.
Qed.

Lemma hexDigit_plain (d : Z) :
  (0 <= d < 16)%Z ->
  isWhiteSpace (hexDigit d) = false /\
  hexDigit d <> "-"%char /\ hexDigit d <> "+"%char /\
  hexDigit d <> "x"%char /\ hexDigit d <> "X"%char /\
  hexDigit d <> "#"%char.
Proof.
  intros H.
  assert (C : (d = 0 \/ d = 1 \/ d = 2 \/ d = 3 \/ d = 4 \/ d = 5 \/ d = 6
               \/ d = 7 \/ d = 8 \/ d = 9 \/ d = 10 \/ d = 11 \/ d = 12
               \/ d = 13 \/ d = 14 \/ d = 15)%Z) by lia.
  repeat destruct C as [-> | C]; try subst d; by repeat split.
Qed.

Lemma toHex_acc (fuel : nat) (n : Z) (acc : string) :
  toHex fuel n acc = (toHex fuel n EmptyString ++ acc)%string.
Proof.
  revert n acc. induction fuel as [|fuel IH]; intros n acc; [done|].
  cbn [toHex]. destruct (n =? 0)%Z; [done|].
  rewrite (IH _ (String _ acc)), (IH _ (String _ EmptyString)).
  by rewrite string_app_assoc.
Qed.

Lemma lowerHex_app (s1 s2 : string) :
  lowerHex s1 -> lowerHex s2 -> lowerHex (s1 ++ s2).
Proof.
  induction s1 as [|a s1 IH]; [done|]. intros [Ha H1] H2.
  split; [done|]. by apply IH.
Qed.

Lemma toHex_lowerHex (fuel : nat) (n : Z) :
  (0 <= n)%Z -> lowerHex (toHex fuel n EmptyString).
Proof.
  revert n. induction fuel as [|fuel IH]; intros n Hn; [done|].
  cbn [toHex]. destruct (n =? 0)%Z; [done|].
  rewrite toHex_acc. apply lowerHex_app.
  - apply IH. apply Z.div_pos; lia.
  - split; [|done]. exists (n mod 16)%Z. split; [|done].
    apply Z.mod_pos_bound. lia.
Qed.

Lemma toHex_length (fuel k : nat) (n : Z) :
  (0 <= n < 16 ^ Z.of_nat k)%Z ->
  (String.length (toHex fuel n EmptyString) <= k)%nat.
Proof.
  revert n k. induction fuel as [|fuel IH]; intros n k Hn; [cbn; lia|].
  cbn [toHex]. destruct (Z.eqb_spec n 0) as [->|Hne]; [cbn; lia|].
  rewrite toHex_acc, string_length_app. cbn [String.length].
  destruct k as [|k]; [cbn in Hn; lia|].
  assert (String.length (toHex fuel (n / 16) EmptyString) <= k)%nat; [|lia].
  apply IH. rewrite Nat2Z.inj_succ, Z.pow_succ_r in Hn by lia.
  split; [apply Z.div_pos; lia|]. apply Z.div_lt_upper_bound; lia.
Qed.

(** Reading digits that start from a zero accumulator. *)
Lemma parseDigits_toHex (fuel : nat) (n : Z) (rest : string)
    (acc : option Z) :
  (0 <= n < 16 ^ Z.of_nat fuel)%Z ->
  default 0%Z acc = 0%Z ->
  parseDigits (toHex fuel n EmptyString ++ rest) acc
  = parseDigits rest (if (n =? 0)%Z then acc else Some n).
Proof.
  revert n rest acc. induction fuel as [|fuel IH]; intros n rest acc Hn Hacc.
  { cbn in Hn. assert (n = 0)%Z as -> by lia. done. }
  cbn [toHex]. destruct (Z.eqb_spec n 0) as [->|Hne]; [done|].
  rewrite toHex_acc, string_app_assoc.
  rewrite Nat2Z.inj_succ, Z.pow_succ_r in Hn by lia.
  rewrite IH; [| |done].
  2:{ split; [apply Z.div_pos; lia|]. apply Z.div_lt_upper_bound; lia. }
  cbn [String.append parseDigits].
  rewrite hexDigit_value by (apply Z.mod_pos_bound; lia).
  f_equal. f_equal.
  destruct (Z.eqb_spec (n / 16) 0) as [E|E].
  - rewrite Hacc. pose proof (Z_div_mod_eq_full n 16) as H. rewrite E in H.
    symmetry. exact H.
  - cbn [default]. symmetry. apply Z_div_mod_eq_full.
Qed.

Lemma parseDigits_zeros (k : nat) (rest : string) (acc : option Z) :
  default 0%Z acc = 0%Z ->
  parseDigits (repeatChar k "0" ++ rest) acc
  = parseDigits rest (match k with O => acc | S _ => Some 0%Z end).
Proof.
  revert acc. induction k as [|k IH]; intros acc Hacc; [done|].
  cbn [repeatChar String.append parseDigits].
  change (digitValue "0") with (Some 0%Z). cbv iota beta.
  rewrite IH by (cbn; lia). rewrite Hacc. by destruct k.
Qed.

Lemma log2_fuel (n : Z) :
  (0 < n)%Z -> (0 <= n < 16 ^ Z.of_nat (S (Z.to_nat (Z.log2 n))))%Z.
Proof.
  intros Hn. split; [lia|].
  pose proof (Z.log2_nonneg n) as Hl.
  destruct (Z.log2_spec n Hn) as [_ Hlt].
  rewrite Nat2Z.inj_succ, Z2Nat.id by done.
  eapply Z.lt_le_trans; [exact Hlt|].
  apply Z.pow_le_mono_l. lia.
Qed.

Lemma getHex_range (c : Color.t) : rgb24 (getHex c).
Proof.
  assert (H : forall q, (0 <= Math_round_Z (clamp q 0 255) <= 255)%Z).
  { intros q. unfold Math_round_Z, clamp.
    assert (Hc : 0 <= Qmax 0 (Qmin 255 q) /\ Qmax 0 (Qmin 255 q) <= 255).
    { split; [apply Q.le_max_l|]. apply Q.max_lub; [lra|apply Q.le_min_l]. }
    destruct Hc as [H0 H1]. set (m := Qmax 0 (Qmin 255 q)) in *.
    split.
    - change 0%Z with (Qfloor 0). apply Qfloor_resp_le. lra.
    - assert (Qfloor (m + (1 # 2)) <= Qfloor (255 + (1 # 2)))%Z
        by (apply Qfloor_resp_le; lra).
      assert (E : Qfloor (255 + (1 # 2)) = 255%Z) by reflexivity. lia. }
  unfold rgb24, getHex.
  pose proof (H (Color.r c * 255)). pose proof (H (Color.g c * 255)).
  pose proof (H (Color.b c * 255)). lia.
Qed.

(** X24: the colour string that [getJsonData] writes for a voxel is '#'
    and six digits, and the import reads the voxel's colour back from
    it. *)
Theorem json_color_round_trip (c : Color.t) :
  importColor (colorString (getHex c)) = Some (getHex c) /\
  String.length (colorString (getHex c)) = 7%nat.
Proof.
  destruct (getHex_range c) as [H0 H1].
  set (color := getHex c) in *. clearbody color.
  unfold importColor, colorString.
  cbn [removeFirst]. change (Ascii.eqb "#" "#") with true. cbv iota.
  unfold padStart, toString16.
  destruct (Z.eqb_spec color 0) as [->|Hne]; [by vm_compute|].
  destruct (Z.ltb_spec color 0) as [?|_]; [lia|].
  set (fuel := S (Z.to_nat (Z.log2 color))).
  set (digits := toHex fuel color EmptyString).
  assert (Hlen : (String.length digits <= 6)%nat).
  { apply toHex_length. change (16 ^ Z.of_nat 6)%Z with 16777216%Z. lia. }
  assert (Hpos : (1 <= String.length digits)%nat).
  { unfold digits, fuel. cbn [toHex].
    destruct (Z.eqb_spec color 0); [lia|].
    rewrite toHex_acc, string_length_app. cbn. lia. }
  assert (Hlow : lowerHex digits) by (apply toHex_lowerHex; lia).
  set (k := (6 - String.length digits)%nat).
  assert (Hall : lowerHex (repeatChar k "0" ++ digits)).
  { apply lowerHex_app; [|done]. clear. induction k as [|k IH]; [done|].
    split; [|done]. exists 0%Z. split; [lia|done]. }
  split.
  - assert (Hparse : parseDigits (repeatChar k "0" ++ digits) None
                     = Some color).
    { rewrite parseDigits_zeros by done.
      rewrite <- (string_app_nil_r digits).
      unfold digits. rewrite parseDigits_toHex.
      - destruct (Z.eqb_spec color 0); [lia|]. done.
      - apply log2_fuel. lia.
      - by destruct k. }
    unfold parseInt16.
    destruct (repeatChar k "0" ++ digits)%string as [|a s] eqn:Es.
    { done. }
    destruct Hall as [(d & Hd & ->) Hs].
    destruct (hexDigit_plain d Hd) as (Hw & Hm & Hp & _).
    cbn [trimStart]. rewrite Hw.
    assert (Esign :
      match String (hexDigit d) s with
      | String "-"%char r => ((-1)%Z, r)
      | String "+"%char r => (1%Z, r)
      | _ => (1%Z, String (hexDigit d) s)
      end = (1%Z, String (hexDigit d) s)).
    { destruct (hexDigit d) as [[] [] [] [] [] [] [] []]; try done. }
    rewrite Esign.
    assert (Eprefix :
      match String (hexDigit d) s with
      | String "0"%char (String "x"%char r) => r
      | String "0"%char (String "X"%char r) => r
      | _ => String (hexDigit d) s
      end = String (hexDigit d) s).
    { destruct s as [|b s']; [by destruct (hexDigit d) as [[] [] [] [] [] [] [] []]|].
      destruct Hs as [(d' & Hd' & ->) _].
      destruct (hexDigit_plain d' Hd') as (_ & _ & _ & Hx & HX & _).
      destruct (hexDigit d) as [[] [] [] [] [] [] [] []]; try done;
        destruct (hexDigit d') as [[] [] [] [] [] [] [] []]; done. }
    rewrite Eprefix, Hparse. cbn. f_equal. lia.
  - cbn [String.length]. rewrite string_length_app.
    assert (Hrep : String.length (repeatChar k "0") = k).
    { clear. induction k as [|k IH]; [done|]. cbn. by rewrite IH. }
    rewrite Hrep. unfold k. lia.
Qed.


(** ** The active count of a progressive rebuild *)

Lemma count_below (f : nat -> bool) (n m : nat) :
  (m <= n)%nat ->
  (forall k : nat, (k < n)%nat -> f k = true <-> (k < m)%nat) ->
  length (filter (fun b : bool => Is_true b) (f <$> seq 0 n)) = m.
Proof.
  revert m. induction n as [|n IH]; intros m Hm H.
  { cbn. lia. }
  rewrite seq_S, fmap_app, filter_app, length_app. cbn [fmap list_fmap].
  change (0 + n)%nat with n.
  destruct (f n) eqn:E.
  - assert (n < m)%nat by (apply H; [lia | done]).
    rewrite (IH n); [| lia |].
    + rewrite filter_cons_True by done. cbn. lia.
    + intros k Hk. rewrite H by lia. lia.
  - assert (~ (n < m)%nat).
    { intros Hlt. apply H in Hlt; [congruence | lia]. }
    rewrite (IH m); [| lia |].
    + rewrite filter_cons_False by (by intros []). cbn. lia.
    + intros k Hk. apply H. lia.
Qed.

Lemma ratio_le_iff (k n : nat) (p : Q) :
  (0 < n)%nat ->
  ratio k n <= p <-> (Z.of_nat k <= Qfloor (p * ofNat n))%Z.
Proof.
  intros Hn. unfold ratio, ofNat.
  assert (Hpos : 0 < inject_Z (Z.of_nat n)).
  { change 0 with (inject_Z 0). rewrite <- Zlt_Qlt. lia. }
  set (N := inject_Z (Z.of_nat n)) in *.
  assert (Hmul : inject_Z (Z.of_nat k) / N <= p
                 <-> inject_Z (Z.of_nat k) <= p * N).
  { split; intros H.
    - assert (E : inject_Z (Z.of_nat k) == inject_Z (Z.of_nat k) / N * N)
        by (field; lra).
      rewrite E. apply Qmult_le_compat_r; lra.
    - apply Qle_shift_div_r; done. }
  rewrite Hmul. split; intros H.
  - pose proof (Qlt_floor (p * N)) as Hlt.
    assert (Hk : inject_Z (Z.of_nat k) < inject_Z (Qfloor (p * N) + 1))
      by lra.
    rewrite <- Zlt_Qlt in Hk. lia.
  - pose proof (Qfloor_le (p * N)) as Hle.
    rewrite Zle_Qle in H. lra.
Qed.

Lemma count_fmap {A : Type} (g : A -> bool) (l : list A) :
  length (filter (fun b : bool => Is_true b) (g <$> l))
  = length (filter (fun a => Is_true (g a)) l).
Proof.
  induction l as [|a l IH]; [done|].
  rewrite fmap_cons, !filter_cons.
  destruct (g a); repeat case_decide; cbn [length]; try done; by rewrite IH.
Qed.

(** Counting over all positions a property that only holds at the
    positions listed, once each, in [pos]. *)
Lemma count_listed (g : nat -> bool) (n : nat) (pos : list nat) :
  NoDup pos ->
  (forall i : nat, i ∈ pos -> (i < n)%nat) ->
  (forall i : nat, (i < n)%nat -> g i = true -> i ∈ pos) ->
  length (filter (fun b : bool => Is_true b) (g <$> seq 0 n))
  = length (filter (fun b : bool => Is_true b) (g <$> pos)).
Proof.
  intros Hnd Hlt Hin. rewrite !count_fmap. apply Permutation_length.
  apply NoDup_Permutation.
  - apply NoDup_filter, NoDup_seq.
  - by apply NoDup_filter.
  - intros i. rewrite !list_elem_of_filter, elem_of_seq. split.
    + intros [Hg Hi]. split; [done|]. apply Hin; [lia|].
      by apply Is_true_true.
    + intros [Hg Hi]. split; [done|]. specialize (Hlt i Hi). lia.
Qed.

Section ActiveCount.
Variable FLOOR_Y : Q.

(** With a progress [p] below 1 recorded after a progressive [rebuild],
    the voxels counted as active are those of the ranks k with
    k / N <= p. *)
Lemma rebuild_active_count (now now'' : Z) (targetModel : list VoxelData.t)
    (p : Q) (e : VoxelEngine) :
  colorsValid e ->
  (0 < length targetModel)%nat ->
  0 <= p -> p < 1 ->
  activeCount FLOOR_Y now''
    (set_manualProgress p (rebuild FLOOR_Y now targetModel true e))
  = S (Z.to_nat (Qfloor (p * ofNat (length targetModel)))).
Proof.
  intros Hval Hpos Hp0 Hp1.
  set (N := length targetModel) in *.
  set (sorted := sort_by_y targetModel).
  set (st := matchingOf targetModel e).
  pose proof (rebuild_inv targetModel e) as Hinv.
  pose proof (rebuild_full targetModel e Hval) as Hfull.
  assert (HN : length sorted = N) by apply sort_by_y_length.
  fold sorted st in Hinv, Hfull. rewrite HN in Hinv, Hfull.
  set (n := Nat.max (length (voxels e)) (length targetModel)) in *.
  destruct (rebuild_fields FLOOR_Y now targetModel true e)
    as (Hvs & Hts & Hst & Hpr & _).
  fold st in Hvs, Hts.
  set (e' := rebuild FLOOR_Y now targetModel true e) in *.
  (* whether position [i] counts *)
  set (g := fun i : nat =>
              match mappings st !! i with
              | Some (Some t) => Qgeb p (RebuildTarget.delay t)
              | _ => false
              end).
  assert (E : imap (fun i v =>
                snd (slotScale FLOOR_Y now'' (set_manualProgress p e') i v))
                (voxels e')
              = g <$> seq 0 n).
  { apply list_eq_same_length with n.
    - by rewrite length_fmap, length_seq.
    - rewrite length_imap, Hvs. apply (inv_len_voxels _ _ _ _ Hinv).
    - intros i b b' Hi Hb Hb'.
      rewrite list_lookup_imap in Hb. rewrite list_lookup_fmap in Hb'.
      rewrite lookup_seq_lt in Hb' by done. cbn in Hb'.
      injection Hb' as <-.
      destruct (voxels e' !! i) as [v|]; [|done]. cbn in Hb.
      injection Hb as <-.
      unfold slotScale, g.
      change (state (set_manualProgress p e')) with (state e').
      change (rebuildTargets (set_manualProgress p e'))
        with (rebuildTargets e').
      rewrite Hst, Hts, list_lookup_fmap.
      destruct (mappings st !! i) as [[t|]|] eqn:Hm; [| done | done].
      cbn [fmap option_fmap option_map fillRubble].
      rewrite (matching_inv_not_rubble _ _ _ _ i t Hinv Hm).
      unfold isUnlocked.
      change (isProgressive (set_manualProgress p e'))
        with (isProgressive e').
      rewrite Hpr.
      change (manualProgress (set_manualProgress p e')) with p.
      destruct (Qgeb p (RebuildTarget.delay t)); [done|].
      by destruct (Qltb _ _). }
  unfold activeCount.
  change (voxels (set_manualProgress p e')) with (voxels e').
  rewrite E. clear E.
  (* the position of every rank *)
  destruct (list_choice
              (fun (k i : nat) =>
                 exists target : VoxelData.t,
                   sorted !! k = Some target /\
                   mappings st !! i = Some (Some (mapping_of N k target)))
              N) as (pos & Hpl & Hpos_at).
  { intros k Hk.
    destruct (lookup_lt_is_Some_2 sorted k) as [target Htg]; [lia|].
    destruct (full_ranks _ _ _ _ Hfull k target Hk Htg) as [i Hi].
    exists i, target. by rewrite <- HN. }
  rewrite (count_listed g n pos).
  - assert (Eg : g <$> pos = (fun k => Qgeb p (ratio k N)) <$> seq 0 N).
    { apply list_eq_same_length with N.
      - by rewrite length_fmap, length_seq.
      - by rewrite length_fmap.
      - intros k b b' Hk Hb Hb'.
        rewrite list_lookup_fmap in Hb. rewrite list_lookup_fmap in Hb'.
        rewrite lookup_seq_lt in Hb' by done. cbn in Hb'.
        injection Hb' as <-.
        destruct (pos !! k) as [i|] eqn:Hi; [|done]. cbn in Hb.
        injection Hb as <-.
        destruct (Hpos_at k i Hi) as (target & _ & Hm).
        unfold g. by rewrite Hm. }
    rewrite Eg. apply count_below.
    + assert (Hfl : (Qfloor (p * ofNat N) < Z.of_nat N)%Z).
      { pose proof (Qfloor_le (p * ofNat N)) as Hle.
        assert (HposN : 0 < ofNat N).
        { unfold ofNat. change 0 with (inject_Z 0). rewrite <- Zlt_Qlt. lia. }
        rewrite Zlt_Qlt. fold (ofNat N). nra. }
      lia.
    + intros k Hk. rewrite Qgeb_true, (ratio_le_iff k N p Hpos).
      assert (0 <= Qfloor (p * ofNat N))%Z.
      { change 0%Z with (Qfloor 0). apply Qfloor_resp_le.
        pose proof (ofNat_nonneg N). nra. }
      lia.
  - apply NoDup_alt. intros k k' i Hk Hk'.
    destruct (Hpos_at k i Hk) as (target & _ & Hm).
    destruct (Hpos_at k' i Hk') as (target' & _ & Hm').
    assert (Hd : mapping_of N k target = mapping_of N k' target')
      by congruence.
    apply (ratio_inj k k' N Hpos).
    change (RebuildTarget.delay (mapping_of N k target)
            == RebuildTarget.delay (mapping_of N k' target')).
    by rewrite Hd.
  - intros i Hi. apply list_elem_of_lookup in Hi. destruct Hi as [k Hk].
    destruct (Hpos_at k i Hk) as (target & _ & Hm).
    apply lookup_lt_Some in Hm.
    by rewrite (inv_len_mappings _ _ _ _ Hinv) in Hm.
  - intros i Hi Hg. unfold g in Hg.
    destruct (mappings st !! i) as [[t|]|] eqn:Hm; [| done | done].
    destruct (inv_claimed _ _ _ _ Hinv i t Hm)
      as (k & target & v & Hk & Htg & -> & _).
    destruct (lookup_lt_is_Some_2 pos k) as [i' Hi']; [lia|].
    destruct (Hpos_at k i' Hi') as (target' & Htg' & Hm').
    rewrite HN in Hm. rewrite Htg in Htg'. injection Htg' as <-.
    assert (i = i') as ->; [|by eapply list_elem_of_lookup_2].
    by apply (inv_distinct _ _ _ _ Hinv i i' _ _ Hm Hm').
Qed.


Section Session.
Variable normalize : Q * Q * Q -> Q * Q * Q.
Variable random : nat -> Q.

Lemma colorsValid_dismantle (e : VoxelEngine) :
  colorsValid e -> colorsValid (dismantle normalize random e).
Proof. intros H. by apply colorsValid_imap. Qed.

(** X26: starting a session (dismantle, progressive rebuild, progress 0)
    leaves the engine REBUILDING under external control with progress
    0; the store has the larger of the two sizes, the voxels in excess
    of the target list are rubble, and exactly one voxel, the one of
    the lowest target, is active. *)
Theorem startSession_first_voxel (now now' : Z)
    (targetData : list VoxelData.t) (e : VoxelEngine) :
  colorsValid e ->
  (0 < length targetData)%nat ->
  let e' := startSession FLOOR_Y normalize random now targetData e in
  state e' = REBUILDING /\
  isProgressive e' = true /\
  manualProgress e' = 0 /\
  length (voxels e')
  = Nat.max (length (voxels e)) (length targetData) /\
  rubbleCount (rebuildTargets e')
  = (length (voxels e) - length targetData)%nat /\
  activeCount FLOOR_Y now' e' = 1%nat.
Proof.
  intros Hval Hpos e'. unfold e', startSession.
  rewrite setProgress_below_one by reflexivity.
  pose proof (colorsValid_dismantle e Hval) as Hval'.
  set (e0 := dismantle normalize random e) in *.
  assert (Hlen : length (voxels e0) = length (voxels e))
    by (unfold e0; cbn; by rewrite length_imap).
  destruct (rebuild_fields FLOOR_Y now targetData true e0)
    as (_ & _ & Hst & Hpr & _).
  split; [exact Hst|]. split; [exact Hpr|]. split; [reflexivity|].
  change (voxels (set_manualProgress 0 ?x)) with (voxels x).
  change (rebuildTargets (set_manualProgress 0 ?x)) with (rebuildTargets x).
  rewrite length_rebuild_voxels, rebuild_rubbleCount, Hlen by done.
  split; [done|]. split; [done|].
  rewrite (rebuild_active_count now now' targetData 0 e0 Hval' Hpos)
    by (try apply Qle_refl; reflexivity).
  assert (E : 0 * ofNat (length targetData) == 0) by ring.
  by rewrite E.
Qed.
End Session.
End ActiveCount.


(** ** The next preset *)

Lemma random_index (random : Q) (n : nat) :
  0 <= random -> random < 1 -> (0 < n)%nat ->
  (Z.to_nat (Qfloor (random * inject_Z (Z.of_nat n))) < n)%nat.
Proof.
  intros H0 H1 Hn.
  pose proof (Qfloor_le (random * inject_Z (Z.of_nat n))) as Hle.
  assert (HposN : 0 < inject_Z (Z.of_nat n)).
  { change 0 with (inject_Z 0). rewrite <- Zlt_Qlt. lia. }
  set (N := inject_Z (Z.of_nat n)) in *.
  assert (Hlt : (Qfloor (random * N) < Z.of_nat n)%Z).
  { rewrite Zlt_Qlt. fold N. nra. }
  assert (Hge : (0 <= Qfloor (random * N))%Z).
  { change 0%Z with (Qfloor 0). apply Qfloor_resp_le. nra. }
  lia.
Qed.

(** X28: with [Math.random] in [0,1), the preset queued next always
    exists, is one of the four presets and is never the current build. *)
Theorem queueNextRandomModel_other (random : Q) (currentBaseModel : string) :
  0 <= random -> random < 1 ->
  exists nextKey : string,
    queueNextRandomModel random currentBaseModel = Some nextKey /\
    nextKey ∈ PRESET_KEYS /\ nextKey <> currentBaseModel.
Proof.
  intros H0 H1. unfold queueNextRandomModel. cbn zeta.
  set (others := filter (fun k => k <> currentBaseModel) PRESET_KEYS).
  assert (Hne : (0 < length others)%nat).
  { assert (Hin : exists k : string, k ∈ others).
    { destruct (decide ("Eagle"%string = currentBaseModel)) as [<- | Hd].
      - exists "Cat"%string. apply list_elem_of_filter. split; [done|].
        apply list_elem_of_further, list_elem_of_here.
      - exists "Eagle"%string. apply list_elem_of_filter. split; [done|].
        apply list_elem_of_here. }
    destruct Hin as [k Hk]. destruct others; [|cbn; lia].
    by apply elem_of_nil in Hk. }
  destruct (lookup_lt_is_Some_2 others
              (Z.to_nat
                 (Qfloor (random * inject_Z (Z.of_nat (length others))))))
    as [k Hk]; [by apply random_index|].
  exists k. split; [done|].
  apply list_elem_of_lookup_2 in Hk. apply list_elem_of_filter in Hk.
  by destruct Hk.
Qed.

(** ** Worked examples *)

(** An extent of 3 on x (midpoint 1/2 after rounding) and of 5 on z. *)
Example normalizeVoxels_example :
  normalizeVoxels [voxelAt 1 5 3 red; voxelAt 4 7 3 red; voxelAt 2 9 8 blue]
  = [voxelAt (-1) 0 (-2) red; voxelAt 2 2 (-2) red; voxelAt 0 4 3 blue].
Proof. reflexivity. Qed.

(** The pair rebuilt into the swapped pair: two matches, no rubble, voxel
    0 at rank 0 and voxel 1 at rank 1. *)
Lemma rebuild_assignment_one_to_one_witness :
  colorsValid pair /\
  length (voxels pair) = length swapped /\
  matchedCount (rebuildTargets pairRebuilding) = 2%nat /\
  rubbleCount (rebuildTargets pairRebuilding) = 0%nat /\
  assignedSlot swapped pairRebuilding 0 0 /\
  assignedSlot swapped pairRebuilding 1 1.
Proof.
  assert (Hval : colorsValid pair)
    by (repeat constructor; by vm_compute).
  pose proof (rebuild_assignment_one_to_one floorY 5 swapped true pair) as H.
  cbv zeta in H. destruct H as (_ & _ & H).
  destruct (H Hval eq_refl) as (Hm & Hr & _).
  split; [exact Hval|]. split; [reflexivity|].
  split; [exact Hm|]. split; [exact Hr|].
  split; eexists; split; reflexivity.
Defined.

(** The pair rebuilt into three targets: the store grows by one. *)
Lemma rebuild_store_size_witness :
  length [voxelAt 0 0 0 red; voxelAt 0 1 0 blue; voxelAt 0 2 0 green]
  = (length (voxels pair) + 1)%nat /\
  length (voxels (rebuild floorY 5
            [voxelAt 0 0 0 red; voxelAt 0 1 0 blue; voxelAt 0 2 0 green]
            true pair))
  = (length (voxels pair) + 1)%nat.
Proof.
  split; [reflexivity|].
  pose proof (rebuild_store_size floorY 5
                [voxelAt 0 0 0 red; voxelAt 0 1 0 blue; voxelAt 0 2 0 green]
                true pair) as H.
  cbv zeta in H. destruct H as (H & _).
  destruct (H 1%nat eq_refl) as [Hlen _]. exact Hlen.
Defined.

(** In the swapped pair the target at height 0 unlocks before the one at
    height 2. *)
Lemma rebuild_delay_monotone_witness :
  RebuildTarget.delay (mapping_of 2 0 (voxelAt 0 0 0 red))
  <= RebuildTarget.delay (mapping_of 2 1 (voxelAt 0 2 0 blue)).
Proof.
  apply (rebuild_delay_monotone floorY 5 swapped true pair 0 1).
  - reflexivity.
  - reflexivity.
  - reflexivity.
  - reflexivity.
  - by vm_compute.
Defined.

(** Voxel 1 of the rebuilding pair already has the colour of its target. *)
Lemma rebuild_snaps_colors_witness :
  exists (k : nat) (target : VoxelData.t) (v : SimulationVoxel.t),
    sort_by_y swapped !! k = Some target /\
    mapping_of 2 1 (voxelAt 0 2 0 blue)
    = mapping_of (length (sort_by_y swapped)) k target /\
    voxels pairRebuilding !! 1%nat = Some v /\
    SimulationVoxel.color v = Color.setHex (VoxelData.color target).
Proof.
  apply (rebuild_snaps_colors floorY 5 swapped true pair 1).
  - reflexivity.
  - reflexivity.
Defined.

(** Three voxels rebuilt into one: voxel 0 is rubble and its delay, 2, is
    outside [0,1]. *)
Lemma rubble_delay_exceeds_one :
  exists t : RebuildTarget.t,
    rebuildTargets shrunk !! 0%nat = Some t /\
    RebuildTarget.rubble t = true /\
    ~ (0 <= RebuildTarget.delay t /\ RebuildTarget.delay t <= 1).
Proof.
  eexists. split; [reflexivity|]. split; [reflexivity|].
  intros [_ H]. by vm_compute in H.
Qed.

(** The rubble target of that rebuild is out of reach of progress 1. *)
Lemma target_delays_witness :
  RebuildTarget.delay (rubbleTarget floorY) == 2 /\
  Qgeb 1 (RebuildTarget.delay (rubbleTarget floorY)) = false.
Proof.
  destruct (target_delays floorY 5 [voxelAt 0 0 0 blue] true triple 0
              (rubbleTarget floorY)) as [H _].
  destruct (H eq_refl) as [_ Hr].
  destruct (Hr eq_refl) as [Hd Hp].
  split; [exact Hd|]. apply Hp; by vm_compute.
Defined.

(** An autonomous rebuild whose only voxel is on its target, before and
    after a tick, is still REBUILDING after that tick and after four. *)
Lemma converged_stays_rebuilding :
  state settled = REBUILDING /\
  isProgressive settled = false /\
  Forall2 onTarget (voxels settled) (rebuildTargets settled) /\
  Forall (fun t => RebuildTarget.rubble t = false) (rebuildTargets settled) /\
  Forall2 onTarget (voxels (animate floorY 1000 settled))
                   (rebuildTargets (animate floorY 1000 settled)) /\
  state (animate floorY 1000 settled) = REBUILDING /\
  state (ticks floorY [1000; 2000; 3000; 4000]%Z settled) = REBUILDING.
Proof.
  repeat split; repeat constructor; by vm_compute.
Qed.

(** On the same engine the earlier revision's tick does reach STABLE. *)
Example legacy_settled_reaches_stable :
  state (Legacy.updatePhysics floorY 1000 settled) = STABLE.
Proof. reflexivity. Qed.

(** In STABLE, [setProgress(0.5)] changes [manualProgress] from 0 to 0.5. *)
Lemma setProgress_writes_when_stable :
  state single = STABLE /\
  manualProgress single == 0 /\
  manualProgress (setProgress floorY 10 (1 # 2) single) == 1 # 2 /\
  ~ manualProgress (setProgress floorY 10 (1 # 2) single)
    == manualProgress single.
Proof.
  split; [reflexivity|]. split; [reflexivity|]. split; [reflexivity|].
  by vm_compute.
Qed.

(** In STABLE, [setProgress(0.5)] does nothing but record 0.5. *)
Lemma setProgress_outside_rebuilding_witness :
  state single = STABLE /\
  setProgress floorY 10 (1 # 2) single = set_manualProgress (1 # 2) single.
Proof.
  split; [reflexivity|].
  apply (setProgress_outside_rebuilding floorY 10 (1 # 2) single).
  left. reflexivity.
Defined.

(** Finishing the rebuilding pair puts voxel 1 on its target (0,2,0). *)
Lemma finishRebuild_snaps_witness :
  state (finishRebuild floorY 9 pairRebuilding) = STABLE /\
  exists v' : SimulationVoxel.t,
    voxels (finishRebuild floorY 9 pairRebuilding) !! 1%nat = Some v' /\
    SimulationVoxel.x v' = 0 /\
    SimulationVoxel.y v' = 2 /\
    SimulationVoxel.z v' = 0.
Proof.
  pose proof (finishRebuild_snaps floorY 9 pairRebuilding) as H.
  cbv zeta in H. destruct H as [Hs Hsnap]. split; [exact Hs|].
  destruct (Hsnap 1%nat
              (SimulationVoxel.mk 1 1 1 0 (Color.setHex blue)
                                  0 0 0 0 0 0 0 0 0)
              (mapping_of 2 1 (voxelAt 0 2 0 blue))
              eq_refl eq_refl eq_refl)
    as (v' & Hv & (Hx & Hy & Hz) & _).
  exists v'. repeat split; assumption.
Defined.

(** On the rebuilding pair, [setProgress(1)] is [finishRebuild]: voxel 1
    ends on its target (0,2,0). *)
Lemma setProgress_completes_witness :
  1 <= 1 /\
  state pairRebuilding = REBUILDING /\
  setProgress floorY 9 1 pairRebuilding = finishRebuild floorY 9 pairRebuilding /\
  state (setProgress floorY 9 1 pairRebuilding) = STABLE /\
  exists v' : SimulationVoxel.t,
    voxels (setProgress floorY 9 1 pairRebuilding) !! 1%nat = Some v' /\
    SimulationVoxel.x v' = 0 /\
    SimulationVoxel.y v' = 2 /\
    SimulationVoxel.z v' = 0.
Proof.
  split; [by vm_compute|]. split; [reflexivity|].
  destruct (setProgress_completes floorY 9 1 pairRebuilding)
    as (HE & Hst & _ & Hsnap); [by vm_compute | reflexivity |].
  split; [exact HE|]. split; [exact Hst|].
  destruct (Hsnap 1%nat
              (SimulationVoxel.with_color (Color.setHex blue)
                 (newVoxel 1 (voxelAt 1 1 0 blue)))
              (mapping_of 2 1 (voxelAt 0 2 0 blue)) eq_refl eq_refl)
    as (v' & Hv & Hon & _).
  destruct (Hon eq_refl) as ((Hx & Hy & Hz) & _).
  exists v'. split; [exact Hv|]. split; [exact Hx|]. split; [exact Hy|].
  exact Hz.
Defined.

(** The rebuilding pair is finished by [setProgress(1)] between two
    frames. *)
Lemma rebuilding_ends_only_by_finishing_witness :
  state pairRebuilding <> STABLE /\
  state (run floorY [CallAnimate 10; CallSetProgress 20 1; CallAnimate 30]
           pairRebuilding) = STABLE /\
  Exists finishes [CallAnimate 10; CallSetProgress 20 1; CallAnimate 30].
Proof.
  assert (Hne : state pairRebuilding <> STABLE) by discriminate.
  assert (Hend : state (run floorY
                          [CallAnimate 10; CallSetProgress 20 1; CallAnimate 30]
                          pairRebuilding) = STABLE) by reflexivity.
  split; [exact Hne|]. split; [exact Hend|].
  destruct (rebuilding_ends_only_by_finishing floorY pairRebuilding)
    as (_ & _ & H & _).
  exact (H _ Hne Hend).
Defined.

(** ** Worked examples of the further properties *)

(** In the pair the scan for a blue target passes the red voxel and
    stops at the blue one, at distance 0. *)
Lemma findBest_nearest_witness :
  findBest 0 (available (startMatching (voxels pair))) (voxels pair)
           0 9999 None = Some 1%nat /\
  exists d : Q,
    candidate 0 (available (startMatching (voxels pair))) (voxels pair) 1 d /\
    (forall (j : nat) (d' : Q),
       (j < 1)%nat ->
       candidate 0 (available (startMatching (voxels pair))) (voxels pair)
                 j d' -> d < d') /\
    (d < 1 # 100 \/
     forall (j : nat) (d' : Q),
       candidate 0 (available (startMatching (voxels pair))) (voxels pair)
                 j d' -> d <= d').
Proof.
  split; [reflexivity|].
  apply (findBest_nearest 0 (available (startMatching (voxels pair)))
           (voxels pair) 1).
  reflexivity.
Defined.

(** A voxel whose red channel is 10000 is out of reach of the scan. *)
Lemma findBest_none_witness :
  findBest 0 (available (startMatching glowing)) glowing 0 9999 None = None /\
  candidate 0 (available (startMatching glowing)) glowing 0 10000 /\
  9999 <= 10000.
Proof.
  assert (Hc : candidate 0 (available (startMatching glowing)) glowing 0 10000).
  { eexists. eexists. split; [reflexivity|]. split; [reflexivity|].
    split; reflexivity. }
  split; [reflexivity|]. split; [exact Hc|].
  apply (findBest_none 0 (available (startMatching glowing)) glowing 0 10000).
  - reflexivity.
  - exact Hc.
Defined.

(** Three voxels rebuilt into one: voxel 0 stays where it is. *)
Lemma rebuild_morphs_in_place_witness :
  exists (v' : SimulationVoxel.t) (t : RebuildTarget.t),
    voxels shrunk !! 0%nat = Some v' /\
    rebuildTargets shrunk !! 0%nat = Some t /\
    recolored firstLoaded v' /\
    (RebuildTarget.rubble t = true -> v' = firstLoaded).
Proof.
  apply (rebuild_morphs_in_place floorY 5 [voxelAt 0 0 0 blue] true triple 0
           firstLoaded).
  - cbn. lia.
  - reflexivity.
Defined.

(** Three ticks after the pair was dismantled its first voxel has lost
    0.018 of upward speed. *)
Lemma dismantling_free_fall_witness :
  exists v' : SimulationVoxel.t,
    voxels (ticks floorY [1; 2; 3]%Z pairDismantled) !! 0%nat = Some v' /\
    SimulationVoxel.vy v'
    == SimulationVoxel.vy firstKicked - (6 # 1000) * ofNat 3.
Proof.
  destruct (dismantling_free_fall floorY [1; 2; 3]%Z pairDismantled 0
              firstKicked eq_refl eq_refl) as (v' & Hv & Hvy & _).
  exists v'. split; [exact Hv | exact Hvy].
Defined.

Lemma evenRandom_unit : unitRandom evenRandom.
Proof. intros k. unfold evenRandom. split; lra. Qed.

(** Dismantling the pair leaves its first voxel in place, with an upward
    speed of at least 0.1. *)
Lemma dismantle_kicks_upwards_witness :
  state pairDismantled = DISMANTLING /\
  exists v' : SimulationVoxel.t,
    voxels pairDismantled !! 0%nat = Some v' /\
    SimulationVoxel.y v' = SimulationVoxel.y firstLoaded /\
    1 # 10 <= SimulationVoxel.vy v'.
Proof.
  destruct (dismantle_kicks_upwards alongX evenRandom pair 0 firstLoaded
              evenRandom_unit eq_refl)
    as (Hs & _ & _ & _ & v' & Hv & _ & _ & (_ & Hy & _) & _ & (Hvy & _) & _).
  split; [exact Hs|]. exists v'. split; [exact Hv|]. split; [exact Hy|].
  exact Hvy.
Defined.

(** Three ticks after the pair was dismantled its first voxel is above
    where it started. *)
Lemma dismantled_voxel_jumps_then_falls_witness :
  exists v' : SimulationVoxel.t,
    voxels (ticks floorY [1; 2; 3]%Z pairDismantled) !! 0%nat = Some v' /\
    SimulationVoxel.y firstLoaded < SimulationVoxel.y v'.
Proof.
  destruct (dismantled_voxel_jumps_then_falls floorY alongX evenRandom
              [1; 2; 3]%Z pair 0 firstLoaded evenRandom_unit eq_refl)
    as (v' & Hv & Hup & _).
  exists v'. split; [exact Hv|]. apply Hup. cbn. lia.
Defined.

(** At half of the session the blue voxel of the pair is unlocked; after
    two ticks its offset on x from the target is 0.85^2 of the initial
    offset 1. *)
Lemma rebuilding_converges_witness :
  exists v' : SimulationVoxel.t,
    voxels (ticks floorY [10; 20]%Z pairHalfway) !! 1%nat = Some v' /\
    SimulationVoxel.x v' - 0 == Qpow (85 # 100) 2 * (1 - 0).
Proof.
  destruct (rebuilding_converges floorY [10; 20]%Z pairHalfway 1
              (SimulationVoxel.with_color (Color.setHex blue)
                 (newVoxel 1 (voxelAt 1 1 0 blue)))
              (mapping_of 2 1 (voxelAt 0 2 0 blue)))
    as (v' & Hv & (Hx & _) & _).
  - reflexivity.
  - reflexivity.
  - reflexivity.
  - reflexivity.
  - repeat constructor.
  - exists v'. split; [exact Hv | exact Hx].
Defined.

(** Three voxels rebuilt into one: the rubble voxel 0 is not moved by
    two ticks. *)
Lemma rebuilding_leaves_rubble_witness :
  voxels (ticks floorY [10; 20]%Z shrunk) !! 0%nat = voxels shrunk !! 0%nat.
Proof.
  apply (rebuilding_leaves_rubble floorY [10; 20]%Z shrunk 0).
  - reflexivity.
  - reflexivity.
Defined.

(** The sunken blue voxel, locked at progress 0, is hidden after one
    tick. *)
Lemma locked_voxel_parks_witness :
  exists v' : SimulationVoxel.t,
    voxels (ticks floorY [10]%Z sunken) !! 1%nat = Some v' /\
    SimulationVoxel.y v' <= floorY - 5 /\
    slotScale floorY 20 (ticks floorY [10]%Z sunken) 1 v'
    = (1 # 10000, false).
Proof.
  destruct (locked_voxel_parks floorY [10]%Z sunken 1
              (SimulationVoxel.with_color (Color.setHex blue)
                 (newVoxel 1 (voxelAt 1 (-20) 0 blue)))
              (mapping_of 2 1 (voxelAt 0 2 0 blue)))
    as (v' & Hv & _ & _ & _ & Hy & Hs).
  - reflexivity.
  - reflexivity.
  - reflexivity.
  - reflexivity.
  - repeat constructor.
  - by vm_compute.
  - exists v'. split; [exact Hv|]. split; [exact Hy|].
    apply Hs; [cbn; lia | reflexivity].
Defined.

(** The three voxels of the example lie on the grid and are moved as
    one block. *)
Lemma normalizeVoxels_rigid_on_grid_witness :
  exists cx cy cz : Z,
    Forall2 (fun v w =>
               VoxelData.x w == VoxelData.x v + inject_Z cx /\
               VoxelData.y w == VoxelData.y v + inject_Z cy /\
               VoxelData.z w == VoxelData.z v + inject_Z cz /\
               VoxelData.color w = VoxelData.color v)
      [voxelAt 1 5 3 red; voxelAt 4 7 3 red; voxelAt 2 9 8 blue]
      (normalizeVoxels
         [voxelAt 1 5 3 red; voxelAt 4 7 3 red; voxelAt 2 9 8 blue]).
Proof.
  apply normalizeVoxels_rigid_on_grid.
  repeat constructor;
    first [by exists 1%Z | by exists 2%Z | by exists 3%Z | by exists 4%Z
          | by exists 5%Z | by exists 7%Z | by exists 8%Z | by exists 9%Z].
Defined.

(** With no time left the progress is 1, and half of a work session
    gives a progress within 2 eps64 of 1/2. *)
Lemma manualProgressOf_range_witness :
  manualProgressOf true 0 == 1 /\
  Qabs (manualProgressOf true 750 - (1 - 750 / totalTime true))
  <= 2 * eps64.
Proof.
  destruct (manualProgressOf_range true 0 0) as (_ & H1 & _).
  destruct (manualProgressOf_range true 750 0) as (_ & _ & _ & _ & H2 & _).
  split; [apply H1; lra|]. apply H2; by vm_compute.
Defined.

(** A quarter of a work session comes back within 4 eps64. *)
Lemma manualProgress_round_trip_witness :
  Qabs (manualProgressOf true (timeForProgress true (1 # 4)) - (1 # 4))
  <= 4 * eps64.
Proof.
  destruct (manualProgress_round_trip true (1 # 4) 0) as [H _].
  apply H; lra.
Defined.

(** Three ticks at speed 1 take 0.3 s off one second, within 9 eps64. *)
Lemma timerTick_countdown_witness :
  Qabs (Nat.iter 3 (timerTick 1) 1 - Qmax 0 (1 - ofNat 3 * 1 * (1 # 10)))
  <= ofNat 3 * (2 + 1) * eps64.
Proof.
  destruct (timerTick_countdown 1 1 3) as (_ & _ & _ & _ & H);
    [lra | lra | lra | lra | by vm_compute | exact H].
Defined.

(** With no time left the rebuilding pair is finished. *)
Lemma syncProgress_completes_at_zero_witness :
  syncProgress floorY 9 true true 0 pairRebuilding
  = finishRebuild floorY 9 pairRebuilding.
Proof.
  destruct (syncProgress_completes_at_zero floorY 9 true 0 pairRebuilding
              eq_refl) as [H _].
  apply H. lra.
Defined.

(** The doubles at work.  The literal [0.1] is 3602879701896397 / 2^55. *)
Example tenth_double : tenth == 3602879701896397 # 36028797018963968.
Proof. by vm_compute. Qed.

(** With 10^-13 s left of a work session the progress is already 1. *)
Example progress_one_with_time_left :
  0 < binary64 (1 # 10000000000000) /\
  manualProgressOf true (binary64 (1 # 10000000000000)) == 1.
Proof. split; by vm_compute. Qed.

(** Neither round trip is the identity: not from the progress 0.283, and
    not from the time 100.1. *)
Example round_trip_not_exact :
  ~ manualProgressOf true (timeForProgress true (binary64 (283 # 1000)))
    == binary64 (283 # 1000).
Proof. by vm_compute. Qed.

Example time_round_trip_not_exact :
  ~ timeForProgress true (manualProgressOf true (binary64 (1001 # 10)))
    == binary64 (1001 # 10).
Proof. by vm_compute. Qed.

(** A work session at speed 1: after 15000 ticks 9676197 / 2^55 s are
    left, and the next tick ends the session. *)
Example countdown_of_a_work_session :
  let left := Nat.iter (150 * 100) (timerTick 1) 1500 in
  left == 9676197 # 36028797018963968 /\ timerTick 1 left == 0.
Proof. by vm_compute. Qed.

Lemma pair_valid : colorsValid pair.
Proof. repeat constructor; by vm_compute. Qed.

(** The pair rebuilt into the swapped pair and finished holds the
    swapped pair. *)
Lemma export_after_finished_rebuild_witness :
  getActiveModelData
    (finishRebuild floorY 9 (rebuild floorY 5 swapped true pair))
  ≡ₚ swapped.
Proof.
  apply (export_after_finished_rebuild floorY 5 9 swapped true pair).
  - exact pair_valid.
  - cbn. lia.
  - unfold swapped.
    constructor; [split; by vm_compute|].
    constructor; [split; by vm_compute|]. constructor.
Defined.


(** Starting a session on the pair towards the swapped pair: one voxel
    is active and none is rubble. *)
Lemma startSession_first_voxel_witness :
  state (startSession floorY alongX evenRandom 5 swapped pair) = REBUILDING /\
  rubbleCount
    (rebuildTargets (startSession floorY alongX evenRandom 5 swapped pair))
  = 0%nat /\
  activeCount floorY 6 (startSession floorY alongX evenRandom 5 swapped pair)
  = 1%nat.
Proof.
  pose proof (startSession_first_voxel floorY alongX evenRandom 5 6 swapped
                pair pair_valid) as H.
  cbv zeta in H.
  destruct H as (Hs & _ & _ & _ & Hr & Ha); [cbn; lia|].
  split; [exact Hs|]. split; [exact Hr | exact Ha].
Defined.

(** In the swapped pair the target at height 0 has a strictly smaller
    delay than the one at height 2. *)
Lemma rebuild_unlocks_ground_up_witness :
  RebuildTarget.delay (mapping_of 2 0 (voxelAt 0 0 0 red))
  < RebuildTarget.delay (mapping_of 2 1 (voxelAt 0 2 0 blue)).
Proof.
  destruct (rebuild_unlocks_ground_up floorY 5 swapped true pair 0 1
              (mapping_of 2 0 (voxelAt 0 0 0 red))
              (mapping_of 2 1 (voxelAt 0 2 0 blue))) as [H _].
  - reflexivity.
  - reflexivity.
  - reflexivity.
  - reflexivity.
  - by vm_compute.
  - exact H.
Defined.

(** The slider at 50 in a work session stores 750 s. *)
Lemma scrub_round_trip_witness :
  0 <= handleScrubChange true 50 /\
  handleScrubChange true 50 <= totalTime true /\
  Qabs (progressPercent true (handleScrubChange true 50) - 50)
  <= 50 / totalTime true.
Proof.
  pose proof (scrub_round_trip true 50) as H. cbv zeta in H.
  destruct H as (_ & H0 & H1 & H2); [lra | lra |].
  split; [exact H0|]. split; [exact H1 | exact H2].
Defined.


(** With the Eagle as the current build and [Math.random() = 0.5] the
    Rabbit is next. *)
Lemma queueNextRandomModel_other_witness :
  exists nextKey : string,
    queueNextRandomModel (1 # 2) "Eagle" = Some nextKey /\
    nextKey ∈ PRESET_KEYS /\ nextKey <> "Eagle"%string.
Proof. apply queueNextRandomModel_other; lra. Defined.

(** The settled voxel of the autonomous rebuild is within reach: the
    earlier revision's tick turns the engine STABLE. *)
Lemma legacy_updatePhysics_converges_witness :
  state settled = REBUILDING /\
  isProgressive settled = false /\
  state (Legacy.updatePhysics floorY 1000 settled) = STABLE.
Proof.
  split; [reflexivity|]. split; [reflexivity|].
  apply (legacy_updatePhysics_converges floorY 1000 settled).
  - reflexivity.
  - reflexivity.
  - intros i v t Hv Ht Hr. destruct i as [|i].
    + injection Hv as <-. injection Ht as <-.
      split; [reflexivity | by vm_compute].
    + destruct i; discriminate Hv.
Defined.

